(** * Moment expansion approximation: counters, mixed moments, ODE problems

    A shallow embedding of the symbolic core of the MEA package
    (moment_expansion_approximation.py, eq_mixedmoments.py, ode_problem.py)
    together with the properties its specification states about it.

    Python integers are [Z]; Python lists and tuples of integers are
    [list Z]; dictionaries are stdpp's [gmap]; exceptions are an error
    monad.  The symbolic engine (sympy) is external to the package and is
    taken as an interface, [Sympy]. *)

From Stdlib Require Import ZArith String Ascii.
From stdpp Require Import base list gmap strings pretty sorting.

#[local] Set Warnings "-register-all,-clear-no-such-hyp".

Local Open Scope Z_scope.

(** ** Python primitives *)

Module Py.

(** Fragments of a message built by string concatenation or by the [%]
    operator: literal characters, and converted arguments.  A conversion
    keeps its type character ([i], [e], ...), whether the blank flag was
    given, and the integer it renders. *)
Inductive fragment :=
| Text (s : string)
| Conv (ty : ascii) (blank : bool) (arg : Z).

Definition message := list fragment.

Inductive exn :=
| TypeError (msg : message)
| IndexError (msg : message)
| KeyError (msg : message)
| ValueError (msg : message)
| SympifyError (msg : message).

(** A computation either raises or returns. *)
Definition result (A : Type) : Type := exn + A.

Definition raise {A} (e : exn) : result A := inl e.
Definition ret {A} (a : A) : result A := inr a.
Definition bind {A B} (k : A → result B) (m : result A) : result B :=
  match m with
  | inl e => inl e
  | inr a => k a
  end.

#[global] Instance result_ret : MRet result := @ret.
#[global] Instance result_bind : MBind result := @bind.

Definition raises {A} (m : result A) : Prop := ∃ e, m = inl e.
Definition returns {A} (m : result A) : Prop := ∃ a, m = inr a.

(** [[f(x) for x in l]] where [f] may raise: the first exception wins. *)
Fixpoint traverse {A B} (f : A → result B) (l : list A) : result (list B) :=
  match l with
  | [] => ret []
  | x :: l' => y ← f x; ys ← traverse f l'; ret (y :: ys)
  end.

(** [sum(v)] on a sequence of integers. *)
Definition sum (v : list Z) : Z := foldr Z.add 0 v.

(** [range(n)]. *)
Definition range (n : Z) : list Z := Z.of_nat <$> seq 0 (Z.to_nat n).

(** [[x] * n]. *)
Definition repeat_list {A} (l : list A) (n : nat) : list A :=
  concat (replicate n l).

(** [itertools.product(r, repeat=n)]: the rightmost coordinate advances
    fastest. *)
Fixpoint product_repeat {A} (r : list A) (n : nat) : list (list A) :=
  match n with
  | O => [[]]
  | S n' => a ← r; (a ::.) <$> product_repeat r n'
  end.

(** [itertools.product(xs, ys)]. *)
Definition product {A B} (xs : list A) (ys : list B) : list (A * B) :=
  a ← xs; (λ b, (a, b)) <$> ys.

(** [zip], which stops at the shorter argument. *)
Definition zip {A B} (xs : list A) (ys : list B) : list (A * B) :=
  zip_with pair xs ys.

(** [enumerate(l)] and [range(len(l))]: these indices are never negative. *)
Definition enumerate {A} (l : list A) : list (nat * A) := imap pair l.

Definition range_len (n : nat) : list nat := seq 0 n.

(** [reduce(f, l)] without an initial value: a left fold seeded with the
    first element, a [TypeError] on the empty sequence. *)
Definition reduce {A} (f : A → A → A) (l : list A) : result A :=
  match l with
  | [] => raise (TypeError
            [Text "reduce() of empty sequence with no initial value"])
  | x :: l' => ret (foldl f x l')
  end.

(** [l[i]] on a list, for an index that is not negative. *)
Definition getitem {A} (l : list A) (i : nat) : result A :=
  match l !! i with
  | Some x => ret x
  | None => raise (IndexError [Text "list index out of range"])
  end.

(** [l[i]] for any integer: a negative index counts from the end. *)
Definition getitem_int {A} (l : list A) (i : Z) : result A :=
  let i' := if decide (i < 0) then i + Z.of_nat (length l) else i in
  if decide (i' < 0) then raise (IndexError [Text "list index out of range"])
  else getitem l (Z.to_nat i').

(** [l.index(x)]: the position of the first element equal to [x], a
    [ValueError] that shows [repr(x)] when there is none. *)
Definition index {A} `{EqDecision A} (repr : A → string) (l : list A) (x : A)
  : result nat :=
  match list_find (λ y, y = x) l with
  | Some (i, _) => ret i
  | None => raise (ValueError [Text (repr x); Text " is not in list"])
  end.

(** [range(a, b)]. *)
Definition range_from (a b : Z) : list Z :=
  (λ k, a + Z.of_nat k) <$> seq 0 (Z.to_nat (b - a)).

(** A [for] loop over [l] whose body updates the variables [s] and may
    raise. *)
Fixpoint for_each {S A} (body : S → A → result S) (s : S) (l : list A)
  : result S :=
  match l with
  | [] => ret s
  | x :: l' => s' ← body s x; for_each body s' l'
  end.

(** [sorted(l, cmp)]: the sort is stable and asks the comparison function
    only whether one element is less than another, [cmp y x < 0].  An
    element is therefore placed behind exactly those later elements that
    are strictly smaller. *)
Fixpoint insert_cmp {A} (cmp : A → A → Z) (x : A) (l : list A) : list A :=
  match l with
  | [] => [x]
  | y :: l' => if cmp y x <? 0 then y :: insert_cmp cmp x l' else x :: l
  end.

Definition sorted {A} (l : list A) (cmp : A → A → Z) : list A :=
  foldr (insert_cmp cmp) [] l.

(** [str(n)] for an integer. *)
Definition str (n : Z) : string := pretty n.

(** [sep.join(l)]. *)
Definition join (sep : string) (l : list string) : string :=
  String.concat sep l.

(** The double quote and the newline, as strings of one character. *)
Definition dquote : string := String (ascii_of_nat 34) EmptyString.
Definition newline : string := String (ascii_of_nat 10) EmptyString.

(** [c in s] for a character [c]. *)
Fixpoint contains (c : ascii) (s : string) : bool :=
  match s with
  | EmptyString => false
  | String c' s' => if decide (c = c') then true else contains c s'
  end.

(** The characters [str.rstrip()] and [str.split()] take for blanks. *)
Definition is_whitespace (c : ascii) : bool :=
  bool_decide (c ∈ [" "; "009"; "010"; "011"; "012"; "013"]%char).

(** [s.rstrip()]. *)
Fixpoint rstrip (s : string) : string :=
  match s with
  | EmptyString => EmptyString
  | String c s' =>
      match rstrip s' with
      | EmptyString => if is_whitespace c then EmptyString
                       else String c EmptyString
      | r => String c r
      end
  end.

(** [s.split("\n")]. *)
Fixpoint split_newline_go (cur : string) (s : string) : list string :=
  match s with
  | EmptyString => [String.rev cur]
  | String c s' =>
      if decide (c = "010"%char) then String.rev cur :: split_newline_go EmptyString s'
      else split_newline_go (String c cur) s'
  end.

Definition split_newline (s : string) : list string := split_newline_go EmptyString s.

(** [f.readlines()] on a file with the content [s]: every line keeps its
    newline, and a last line without one is a line as well. *)
Fixpoint readlines_go (cur : string) (s : string) : list string :=
  match s with
  | EmptyString =>
      match cur with
      | EmptyString => []
      | _ => [String.rev cur]
      end
  | String c s' =>
      if decide (c = "010"%char) then
        String.rev (String c cur) :: readlines_go EmptyString s'
      else readlines_go (String c cur) s'
  end.

Definition readlines (s : string) : list string := readlines_go EmptyString s.

(** [s.lstrip(chars)] and [s.rstrip(chars)] for the characters that
    satisfy [p]. *)
Fixpoint lstrip_of (p : ascii → bool) (s : string) : string :=
  match s with
  | EmptyString => EmptyString
  | String c s' => if p c then lstrip_of p s' else s
  end.

Fixpoint rstrip_of (p : ascii → bool) (s : string) : string :=
  match s with
  | EmptyString => EmptyString
  | String c s' =>
      match rstrip_of p s' with
      | EmptyString => if p c then EmptyString else String c EmptyString
      | r => String c r
      end
  end.

(** [s.strip()] and [s.strip(chars)]. *)
Definition strip (s : string) : string := lstrip_of is_whitespace (rstrip s).

Definition strip_chars (chars : list ascii) (s : string) : string :=
  lstrip_of (λ c, bool_decide (c ∈ chars))
    (rstrip_of (λ c, bool_decide (c ∈ chars)) s).

(** [s.startswith(prefix)]. *)
Fixpoint startswith (s prefix : string) : bool :=
  match prefix with
  | EmptyString => true
  | String a prefix' =>
      match s with
      | EmptyString => false
      | String b s' => if decide (a = b) then startswith s' prefix' else false
      end
  end.

(** The [%] operator on a format string and a tuple of integers.  After a
    [%] come flags, then a width and a precision, then a length modifier,
    then the conversion type; [%%] is a percent sign.  Each conversion
    other than [%%] takes the next argument.  Widths and precisions given
    as [*] are not covered. *)
Inductive format_state :=
| InText
| InFlags (blank : bool)
| InSpec (blank : bool).

Definition is_flag (c : ascii) : bool :=
  bool_decide (c ∈ ["#"; "0"; "-"; " "; "+"]%char).
Definition is_width (c : ascii) : bool :=
  bool_decide (c ∈ ["0"; "1"; "2"; "3"; "4"; "5"; "6"; "7"; "8"; "9"; "."]%char).
Definition is_length_modifier (c : ascii) : bool :=
  bool_decide (c ∈ ["h"; "l"; "L"]%char).
Definition is_conversion (c : ascii) : bool :=
  bool_decide (c ∈ ["d"; "i"; "o"; "u"; "x"; "X"; "e"; "E"; "f"; "F";
                    "g"; "G"; "c"; "r"; "s"]%char).

Definition add_text (c : ascii) (acc : message) : message :=
  match acc with
  | Text s :: acc' => Text (String c s) :: acc'
  | _ => Text (String c EmptyString) :: acc
  end.

Definition finish_message (acc : message) : message :=
  reverse ((λ f, match f with
                 | Text s => Text (String.rev s)
                 | Conv _ _ _ => f
                 end) <$> acc).

Fixpoint format_go (st : format_state) (fmt : string) (args : list Z)
    (acc : message) : result message :=
  match fmt with
  | EmptyString =>
      match st, args with
      | InText, [] => ret (finish_message acc)
      | InText, _ :: _ => raise (TypeError
          [Text "not all arguments converted during string formatting"])
      | _, _ => raise (ValueError [Text "incomplete format"])
      end
  | String c fmt' =>
      let conversion (blank : bool) :=
        if decide (c = "%"%char) then format_go InText fmt' args (add_text c acc)
        else if is_conversion c then
          match args with
          | a :: args' => format_go InText fmt' args' (Conv c blank a :: acc)
          | [] => raise (TypeError
                    [Text "not enough arguments for format string"])
          end
        else raise (ValueError [Text "unsupported format character"]) in
      match st with
      | InText =>
          if decide (c = "%"%char) then format_go (InFlags false) fmt' args acc
          else format_go InText fmt' args (add_text c acc)
      | InFlags blank =>
          if is_flag c then
            format_go (InFlags (blank || bool_decide (c = " "%char)))
              fmt' args acc
          else if is_width c || is_length_modifier c then
            format_go (InSpec blank) fmt' args acc
          else conversion blank
      | InSpec blank =>
          if is_width c || is_length_modifier c then
            format_go (InSpec blank) fmt' args acc
          else conversion blank
      end
  end.

Definition format (fmt : string) (args : list Z) : result message :=
  format_go InText fmt args [].

End Py.

Arguments Py.sum : simpl never.

(** ** The symbolic engine

    The operations of sympy the package calls.  Python integers that meet
    a sympy expression in an arithmetic operation are first turned into
    sympy integers, [sp_Integer]. *)

(** [sp_S] reads the name of a symbol that the package has put together
    itself; [sp_sympify] reads a string from a file and may fail. *)
Class Sympy (E : Type) := {
  sp_Integer : Z → E;
  sp_S : string → E;
  sp_sympify : string → option E;
  sp_add : E → E → E;
  sp_sub : E → E → E;
  sp_mul : E → E → E;
  sp_div : E → E → E;
  sp_pow : E → E → E;
  sp_factorial : E → E;
  sp_diff : E → E → E;
  sp_solve : E → E → list E;
  sp_Subs_doit : E → E → list E → E;
  sp_simplify : E → E;
}.

(** The freely generated engine: every operation builds a term and no
    rewriting takes place.  It records which operations were applied, in
    which order. *)
Inductive term :=
| TInteger (z : Z)
| TS (s : string)
| TAdd (a b : term)
| TSub (a b : term)
| TMul (a b : term)
| TDiv (a b : term)
| TPow (a b : term)
| TFactorial (a : term)
| TDiff (a x : term)
| TSolution (eq x : term)
| TSubs (a x : term) (point : list term)
| TSimplify (a : term).

#[global] Instance term_engine : Sympy term := {|
  sp_Integer := TInteger;
  sp_S := TS;
  sp_sympify := λ s, Some (TS s);
  sp_add := TAdd;
  sp_sub := TSub;
  sp_mul := TMul;
  sp_div := TDiv;
  sp_pow := TPow;
  sp_factorial := TFactorial;
  sp_diff := TDiff;
  sp_solve := λ eq x, [TSolution eq x];
  sp_Subs_doit := TSubs;
  sp_simplify := TSimplify;
|}.

(** ** Moments and counters *)

(** Modelled from the spec: the class [Moment] of
    means.approximation.ode_problem is not part of the sources at hand.
    A moment is a pair of a multi-index, one integer per species, and the
    symbol that stands for it. *)
Record Moment (E : Type) := mkMoment {
  n_vector : list Z;
  symbol : E;
}.
Arguments mkMoment {E} _ _.
Arguments n_vector {E} _.
Arguments symbol {E} _.

(** Modelled from the spec: the attribute [order] of that class; the
    order of a moment is the sum of its multi-index. *)
Definition order {E} (m : Moment E) : Z := Py.sum (n_vector m).

Section Counters.
Context {E : Type} `{Sympy E}.

(** The rows [[1,0,0]], [[0,1,0]], ... built by the loop over
    [range(len(species))]: [row = [0]*len(species); row[i] = 1]. *)
Definition descriptors (n : nat) : list (list Z) :=
  (λ i, <[i := 1]> (replicate n 0)) <$> seq 0 n.

Definition k_counter_descriptors (n_moments : Z) (n : nat) : list (list Z) :=
  Py.sorted
    (filter (λ i, Py.sum i ≤ n_moments ∧ Py.sum i > 1)
       (Py.product_repeat (Py.range (n_moments + 1)) n))
    (λ x y, Py.sum x - Py.sum y).

Definition k_counter_symbols (ds : list (list Z)) : list E :=
  (λ count, sp_S ("x_" +:+ Py.join "_" (Py.str <$> count))) <$> ds.

Definition n_counter_descriptors (n_moments : Z) (n : nat) : list (list Z) :=
  filter (λ m, Py.sum m > 1) (k_counter_descriptors n_moments n).

Definition n_counter_symbols (ds : list (list Z)) : list E :=
  (λ i, sp_S ("yx" +:+ Py.str (i + 2))) <$> Py.range (Z.of_nat (length ds)).

Definition moments_of (ds : list (list Z)) (ss : list E) : list (Moment E) :=
  (λ p, mkMoment p.1 p.2) <$> Py.zip ds ss.

(** [generate_n_and_k_counters(n_moments, species)], which returns the
    pair [(n_counter, k_counter)]. *)
Definition generate_n_and_k_counters (n_moments : Z) (species : list E)
  : Py.result (list (Moment E) * list (Moment E)) :=
  let k_counter := [mkMoment (replicate (length species) 0) (sp_Integer 1)] in
  let n_counter := [mkMoment (replicate (length species) 0) (sp_Integer 1)] in
  let k_counter := k_counter ++ moments_of (descriptors (length species)) species in
  let kds := k_counter_descriptors n_moments (length species) in
  let k_counter := k_counter ++ moments_of kds (k_counter_symbols kds) in
  let nds := n_counter_descriptors n_moments (length species) in
  let n_counter := n_counter ++ moments_of nds (n_counter_symbols nds) in
  mret (n_counter, k_counter).

End Counters.

(** ** Matrices

    A dense sympy matrix: its dimensions and its entries row by row.  A
    column vector that the package only iterates over (the propensities,
    the species) is taken as the list of its entries. *)

Record Matrix (E : Type) := mkMatrix {
  rows : nat;
  cols : nat;
  mat : list E;
}.
Arguments mkMatrix {E} _ _ _.
Arguments rows {E} _.
Arguments cols {E} _.
Arguments mat {E} _.

Definition wf_Matrix {E} (m : Matrix E) : Prop :=
  length (mat m) = (rows m * cols m)%nat.

Section MatrixOps.
Context {E : Type} `{Sympy E}.

(** [sp.Matrix(r, c, l)]. *)
Definition Matrix_new (r c : nat) (l : list E) : Py.result (Matrix E) :=
  if decide (length l = (r * c)%nat) then mret (mkMatrix r c l)
  else Py.raise (Py.ValueError
         [Py.Text "List length should be equal to rows*columns"]).

(** [sp.Matrix(ms)] for a list of matrices: the matrices are stacked on
    top of each other; those that are not 0x0 must agree on their
    width. *)
Definition Matrix_stack (ms : list (Matrix E)) : Py.result (Matrix E) :=
  match remove_dups
          (cols <$> filter (λ m, cols m ≠ 0%nat ∨ rows m ≠ 0%nat) ms) with
  | [] => mret (mkMatrix 0 0 [])
  | [c] =>
      if decide (c = 0%nat) then mret (mkMatrix 0 0 [])
      else mret (mkMatrix (sum_list (rows <$> ms)) c (concat (mat <$> ms)))
  | _ => Py.raise (Py.ValueError [Py.Text "Got rows of variable lengths"])
  end.

(** [m.reshape(r, c)]. *)
Definition reshape (m : Matrix E) (r c : nat) : Py.result (Matrix E) :=
  if decide (length (mat m) = (r * c)%nat) then mret (mkMatrix r c (mat m))
  else Py.raise (Py.ValueError [Py.Text "Invalid reshape parameters"]).

(** [m[i, j]] for indices that are not negative. *)
Definition Matrix_get (m : Matrix E) (i j : nat) : Py.result E :=
  if decide (i < rows m ∧ j < cols m)%nat then
    match mat m !! (i * cols m + j)%nat with
    | Some x => mret x
    | None => Py.raise (Py.IndexError [Py.Text "Index out of range"])
    end
  else Py.raise (Py.IndexError [Py.Text "Index out of range"]).

(** The entries of [m[:, j]], top to bottom. *)
Definition Matrix_col (m : Matrix E) (j : nat) : list E :=
  omap (λ i, mat m !! (i * cols m + j)%nat) (seq 0 (rows m)).

(** [m * s] for a scalar [s]. *)
Definition Matrix_scale (m : Matrix E) (s : E) : Matrix E :=
  mkMatrix (rows m) (cols m) ((λ x, sp_mul x s) <$> mat m).

End MatrixOps.

(** ** Mixed moments (eq_mixedmoments.py) *)

Section MixedMoments.
Context {E : Type} `{Sympy E}.

(** Modelled from the spec: [derive_expr_from_counter_entry] of
    TaylorExpansion.py is not part of the sources at hand.  It is the
    mixed partial derivative of the expression with respect to the
    species variables according to the counter entry: the entry for a
    species says how often to differentiate with respect to it. *)
Definition derive_expr_from_counter_entry
    (expr : E) (variables : list E) (c : Moment E) : E :=
  foldl (λ d '(var, n), Nat.iter (Z.to_nat n) (λ d', sp_diff d' var) d)
    expr (Py.zip variables (n_vector c)).

(** Modelled from the spec: [get_factorial_term] of TaylorExpansion.py is
    not part of the sources at hand.  It is the Taylor coefficient of the
    counter entry, one over the product of the factorials of its
    entries; the caller multiplies the derivative by it. *)
Definition get_factorial_term (c : Moment E) : E :=
  sp_div (sp_Integer 1)
    (foldl sp_mul (sp_Integer 1)
       ((λ n, sp_factorial (sp_Integer n)) <$> n_vector c)).

Definition make_f_of_x (variables : list E) (k_vec e_vec : list Z)
    (reaction : E) : Py.result E :=
  all_xs ← Py.traverse
    (λ '(i, var),
       k ← Py.getitem k_vec i;
       e ← Py.getitem e_vec i;
       mret (sp_pow var (sp_Integer (k - e))))
    (Py.enumerate variables);
  product ← Py.reduce sp_mul all_xs;
  mret (sp_mul product reaction).

Definition make_f_expectation (variables : list E) (expr : E)
    (counter : list (Moment E)) : Py.result (Matrix E) :=
  let derives :=
    (λ c, derive_expr_from_counter_entry expr variables c) <$> counter in
  let factorial_terms := get_factorial_term <$> counter in
  Matrix_new (length counter) 1
    ((λ '(d, f), sp_mul d f) <$> Py.zip derives factorial_terms).

Definition make_k_chose_e (e_vec k_vec : list Z) : Py.result E :=
  let factorials :=
    (λ '(e, k),
       sp_div (sp_factorial (sp_Integer k))
         (sp_mul (sp_factorial (sp_Integer e))
            (sp_factorial (sp_Integer (k - e)))))
    <$> Py.zip e_vec k_vec in
  Py.reduce sp_mul factorials.

Definition make_s_pow_e (S : Matrix E) (reac_idx : nat) (e_vec : list Z)
  : Py.result E :=
  vec ← Py.traverse
    (λ '(i, e), s ← Matrix_get S i reac_idx; mret (sp_pow s (sp_Integer e)))
    (Py.enumerate e_vec);
  Py.reduce sp_mul vec.

Definition eq_mixedmoments (amat : list E) (counter : list (Moment E))
    (S : Matrix E) (ymat : list E) (kvec : list Z)
    (ekcounter : list (list Z)) : Py.result (Matrix E) :=
  f_of_x_vec ← Py.traverse
    (λ '(reac, c), make_f_of_x ymat kvec c reac)
    (Py.product amat ekcounter);
  f_expectation_vec ← Py.traverse
    (λ f, make_f_expectation ymat f counter) f_of_x_vec;
  s_pow_e_vec ← Py.traverse
    (λ '(reac_idx, c), make_s_pow_e S reac_idx c)
    (Py.product (Py.range_len (length amat)) ekcounter);
  k_choose_e_vec ←
    (kes ← Py.traverse (λ e, make_k_chose_e e kvec) ekcounter;
     mret (Py.repeat_list kes (length amat)));
  let product :=
    (λ '(f, s, ke), Matrix_scale (Matrix_scale f s) ke)
    <$> Py.zip (Py.zip f_expectation_vec s_pow_e_vec) k_choose_e_vec in
  to_sum ←
    (stacked ← Matrix_stack product;
     first ← Py.getitem product 0;
     reshape stacked (length product) (rows first * cols first));
  summed ← Py.traverse
    (λ i, Py.reduce sp_add (Matrix_col to_sum i))
    (Py.range_len (cols to_sum));
  Matrix_new 1 (length summed) summed.

(** The factors as the specification writes them. *)

(** The product of the entries of a list, 1 for the empty list. *)
Definition big_mul (l : list E) : E :=
  match l with
  | [] => sp_Integer 1
  | x :: l' => foldl sp_mul x l'
  end.

(** The sum of the entries of a list, 0 for the empty list. *)
Definition big_add (l : list E) : E :=
  match l with
  | [] => sp_Integer 0
  | x :: l' => foldl sp_add x l'
  end.

(** [prod_i x_i^(k_i - e_i)] times the propensity. *)
Definition shifted_propensity (variables : list E) (k_vec e_vec : list Z)
    (reaction : E) : E :=
  sp_mul
    (big_mul (zip_with (λ var '(k, e), sp_pow var (sp_Integer (k - e)))
                variables (Py.zip k_vec e_vec)))
    reaction.

(** [prod_i S[i, r]^(e_i)]. *)
Definition stoichiometry_power (S : Matrix E) (r : nat) (e_vec : list Z) : E :=
  big_mul (zip_with (λ s e, sp_pow s (sp_Integer e)) (Matrix_col S r) e_vec).

(** [prod_i k_i! / (e_i! (k_i - e_i)!)]. *)
Definition binomial_term (k_vec e_vec : list Z) : E :=
  big_mul (zip_with
    (λ k e, sp_div (sp_factorial (sp_Integer k))
              (sp_mul (sp_factorial (sp_Integer e))
                 (sp_factorial (sp_Integer (k - e)))))
    k_vec e_vec).

(** The mixed partial derivative of [expr] according to [c], divided by
    the product of the factorials of the entries of [c]. *)
Definition taylor_term (variables : list E) (expr : E) (c : Moment E) : E :=
  sp_mul (derive_expr_from_counter_entry expr variables c)
    (get_factorial_term c).

(** All pairs of a reaction and an e-vector, reactions outermost, each
    reaction with its index. *)
Definition reaction_e_pairs {R} (reactions : list (nat * R))
    (ekcounter : list (list Z)) : list (nat * R * list Z) :=
  ra ← reactions; (λ e, (ra, e)) <$> ekcounter.

(** The product of the three factors for one pair. *)
Definition mixed_moment_term (S : Matrix E) (ymat : list E) (kvec : list Z)
    (c : Moment E) (t : nat * E * list Z) : E :=
  sp_mul
    (sp_mul (taylor_term ymat (shifted_propensity ymat kvec t.2 t.1.2) c)
       (stoichiometry_power S t.1.1 t.2))
    (binomial_term kvec t.2).

(** The entry of the mixed-moment vector for the counter entry [c]: the
    sum, over the reactions and the e-vectors, of the product of the
    three factors. *)
Definition mixed_moment_entry (amat : list E) (S : Matrix E) (ymat : list E)
    (kvec : list Z) (ekcounter : list (list Z)) (c : Moment E) : E :=
  big_add (mixed_moment_term S ymat kvec c
           <$> reaction_e_pairs (Py.enumerate amat) ekcounter).

End MixedMoments.

(** ** Raw elimination (MomentExpansionApproximation.substitute_raw_with_central) *)

Section Substitution.
Context {E : Type} `{Sympy E}.

(** [m.applyfunc(f)]. *)
Definition applyfunc (f : E → E) (m : Matrix E) : Matrix E :=
  mkMatrix (rows m) (cols m) (f <$> mat m).

Definition substitute_raw_with_central (central_moments_exprs : Matrix E)
    (central_from_raw_exprs : list E) (n_counter k_counter : list (Moment E))
  : Matrix E :=
  let raw_lhs := symbol <$> filter (λ raw, order raw > 1) k_counter in
  let central_symbols :=
    symbol <$> filter (λ central, order central > 1) n_counter in
  let eq_to_solve :=
    (λ '(cs, cfr), sp_sub cfr cs)
    <$> Py.zip central_symbols central_from_raw_exprs in
  let solved_xs :=
    (λ '(rhs, rlhs), sp_solve rhs rlhs) <$> Py.zip eq_to_solve raw_lhs in
  let out_exprs := central_moments_exprs in
  let out_exprs :=
    foldl (λ out_exprs '(rlhs, sx),
             applyfunc (λ x, sp_Subs_doit x rlhs sx) out_exprs)
      out_exprs (reverse (Py.zip raw_lhs solved_xs)) in
  let out_exprs := applyfunc sp_simplify out_exprs in
  out_exprs.

(** The elimination as the specification words it.  One step solves
    [central symbol - central-from-raw expression = 0] for the raw symbol
    and substitutes the solution. *)
Definition eliminate_raw (out_exprs : Matrix E)
    (step : Moment E * Moment E * E) : Matrix E :=
  let '(raw, central, cfr) := step in
  applyfunc
    (λ x, sp_Subs_doit x (symbol raw)
            (sp_solve (sp_sub cfr (symbol central)) (symbol raw)))
    out_exprs.

(** The raw moments of order above one, each with the central moment and
    the expression at the same position. *)
Definition elimination_steps (central_from_raw_exprs : list E)
    (n_counter k_counter : list (Moment E)) : list (Moment E * Moment E * E) :=
  Py.zip
    (Py.zip (filter (λ raw, order raw > 1) k_counter)
       (filter (λ central, order central > 1) n_counter))
    central_from_raw_exprs.

(** Last step first, one simplification at the very end. *)
Definition eliminate_then_simplify (central_moments_exprs : Matrix E)
    (steps : list (Moment E * Moment E * E)) : Matrix E :=
  applyfunc sp_simplify (foldl eliminate_raw central_moments_exprs (reverse steps)).

(** Last step first, a simplification after every step. *)
Definition eliminate_simplifying_each (central_moments_exprs : Matrix E)
    (steps : list (Moment E * Moment E * E)) : Matrix E :=
  foldl (λ out step, applyfunc sp_simplify (eliminate_raw out step))
    central_moments_exprs (reverse steps).

End Substitution.

(** ** Construction of the approximation (MomentExpansionApproximation.__init__) *)

Inductive CloserClass := LogNormalCloser | ZeroCloser | NormalCloser.

Definition supported_closers : gmap string CloserClass :=
  {[ "log-normal" := LogNormalCloser;
     "zero" := ZeroCloser;
     "normal" := NormalCloser ]}.

Section Construction.
(** The model, the arguments handed on to the closer, the closer objects
    and their constructors belong to modules that are not part of the
    sources at hand; so does everything [run] calls. *)
Context {Model CloserArgs Closer Problem : Type}.
Context (new_closer : CloserClass → Z → CloserArgs → Py.result Closer).
(** [str(supported_closers)], which depends on the interpreter. *)
Context (repr_supported_closers : string).

Record MomentExpansionApproximation := mkMEA {
  mea_model : Model;
  mea_n_moments : Z;
  mea_closer : Closer;
}.

Definition MomentExpansionApproximation_init (model : Model) (n_moments : Z)
    (closer : string) (closer_args : CloserArgs)
  : Py.result MomentExpansionApproximation :=
  match supported_closers !! closer with
  | None =>
      Py.raise (Py.KeyError
        [Py.Text "The closer type '"; Py.Text closer;
         Py.Text "' is not supported."; Py.Text Py.newline;
         Py.Text " Supported values for closer:"; Py.Text Py.newline;
         Py.Text repr_supported_closers])
  | Some CloserClass =>
      closer ← new_closer CloserClass n_moments closer_args;
      mret (mkMEA model n_moments closer)
  end.

(** Constructing the approximation and then running it. *)
Definition approximate
    (run : MomentExpansionApproximation → Py.result Problem)
    (model : Model) (n_moments : Z) (closer : string)
    (closer_args : CloserArgs) : Py.result Problem :=
  mea ← MomentExpansionApproximation_init model n_moments closer closer_args;
  run mea.

End Construction.

(** ** ODE problems (ode_problem.py) *)

Record ODEProblem (E : Type) := mkODEProblem {
  left_hand_side : Matrix E;
  right_hand_side : Matrix E;
  constants : list E;
  moment_dic : gmap (list Z) nat;
}.
Arguments mkODEProblem {E} _ _ _ _.
Arguments left_hand_side {E} _.
Arguments right_hand_side {E} _.
Arguments constants {E} _.
Arguments moment_dic {E} _.

Definition make_moment_dic (moments : list (list Z)) : gmap (list Z) nat :=
  foldl (λ dic_out '(i, m), <[m := i]> dic_out) ∅ (Py.enumerate moments).

Definition validate {E} (self : ODEProblem E) : Py.result unit :=
  if decide (rows (left_hand_side self) ≠ rows (right_hand_side self)) then
    msg ← Py.format
      "There is i% left hand side equations and %i right hand side ones. The same number is expected."
      [Z.of_nat (rows (left_hand_side self));
       Z.of_nat (rows (right_hand_side self))];
    Py.raise (Py.ValueError msg)
  else if decide (rows (left_hand_side self) ≠ size (moment_dic self)) then
    msg ← Py.format
      "There is i% equations and %i hand side and %i moments. The same number is expected."
      [Z.of_nat (rows (left_hand_side self));
       Z.of_nat (size (moment_dic self))];
    Py.raise (Py.ValueError msg)
  else mret ().

(** [ODEProblem(left_hand_side, right_hand_side, constants, moments)];
    [constants[:]] is the list of the entries of the matrix. *)
Definition ODEProblem_init {E} (left_hand_side right_hand_side : Matrix E)
    (constants : Matrix E) (moments : list (list Z))
  : Py.result (ODEProblem E) :=
  let self := mkODEProblem left_hand_side right_hand_side (mat constants)
                (make_moment_dic moments) in
  _ ← validate self;
  mret self.

(** ** Reading a problem back (ode_problem.parse_model) *)

Definition STRING_RIGHT_HAND : string := "RHS of equations:".
Definition STRING_LEFT_HAND : string := "LHS:".
Definition STRING_CONSTANT : string := "Constants:".
Definition STRING_MOM : string := "List of moments:".

(** The loop that cuts the file into chunks; its state is [all_fields]
    and [field]. *)
Definition parse_step (st : gmap string (list string) * option string)
    (line : string) : gmap string (list string) * option string :=
  let '(all_fields, field) := st in
  if Py.contains ":" line then
    let field := Py.rstrip line in
    (<[field := []]> all_fields, Some field)
  else
    match field with
    | Some f =>
        if decide (f ≠ EmptyString) then
          let rsline := Py.rstrip line in
          if decide (rsline ≠ EmptyString) then
            (alter (λ l, l ++ [rsline]) f all_fields, field)
          else st
        else st
    | None => st
    end.

Definition parse_fields (lines : list string) : gmap string (list string) :=
  (foldl parse_step (∅, None) lines).1.

Section ParseModel.
Context {E : Type} `{Sympy E}.
(** [tuple(eval(l))] on a line of the list of moments. *)
Context (eval_tuple : string → Py.result (list Z)).

(** [sympy.Matrix(l)] for a list of expressions: a column, and the 0x0
    matrix for the empty list. *)
Definition Matrix_of_list (l : list E) : Matrix E :=
  match l with
  | [] => mkMatrix 0 0 []
  | _ => mkMatrix (length l) 1 l
  end.

(** Turning a string into an expression, which raises on a string that is
    not one. *)
Definition sympify (l : string) : Py.result E :=
  match sp_sympify l with
  | Some e => mret e
  | None => Py.raise (Py.SympifyError [Py.Text l])
  end.

Definition missing_field (name input_filename : string) : string :=
  "The field " +:+ Py.dquote +:+ name +:+ Py.dquote
  +:+ " is not in the input file " +:+ Py.dquote +:+ input_filename
  +:+ Py.dquote.

(** The body of [parse_model] once the lines are at hand.  The first
    component of the result is what was printed. *)
Definition parse_lines (input_filename : string) (lines : list string)
  : list string * Py.result (ODEProblem E) :=
  let all_fields := parse_fields lines in
  match all_fields !! STRING_RIGHT_HAND with
  | None => ([missing_field STRING_RIGHT_HAND input_filename],
             Py.raise (Py.KeyError [Py.Text STRING_RIGHT_HAND]))
  | Some rhs_lines =>
  match Py.traverse (λ l, e ← sympify l; mret (sp_simplify e)) rhs_lines with
  | inl e => ([], inl e)
  | inr rhs =>
  let right_hand_side := Matrix_of_list rhs in
  match all_fields !! STRING_LEFT_HAND with
  | None => ([missing_field STRING_LEFT_HAND input_filename],
             Py.raise (Py.KeyError [Py.Text STRING_LEFT_HAND]))
  | Some lhs_lines =>
  match Py.traverse sympify lhs_lines with
  | inl e => ([], inl e)
  | inr lhs =>
  let left_hand_side := Matrix_of_list lhs in
  match all_fields !! STRING_CONSTANT with
  | None => ([missing_field STRING_CONSTANT input_filename],
             Py.raise (Py.KeyError [Py.Text STRING_CONSTANT]))
  | Some constant_lines =>
  match Py.traverse sympify constant_lines with
  | inl e => ([], inl e)
  | inr cs =>
  let constants := Matrix_of_list cs in
  match all_fields !! STRING_MOM with
  | None => ([missing_field STRING_CONSTANT input_filename],
             Py.raise (Py.KeyError [Py.Text STRING_MOM]))
  | Some moment_lines =>
  match Py.traverse eval_tuple moment_lines with
  | inl e => ([], inl e)
  | inr moments =>
      ([], ODEProblem_init left_hand_side right_hand_side constants moments)
  end end end end end end end end.

(** [parse_model(input_filename, from_string)]; [readlines] is what the
    file system gives for the file of that name. *)
Definition parse_model (readlines : string → list string)
    (input_filename : string) (from_string : bool)
  : list string * Py.result (ODEProblem E) :=
  let lines :=
    if from_string then Py.split_newline input_filename
    else readlines input_filename in
  parse_lines input_filename lines.

End ParseModel.

(** The binomial coefficient, by Pascal's rule. *)
Fixpoint choose (n k : nat) : nat :=
  match n, k with
  | _, O => 1%nat
  | O, S _ => 0%nat
  | S n', S k' => (choose n' k' + choose n' k)%nat
  end.

(** Vectors of equal order are compared position by position. *)
Fixpoint lex_lt (x y : list Z) : Prop :=
  match x, y with
  | [], [] => False
  | [], _ :: _ => True
  | _ :: _, [] => False
  | a :: x', b :: y' => a < b ∨ (a = b ∧ lex_lt x' y')
  end.

(** Comparing by a key, as a comparison function for [sorted], and the
    order that sorts by the key and keeps a given order among equal
    keys. *)
Definition by_key {A} (key : A → Z) (x y : A) : Z := key x - key y.
Definition key_then {A} (key : A → Z) (T : relation A) (x y : A) : Prop :=
  key x < key y ∨ (key x = key y ∧ T x y).

(** The order of the entries of a counter beyond the means: by ascending
    order of the moment, and among equal orders by [lex_lt]. *)
Definition counter_lt (x y : list Z) : Prop :=
  Py.sum x < Py.sum y ∨ (Py.sum x = Py.sum y ∧ lex_lt x y).

(** ** Auxiliary notions for the statements *)

(** The number of vectors of [n] integers in [0..N] whose sum is at most
    [M]. *)
Definition count_upto (N : Z) (n : nat) (M : Z) : nat :=
  length (filter (λ v, Py.sum v ≤ M) (Py.product_repeat (Py.range (N + 1)) n)).

Section SpelledOut.
Context {E : Type} `{Sympy E}.
Implicit Types (species : list E).

(** The two counters, spelled out. *)
Definition unit_moment species : Moment E :=
  mkMoment (replicate (length species) 0) (sp_Integer 1).

Definition raw_counter (N : Z) species : list (Moment E) :=
  unit_moment species
  :: moments_of (descriptors (length species)) species
  ++ moments_of (k_counter_descriptors N (length species))
       (k_counter_symbols (k_counter_descriptors N (length species))).

Definition central_counter (N : Z) species : list (Moment E) :=
  unit_moment species
  :: moments_of (k_counter_descriptors N (length species))
       (n_counter_symbols (k_counter_descriptors N (length species))).

End SpelledOut.

(** ** Sample inputs *)

(** A file with the left-hand side, the right-hand side and the
    constants, a blank line among the entries, and no list of moments. *)
Definition lines_without_moments : list string :=
  (λ l, l +:+ Py.newline)
  <$> ["LHS:"; "y_0"; EmptyString; "RHS of equations:"; "-c_0*y_0"; "Constants:";
       "c_0"].

(** One species, truncation order three: the counters, the expressions
    for the central moments and the right-hand sides to rewrite. *)
Definition central_counter_1_3 : list (Moment term) :=
  [mkMoment [0] (TInteger 1); mkMoment [2] (TS "yx2");
   mkMoment [3] (TS "yx3")].
Definition raw_counter_1_3 : list (Moment term) :=
  [mkMoment [0] (TInteger 1); mkMoment [1] (TS "y_0");
   mkMoment [2] (TS "x_2"); mkMoment [3] (TS "x_3")].
Definition central_from_raw_1_3 : list term :=
  [TS "x_2 - y_0**2"; TS "x_3 - 3*x_2*y_0 + 2*y_0**3"].
Definition central_moments_1_3 : Matrix term :=
  mkMatrix 2 1 [TS "dyx2"; TS "dyx3"].

(** The dimerisation model: one species, two reactions. *)
Definition dimerisation_species : list term := [TS "y_0"].
Definition dimerisation_propensities : list term :=
  [TS "c_0*y_0*(y_0-1)"; TS "c_1*((1.0/2)*(c_2-y_0))"].
Definition dimerisation_stoichiometry : Matrix term :=
  mkMatrix 1 2 [TInteger (-2); TInteger 2].
Definition dimerisation_counter : list (Moment term) :=
  [mkMoment [0] (TInteger 1); mkMoment [2] (TS "yx2")].

(** The two errors of the list primitives, by name. *)
(** ** Reading the output of the expansion (simulate.parse_expansion_output) *)

Definition LHS_LINE : string := "LHS:" +:+ Py.newline.
Definition CONSTANTS_LINE : string := "Constants:" +:+ Py.newline.
Definition MOMENTS_LINE : string := "List of moments:" +:+ Py.newline.

(** The body of the loop that collects the left-hand sides; its variables
    are [lhs] and [number_of_species]. *)
Definition collect_lhs (lines : list string) (st : list string * Z) (i : Z)
  : Py.result (list string * Z) :=
  let '(lhs, number_of_species) := st in
  line ← Py.getitem_int lines i;
  let lhs := lhs ++ [Py.strip line] in
  line ← Py.getitem_int lines i;
  if Py.startswith line "y_" then mret (lhs, number_of_species + 1)
  else mret (lhs, number_of_species).

(** The body of the loop that collects the moments. *)
Definition collect_moments (lines : list string) (moment_list : list string)
    (i : Z) : Py.result (list string) :=
  line ← Py.getitem_int lines i;
  if Py.startswith line "[" then
    line ← Py.getitem_int lines i;
    let moment_string := Py.strip_chars ["010"; "["; "]"]%char line in
    mret (moment_list ++ [moment_string])
  else mret moment_list.

(** [readlines] is what the file system gives for the file of that name,
    [repr] the interpreter's rendering of a string. *)
Definition parse_expansion_output (repr : string → string)
    (readlines : string → list string) (expansion_output_filename : string)
  : Py.result (string * Z * list string * list string) :=
  let lines := readlines expansion_output_filename in
  line ← Py.getitem_int lines 0;
  let simulation_type := Py.rstrip line in
  index_of_lhs_in_file ← Py.index repr lines LHS_LINE;
  index_of_constants_in_file ← Py.index repr lines CONSTANTS_LINE;
  '(lhs, number_of_species) ←
    Py.for_each (collect_lhs lines) ([], 0)
      (Py.range_from (Z.of_nat index_of_lhs_in_file + 1)
         (Z.of_nat index_of_constants_in_file - 1));
  momlistindex ← Py.index repr lines MOMENTS_LINE;
  moment_list ←
    Py.for_each (collect_moments lines) []
      (Py.range_from (Z.of_nat momlistindex + 1) (Z.of_nat (length lines)));
  mret (simulation_type, number_of_species, lhs, moment_list).

(** The inputs on which every step of [eq_mixedmoments] goes through. *)
Definition mixed_moment_inputs_fit {E} (amat : list E) (S : Matrix E)
    (ymat : list E) (kvec : list Z) (ekcounter : list (list Z)) : Prop :=
  amat ≠ [] ∧ ekcounter ≠ [] ∧ ymat ≠ [] ∧
  (length ymat ≤ length kvec)%nat ∧
  Forall (λ e, (length ymat ≤ length e ∧ length e ≤ rows S)%nat) ekcounter ∧
  (length amat ≤ cols S)%nat.

(** The lines of a file as the expansion writes it, for one species and
    moments up to order two. *)
Definition expansion_output_lines : list string :=
  (λ l, l +:+ Py.newline)
  <$> ["MEA"; EmptyString; "RHS of equations:"; "-c_0*y_0";
       "-2*c_0*yx2 + c_0*y_0"; EmptyString; "LHS:"; "y_0"; "yx2";
       EmptyString; "Constants:"; "c_0"; EmptyString; "List of moments:";
       "[1]"; "[2]"].

Definition index_error : Py.exn :=
  Py.IndexError [Py.Text "list index out of range"].
Definition reduce_error : Py.exn :=
  Py.TypeError [Py.Text "reduce() of empty sequence with no initial value"].

(** * Properties *)

(** ** Python primitives *)

Section PyFacts.
Context {A : Type}.
Implicit Types (l : list A) (v : list Z).

Lemma elem_of_range (m x : Z) : x ∈ Py.range m ↔ 0 ≤ x < m.
Proof.
  unfold Py.range. rewrite list_elem_of_fmap. split.
  - intros (i & -> & Hi). apply elem_of_seq in Hi. lia.
  - intros Hx. exists (Z.to_nat x). split; [lia|]. apply elem_of_seq. lia.
Qed.

Lemma NoDup_range (m : Z) : NoDup (Py.range m).
Proof.
  unfold Py.range. apply NoDup_fmap_2; [|apply NoDup_seq].
  intros i j Hij. lia.
Qed.

Lemma length_range (m : Z) : length (Py.range m) = Z.to_nat m.
Proof. unfold Py.range. by rewrite length_fmap, length_seq. Qed.

Lemma lookup_range (m : Z) (i : nat) :
  (i < Z.to_nat m)%nat → Py.range m !! i = Some (Z.of_nat i).
Proof.
  intros Hi. unfold Py.range.
  by rewrite list_lookup_fmap, lookup_seq_lt.
Qed.

Lemma elem_of_product_repeat (r : list A) (n : nat) (w : list A) :
  w ∈ Py.product_repeat r n ↔ length w = n ∧ Forall (.∈ r) w.
Proof.
  revert w. induction n as [|n IH]; intros w; simpl.
  - rewrite list_elem_of_singleton. split.
    + intros ->. by split.
    + intros [Hl _]. by apply nil_length_inv.
  - rewrite list_elem_of_bind. split.
    + intros (a & Hw & Ha). apply list_elem_of_fmap in Hw as (w' & -> & Hw').
      apply IH in Hw' as [<- Hall]. split; [done|]. by constructor.
    + intros [Hl Hall]. destruct w as [|a w']; [done|].
      apply Forall_cons in Hall as [Ha Hall]. exists a. split; [|done].
      apply list_elem_of_fmap. exists w'. split; [done|].
      apply IH. split; [|done]. simpl in Hl. lia.
Qed.

Lemma NoDup_product_repeat (r : list A) (n : nat) :
  NoDup r → NoDup (Py.product_repeat r n).
Proof.
  intros Hr. induction n as [|n IH]; simpl.
  - apply NoDup_singleton.
  - apply NoDup_bind; [| |done].
    + intros a b w _ _ Hw1 Hw2.
      apply list_elem_of_fmap in Hw1 as (w1 & -> & _).
      apply list_elem_of_fmap in Hw2 as (w2 & Heq & _). congruence.
    + intros a _. apply NoDup_fmap_2; [|done]. intros ??. congruence.
Qed.

Lemma insert_cmp_Permutation (cmp : A → A → Z) x l :
  Py.insert_cmp cmp x l ≡ₚ x :: l.
Proof.
  induction l as [|y l IH]; simpl; [done|].
  destruct (cmp y x <? 0); [|done].
  rewrite IH. apply Permutation_swap.
Qed.

Lemma sorted_Permutation (cmp : A → A → Z) l : Py.sorted l cmp ≡ₚ l.
Proof.
  unfold Py.sorted. induction l as [|x l IH]; simpl; [done|].
  by rewrite insert_cmp_Permutation, IH.
Qed.

End PyFacts.

(** ** Counting multi-indices *)

Section Counting.

Lemma choose_0_r (n : nat) : choose n 0 = 1%nat.
Proof. by destruct n. Qed.

Lemma choose_gt (n k : nat) : (n < k)%nat → choose n k = 0%nat.
Proof.
  revert k. induction n as [|n IH]; intros [|k] Hk; simpl; try lia.
  rewrite !IH by lia. done.
Qed.

Lemma choose_diag (n : nat) : choose n n = 1%nat.
Proof.
  induction n as [|n IH]; simpl; [done|].
  rewrite IH, choose_gt by lia. done.
Qed.

(** [choose] is the binomial coefficient. *)
Lemma choose_fact (n k : nat) :
  (k ≤ n)%nat → (choose n k * fact k * fact (n - k))%nat = fact n.
Proof.
  revert k. induction n as [|n IH]; intros [|k] Hk; simpl; try lia.
  destruct (decide (k = n)) as [->|Hne].
  - rewrite (choose_gt n (S n)), choose_diag, Nat.sub_diag by lia. simpl. lia.
  - pose proof (IH k ltac:(lia)) as H1. pose proof (IH (S k) ltac:(lia)) as H2.
    replace (n - k)%nat with (S (n - S k)) in * by lia.
    simpl in *. nia.
Qed.

Lemma sum_list_with_fmap {A B} (f : B → nat) (g : A → B) (l : list A) :
  sum_list_with f (g <$> l) = sum_list_with (f ∘ g) l.
Proof. induction l as [|a l IH]; csimpl; [done|]. by rewrite IH. Qed.

Lemma sum_list_with_range (f : Z → nat) (m : Z) :
  sum_list_with f (Py.range m)
  = sum_list_with (f ∘ Z.of_nat) (seq 0 (Z.to_nat m)).
Proof. apply sum_list_with_fmap. Qed.

(** The hockey-stick identity, in the shape the enumeration produces. *)
Lemma choose_hockey (n m : nat) :
  sum_list_with (λ i, choose (m - i + n) n) (seq 0 (S m))
  = choose (m + S n) (S n).
Proof.
  induction m as [|m IH].
  - simpl. rewrite choose_diag, choose_gt by lia. lia.
  - rewrite <-cons_seq, <-fmap_S_seq.
    cbn [sum_list_with]. rewrite sum_list_with_fmap.
    replace (S m + S n)%nat with (S (m + S n)) by lia.
    cbn [choose]. rewrite <-IH.
    replace (S m - 0 + n)%nat with (m + S n)%nat by lia.
    f_equal.
Qed.

Lemma sum_list_with_zero {A} (f : A → nat) (l : list A) :
  Forall (λ x, f x = 0%nat) l → sum_list_with f l = 0%nat.
Proof. induction 1 as [|x l Hx _ IH]; simpl; lia. Qed.

Lemma sum_list_with_ext_in {A} (f g : A → nat) (l : list A) :
  Forall (λ x, f x = g x) l → sum_list_with f l = sum_list_with g l.
Proof. induction 1 as [|x l Hx _ IH]; simpl; lia. Qed.

Lemma choose_hockey_padded (n m K : nat) :
  (m ≤ K)%nat →
  sum_list_with
    (λ i, if decide (i ≤ m)%nat then choose (m - i + n) n else 0%nat)
    (seq 0 (S K))
  = choose (m + S n) (S n).
Proof.
  intros Hm. replace (S K) with (S m + (K - m))%nat by lia.
  rewrite seq_app, sum_list_with_app, <-choose_hockey.
  rewrite (sum_list_with_zero _ (seq _ (K - m))).
  - rewrite Nat.add_0_r. apply sum_list_with_ext_in, Forall_forall.
    intros i Hi%elem_of_seq. case_decide; [done|lia].
  - apply Forall_forall. intros i Hi%elem_of_seq. case_decide; [lia|done].
Qed.

Lemma sum_nonneg (v : list Z) : Forall (λ x, 0 ≤ x) v → 0 ≤ Py.sum v.
Proof. induction 1; unfold Py.sum in *; simpl; lia. Qed.

Lemma length_filter_bind {A B} (P : B → Prop) `{!∀ x, Decision (P x)}
    (f : A → list B) (l : list A) :
  length (filter P (l ≫= f)) = sum_list_with (λ a, length (filter P (f a))) l.
Proof.
  induction l as [|a l IH]; [done|].
  rewrite bind_cons, filter_app, length_app, IH. done.
Qed.

Lemma length_filter_fmap {A B} (P : B → Prop) `{!∀ x, Decision (P x)}
    (f : A → B) (l : list A) :
  length (filter P (f <$> l)) = length (filter (P ∘ f) l).
Proof.
  induction l as [|a l IH]; [done|]. rewrite fmap_cons, !filter_cons. simpl.
  destruct (decide (P (f a))); simpl; by rewrite IH.
Qed.


Lemma product_repeat_range_nonneg (N : Z) (n : nat) (v : list Z) :
  v ∈ Py.product_repeat (Py.range (N + 1)) n → Forall (λ x, 0 ≤ x) v.
Proof.
  intros [_ Hall]%elem_of_product_repeat.
  eapply Forall_impl; [done|]. intros x Hx%elem_of_range. lia.
Qed.

Lemma count_upto_neg (N : Z) (n : nat) (M : Z) :
  M < 0 → count_upto N n M = 0%nat.
Proof.
  intros HM. unfold count_upto.
  destruct (filter _ _) as [|v l] eqn:Hf; [done|].
  assert (v ∈ filter (λ v, Py.sum v ≤ M)
            (Py.product_repeat (Py.range (N + 1)) n)) as Hv
    by (rewrite Hf; left).
  apply list_elem_of_filter in Hv as [Hs Hv].
  apply product_repeat_range_nonneg, sum_nonneg in Hv. lia.
Qed.

Lemma count_upto_S (N : Z) (n : nat) (M : Z) :
  count_upto N (S n) M
  = sum_list_with (λ i, count_upto N n (M - Z.of_nat i))
      (seq 0 (Z.to_nat (N + 1))).
Proof.
  unfold count_upto. simpl. rewrite length_filter_bind.
  rewrite sum_list_with_range.
  apply sum_list_with_ext_in, Forall_forall. intros i _. simpl.
  rewrite length_filter_fmap. f_equal.
  apply list_filter_iff. intros v. unfold Py.sum. simpl. lia.
Qed.

Lemma count_upto_choose (N : Z) (n : nat) (M : Z) :
  0 ≤ M ≤ N → count_upto N n M = choose (Z.to_nat M + n) n.
Proof.
  revert M. induction n as [|n IH]; intros M HM.
  - rewrite choose_0_r. unfold count_upto. simpl.
    rewrite filter_cons_True; [done|]. unfold Py.sum. simpl. lia.
  - rewrite count_upto_S.
    replace (Z.to_nat (N + 1)) with (S (Z.to_nat N)) by lia.
    rewrite <-(choose_hockey_padded n (Z.to_nat M) (Z.to_nat N)) by lia.
    apply sum_list_with_ext_in, Forall_forall. intros i Hi%elem_of_seq.
    case_decide.
    + rewrite IH by lia. f_equal. lia.
    + apply count_upto_neg. lia.
Qed.

End Counting.

(** ** Vectors of order zero and one *)

Section UnitVectors.
Implicit Types (v : list Z).

Lemma sum_cons (a : Z) v : Py.sum (a :: v) = a + Py.sum v.
Proof. done. Qed.

Lemma sum_replicate_0 (n : nat) : Py.sum (replicate n 0) = 0.
Proof. induction n as [|n IH]; [done|]. rewrite replicate_S, sum_cons. lia. Qed.

Lemma sum_unit (n i : nat) :
  (i < n)%nat → Py.sum (<[i := 1]> (replicate n 0)) = 1.
Proof.
  revert i. induction n as [|n IH]; intros i Hi; [lia|].
  rewrite replicate_S. destruct i as [|i]; simpl; rewrite sum_cons.
  - rewrite sum_replicate_0. lia.
  - rewrite IH by lia. lia.
Qed.

Lemma nonneg_unit (n i : nat) :
  Forall (λ x, 0 ≤ x) (<[i := 1]> (replicate n 0)).
Proof.
  apply Forall_insert; [|lia]. apply Forall_replicate. lia.
Qed.

Lemma sum_zero_inv v :
  Forall (λ x, 0 ≤ x) v → Py.sum v = 0 → v = replicate (length v) 0.
Proof.
  induction 1 as [|a v Ha Hv IH]; [done|]. rewrite sum_cons. intros Hs.
  pose proof (sum_nonneg v Hv). simpl. f_equal; [lia|]. apply IH. lia.
Qed.

Lemma sum_one_inv v :
  Forall (λ x, 0 ≤ x) v → Py.sum v = 1 →
  ∃ i, (i < length v)%nat ∧ v = <[i := 1]> (replicate (length v) 0).
Proof.
  induction 1 as [|a v Ha Hv IH]; [done|]. rewrite sum_cons. intros Hs.
  pose proof (sum_nonneg v Hv). destruct (decide (a = 0)) as [->|Hne].
  - destruct IH as (i & Hi & Heq); [lia|]. exists (S i). simpl.
    split; [lia|]. by f_equal.
  - exists 0%nat. simpl. split; [lia|]. f_equal; [lia|].
    apply sum_zero_inv; [done|lia].
Qed.

Lemma elem_of_descriptors (n : nat) v :
  v ∈ descriptors n ↔
  length v = n ∧ Forall (λ x, 0 ≤ x) v ∧ Py.sum v = 1.
Proof.
  unfold descriptors. rewrite list_elem_of_fmap. split.
  - intros (i & -> & Hi%elem_of_seq).
    rewrite length_insert, length_replicate.
    split_and!; [done|apply nonneg_unit|apply sum_unit; lia].
  - intros (<- & Hv & Hs). destruct (sum_one_inv v Hv Hs) as (i & Hi & Heq).
    exists i. split; [done|]. apply elem_of_seq. lia.
Qed.

Lemma NoDup_descriptors (n : nat) : NoDup (descriptors n).
Proof.
  unfold descriptors. apply NoDup_fmap_2_strong; [|apply NoDup_seq].
  intros i j Hi%elem_of_seq Hj%elem_of_seq Heq.
  destruct (decide (i = j)) as [|Hne]; [done|].
  assert (<[i:=1]> (replicate n 0) !! i = Some 1) as H1
    by (apply list_lookup_insert_eq; rewrite length_replicate; lia).
  rewrite Heq, list_lookup_insert_ne, lookup_replicate_2 in H1 by lia.
  done.
Qed.

Lemma length_descriptors (n : nat) : length (descriptors n) = n.
Proof. unfold descriptors. by rewrite length_fmap, length_seq. Qed.

Lemma lookup_descriptors (n i : nat) :
  (i < n)%nat → descriptors n !! i = Some (<[i := 1]> (replicate n 0)).
Proof.
  intros Hi. unfold descriptors. by rewrite list_lookup_fmap, lookup_seq_lt.
Qed.

(** A vector of non-negative entries whose sum is at most [N] has all its
    entries in [range(N + 1)]. *)
Lemma bounded_entries (N : Z) v :
  Forall (λ x, 0 ≤ x) v → Py.sum v ≤ N → Forall (.∈ Py.range (N + 1)) v.
Proof.
  induction 1 as [|a v Ha Hv IH]; [done|]. rewrite sum_cons. intros Hs.
  pose proof (sum_nonneg v Hv). constructor.
  - apply elem_of_range. lia.
  - apply IH. lia.
Qed.

End UnitVectors.

(** ** The stable sort *)

Section StableSort.
Context {A : Type} (key : A → Z) (T : relation A).

Local Abbreviation cmp := (by_key key).
Local Abbreviation R := (key_then key T).

Lemma insert_cmp_StronglySorted (x : A) (s : list A) :
  StronglySorted R s → Forall (T x) s →
  StronglySorted R (Py.insert_cmp cmp x s).
Proof.
  induction 1 as [|y s Hs IH Hy]; intros Hx; simpl.
  - repeat constructor.
  - apply Forall_cons in Hx as [Hxy Hx]. unfold by_key at 1.
    destruct (Z.ltb_spec (key y - key x) 0) as [Hlt|Hge].
    + constructor; [by apply IH|].
      rewrite insert_cmp_Permutation. constructor; [|done].
      unfold key_then. left. lia.
    + constructor; [by constructor|]. constructor.
      * unfold key_then. destruct (decide (key x = key y)); [by right|left; lia].
      * rewrite Forall_forall in Hy, Hx |- *. intros z Hz.
        specialize (Hy z Hz). specialize (Hx z Hz). unfold key_then in *.
        destruct (decide (key x = key z)); [by right|left; lia].
Qed.

Lemma sorted_StronglySorted (l : list A) :
  StronglySorted T l → StronglySorted R (Py.sorted l cmp).
Proof.
  unfold Py.sorted. induction 1 as [|x l Hl IH Hx]; simpl; [constructor|].
  apply insert_cmp_StronglySorted; [done|].
  by rewrite (sorted_Permutation cmp l : foldr _ _ _ ≡ₚ _).
Qed.

End StableSort.

Section LexOrder.

Lemma StronglySorted_filter {A} (R : relation A) (P : A → Prop)
    `{!∀ x, Decision (P x)} (l : list A) :
  StronglySorted R l → StronglySorted R (filter P l).
Proof.
  induction 1 as [|x l Hl IH Hx]; [constructor|].
  rewrite filter_cons. destruct (decide (P x)); [|done].
  constructor; [done|]. rewrite Forall_forall in Hx |- *.
  intros y [_ Hy]%list_elem_of_filter. by apply Hx.
Qed.

Lemma StronglySorted_range (m : Z) : StronglySorted Z.lt (Py.range m).
Proof.
  unfold Py.range. generalize 0%nat. induction (Z.to_nat m) as [|k IH];
    intros j; simpl; constructor; [apply IH|].
  apply Forall_forall. intros x (i & -> & Hi%elem_of_seq)%list_elem_of_fmap.
  lia.
Qed.

Lemma StronglySorted_bind_cons (l : list Z) (ws : list (list Z)) :
  StronglySorted Z.lt l → StronglySorted lex_lt ws →
  StronglySorted lex_lt (a ← l; (a ::.) <$> ws).
Proof.
  intros Hl Hws. induction Hl as [|a l Hl IHl Ha]; [constructor|].
  rewrite bind_cons. apply StronglySorted_app_2; [| |done].
  - intros x1 x2 (w1 & -> & _)%list_elem_of_fmap
      (b & (w2 & -> & _)%list_elem_of_fmap & Hb)%list_elem_of_bind.
    simpl. left. rewrite Forall_forall in Ha. by apply Ha.
  - apply StronglySorted_fmap with (R1 := lex_lt); [|done].
    intros w1 w2 Hw. simpl. by right.
Qed.

Lemma StronglySorted_product_repeat (r : list Z) (n : nat) :
  StronglySorted Z.lt r → StronglySorted lex_lt (Py.product_repeat r n).
Proof.
  intros Hr. induction n as [|n IH]; simpl; [repeat constructor|].
  by apply StronglySorted_bind_cons.
Qed.

End LexOrder.

(** ** Counter generation *)

Section CounterFacts.
Context {E : Type} `{Sympy E}.
Implicit Types (v : list Z) (species : list E).

Lemma n_vector_moments_of (ds : list (list Z)) (ss : list E) :
  (length ds ≤ length ss)%nat → n_vector <$> moments_of ds ss = ds.
Proof.
  intros Hl. unfold moments_of, Py.zip. rewrite <-list_fmap_compose.
  rewrite <-(fst_zip ds ss) at 2 by done. done.
Qed.

Lemma length_moments_of (ds : list (list Z)) (ss : list E) :
  length ds = length ss → length (moments_of ds ss) = length ds.
Proof.
  intros Hl. unfold moments_of, Py.zip.
  rewrite length_fmap, length_zip_with. lia.
Qed.

Lemma length_k_counter_symbols (ds : list (list Z)) :
  length (k_counter_symbols (E:=E) ds) = length ds.
Proof. unfold k_counter_symbols. by rewrite length_fmap. Qed.

Lemma length_n_counter_symbols (ds : list (list Z)) :
  length (n_counter_symbols (E:=E) ds) = length ds.
Proof.
  unfold n_counter_symbols. rewrite length_fmap, length_range. lia.
Qed.

Lemma filter_Forall_id {A} (P : A → Prop) `{!∀ x, Decision (P x)}
    (l : list A) :
  Forall P l → filter P l = l.
Proof.
  induction 1 as [|x l Hx _ IH]; [done|].
  by rewrite filter_cons_True, IH.
Qed.

Lemma filter_Forall_not {A} (P : A → Prop) `{!∀ x, Decision (P x)}
    (l : list A) :
  Forall (λ x, ¬ P x) l → filter P l = [].
Proof.
  induction 1 as [|x l Hx _ IH]; [done|].
  by rewrite filter_cons_False.
Qed.

Lemma elem_of_k_counter_descriptors (N : Z) (n : nat) v :
  v ∈ k_counter_descriptors N n ↔
  length v = n ∧ Forall (λ x, 0 ≤ x) v ∧ 2 ≤ Py.sum v ≤ N.
Proof.
  unfold k_counter_descriptors. rewrite sorted_Permutation.
  rewrite list_elem_of_filter, elem_of_product_repeat. split.
  - intros ([Hle Hgt] & Hlen & Hall). split_and!; [done| |lia|done].
    eapply Forall_impl; [done|]. intros x Hx%elem_of_range. lia.
  - intros (Hlen & Hall & Hs). split_and!; [lia|lia|done|].
    apply bounded_entries; [done|lia].
Qed.

Lemma NoDup_k_counter_descriptors (N : Z) (n : nat) :
  NoDup (k_counter_descriptors N n).
Proof.
  unfold k_counter_descriptors. rewrite sorted_Permutation.
  apply NoDup_filter, NoDup_product_repeat, NoDup_range.
Qed.

Lemma k_counter_descriptors_sorted (N : Z) (n : nat) :
  StronglySorted counter_lt (k_counter_descriptors N n).
Proof.
  unfold k_counter_descriptors.
  apply (sorted_StronglySorted Py.sum lex_lt).
  apply StronglySorted_filter, StronglySorted_product_repeat,
    StronglySorted_range.
Qed.

Lemma n_counter_descriptors_eq (N : Z) (n : nat) :
  n_counter_descriptors N n = k_counter_descriptors N n.
Proof.
  unfold n_counter_descriptors. apply filter_Forall_id, Forall_forall.
  intros v Hv%elem_of_k_counter_descriptors. lia.
Qed.

Lemma k_counter_descriptors_nil (N : Z) (n : nat) :
  N < 2 ∨ n = 0%nat → k_counter_descriptors N n = [].
Proof.
  intros HN. unfold k_counter_descriptors.
  rewrite filter_Forall_not; [done|]. apply Forall_forall.
  intros v Hv [Hle Hgt]. destruct HN as [HN| ->]; [lia|].
  simpl in Hv. apply list_elem_of_singleton in Hv as ->. done.
Qed.


Lemma generate_n_and_k_counters_eq (N : Z) species :
  generate_n_and_k_counters N species
  = inr (central_counter N species, raw_counter N species).
Proof.
  unfold generate_n_and_k_counters, central_counter, raw_counter.
  by rewrite n_counter_descriptors_eq.
Qed.

Lemma n_vector_raw_counter (N : Z) species :
  n_vector <$> raw_counter N species
  = replicate (length species) 0
    :: descriptors (length species)
    ++ k_counter_descriptors N (length species).
Proof.
  unfold raw_counter. rewrite fmap_cons, fmap_app.
  rewrite !n_vector_moments_of; [done|..].
  - by rewrite length_k_counter_symbols.
  - by rewrite length_descriptors.
Qed.

Lemma n_vector_central_counter (N : Z) species :
  n_vector <$> central_counter N species
  = replicate (length species) 0 :: k_counter_descriptors N (length species).
Proof.
  unfold central_counter. rewrite fmap_cons.
  rewrite n_vector_moments_of; [done|].
  by rewrite length_n_counter_symbols.
Qed.

Lemma elem_of_raw_vectors (N : Z) species v :
  1 ≤ N →
  v ∈ n_vector <$> raw_counter N species ↔
  length v = length species ∧ Forall (λ x, 0 ≤ x) v ∧ Py.sum v ≤ N.
Proof.
  intros HN. rewrite n_vector_raw_counter, elem_of_cons, elem_of_app.
  rewrite elem_of_descriptors, elem_of_k_counter_descriptors. split.
  - intros [->|[(? & ? & ?)|(? & ? & ?)]]; [|split_and!; done || lia..].
    rewrite length_replicate, sum_replicate_0.
    split_and!; [done| |lia]. apply Forall_replicate. lia.
  - intros (Hl & Hv & Hs). pose proof (sum_nonneg v Hv).
    destruct (decide (Py.sum v = 0)) as [Hz|?].
    { left. rewrite <-Hl. by apply sum_zero_inv. }
    right. destruct (decide (Py.sum v = 1)); [left|right];
      split_and!; done || lia.
Qed.

Lemma NoDup_raw_vectors (N : Z) species :
  NoDup (n_vector <$> raw_counter N species).
Proof.
  rewrite n_vector_raw_counter. apply NoDup_cons. split.
  - rewrite elem_of_app, elem_of_descriptors, elem_of_k_counter_descriptors.
    rewrite sum_replicate_0. intros [(_ & _ & ?)|(_ & _ & ?)]; lia.
  - apply NoDup_app. split_and!.
    + apply NoDup_descriptors.
    + intros v (_ & _ & ?)%elem_of_descriptors
        (_ & _ & ?)%elem_of_k_counter_descriptors. lia.
    + apply NoDup_k_counter_descriptors.
Qed.

Lemma elem_of_central_vectors (N : Z) species v :
  v ∈ n_vector <$> central_counter N species ↔
  length v = length species ∧ Forall (λ x, 0 ≤ x) v ∧
  (Py.sum v = 0 ∨ 2 ≤ Py.sum v ≤ N).
Proof.
  rewrite n_vector_central_counter, elem_of_cons.
  rewrite elem_of_k_counter_descriptors. split.
  - intros [->|(? & ? & ?)]; [|split_and!; done || (right; lia)].
    rewrite length_replicate, sum_replicate_0.
    split_and!; [done| |by left]. apply Forall_replicate. lia.
  - intros (Hl & Hv & [Hs|Hs]); [left|right; done].
    rewrite <-Hl. by apply sum_zero_inv.
Qed.

Lemma NoDup_central_vectors (N : Z) species :
  NoDup (n_vector <$> central_counter N species).
Proof.
  rewrite n_vector_central_counter. apply NoDup_cons. split.
  - rewrite elem_of_k_counter_descriptors, sum_replicate_0. lia.
  - apply NoDup_k_counter_descriptors.
Qed.

Lemma length_raw_counter (N : Z) species :
  1 ≤ N →
  length (raw_counter N species)
  = choose (Z.to_nat N + length species) (length species).
Proof.
  intros HN. rewrite <-(count_upto_choose N _ N) by lia.
  rewrite <-(length_fmap n_vector). unfold count_upto.
  apply Permutation_length, NoDup_Permutation.
  - apply NoDup_raw_vectors.
  - apply NoDup_filter, NoDup_product_repeat, NoDup_range.
  - intros v. rewrite elem_of_raw_vectors by done.
    rewrite list_elem_of_filter, elem_of_product_repeat. split.
    + intros (Hl & Hv & Hs). split_and!; [done..|].
      by apply bounded_entries.
    + intros (Hs & Hl & Hv). split_and!; [done| |done].
      eapply Forall_impl; [done|]. intros x Hx%elem_of_range. lia.
Qed.

Lemma length_central_counter (N : Z) species :
  length (raw_counter N species)
  = (length (central_counter N species) + length species)%nat.
Proof.
  unfold raw_counter, central_counter. simpl.
  rewrite length_app, !length_moments_of.
  - rewrite length_descriptors. lia.
  - by rewrite length_n_counter_symbols.
  - by rewrite length_k_counter_symbols.
  - by rewrite length_descriptors.
Qed.

End CounterFacts.

Section CounterTheorems.
Context {E : Type} `{Sympy E}.
Implicit Types (v : list Z) (species : list E).

Lemma lookup_means (N : Z) species (i : nat) (s : E) :
  species !! i = Some s →
  raw_counter N species !! S i
  = Some (mkMoment (<[i := 1]> (replicate (length species) 0)) s).
Proof.
  intros Hs. pose proof (lookup_lt_Some _ _ _ Hs) as Hi.
  unfold raw_counter. simpl. apply lookup_app_l_Some.
  unfold moments_of, Py.zip.
  by rewrite list_lookup_fmap, lookup_zip_with, lookup_descriptors, Hs.
Qed.

Lemma drop_means (N : Z) species :
  drop (1 + length species) (raw_counter N species)
  = moments_of (k_counter_descriptors N (length species))
      (k_counter_symbols (k_counter_descriptors N (length species))).
Proof.
  unfold raw_counter. simpl. apply drop_app_length'.
  by rewrite length_moments_of, length_descriptors
    by (by rewrite length_descriptors).
Qed.

Lemma higher_raw_vectors (N : Z) species :
  n_vector <$> drop (1 + length species) (raw_counter N species)
  = k_counter_descriptors N (length species).
Proof.
  rewrite drop_means, n_vector_moments_of; [done|].
  by rewrite length_k_counter_symbols.
Qed.

Lemma higher_central_vectors (N : Z) species :
  n_vector <$> drop 1 (central_counter N species)
  = k_counter_descriptors N (length species).
Proof.
  by rewrite fmap_drop, n_vector_central_counter.
Qed.

Lemma Forall_order (P : Z → Prop) (l : list (Moment E)) :
  Forall (λ v, P (Py.sum v)) (n_vector <$> l) ↔ Forall (λ m, P (order m)) l.
Proof. by rewrite Forall_fmap. Qed.

Lemma order_higher_raw (N : Z) species :
  Forall (λ m, 2 ≤ order m)
    (drop (1 + length species) (raw_counter N species)).
Proof.
  apply (Forall_order (λ z, 2 ≤ z)). rewrite higher_raw_vectors.
  apply Forall_forall. intros v Hv%elem_of_k_counter_descriptors. lia.
Qed.

Lemma order_higher_central (N : Z) species :
  Forall (λ m, 2 ≤ order m) (drop 1 (central_counter N species)).
Proof.
  apply (Forall_order (λ z, 2 ≤ z)). rewrite higher_central_vectors.
  apply Forall_forall. intros v Hv%elem_of_k_counter_descriptors. lia.
Qed.

Lemma order_unit_moment species : order (unit_moment species) = 0.
Proof. apply sum_replicate_0. Qed.

Lemma order_means species :
  Forall (λ m, order m = 1) (moments_of (descriptors (length species)) species).
Proof.
  apply (Forall_order (λ z, z = 1)).
  rewrite n_vector_moments_of by (by rewrite length_descriptors).
  apply Forall_forall. by intros v (_ & _ & ?)%elem_of_descriptors.
Qed.

Lemma filter_higher_raw (N : Z) species :
  filter (λ m, order m > 1) (raw_counter N species)
  = drop (1 + length species) (raw_counter N species).
Proof.
  rewrite drop_means. unfold raw_counter.
  rewrite filter_cons_False by (rewrite order_unit_moment; lia).
  rewrite filter_app, filter_Forall_not, filter_Forall_id; [done|..].
  - rewrite <-drop_means. eapply Forall_impl; [apply order_higher_raw|].
    simpl. lia.
  - eapply Forall_impl; [apply order_means|]. simpl. lia.
Qed.

Lemma filter_higher_central (N : Z) species :
  filter (λ m, order m > 1) (central_counter N species)
  = drop 1 (central_counter N species).
Proof.
  pose proof (order_higher_central N species) as Hall.
  unfold central_counter in *. simpl in *.
  rewrite filter_cons_False by (rewrite order_unit_moment; lia).
  apply filter_Forall_id. eapply Forall_impl; [done|]. simpl. lia.
Qed.

(** C3: for at least one species and a truncation order of at least one,
    the raw counter holds exactly one moment for each vector of
    [length species] non-negative integers of total order at most [N],
    which makes [choose (N + S) S] entries with no multi-index repeated;
    the central counter holds the moment of order zero and exactly one
    moment for each such vector of order between 2 and [N]; the raw
    counter has [length species] more entries than the central one. *)
Theorem generate_counters_enumerate (N : Z) species :
  1 ≤ N → (1 ≤ length species)%nat →
  ∃ n_counter k_counter,
    generate_n_and_k_counters N species = inr (n_counter, k_counter) ∧
    (∀ v, v ∈ n_vector <$> k_counter ↔
          length v = length species ∧ Forall (λ x, 0 ≤ x) v ∧ Py.sum v ≤ N) ∧
    NoDup (n_vector <$> k_counter) ∧
    length k_counter
    = choose (Z.to_nat N + length species) (length species) ∧
    (∀ v, v ∈ n_vector <$> n_counter ↔
          length v = length species ∧ Forall (λ x, 0 ≤ x) v ∧
          (Py.sum v = 0 ∨ 2 ≤ Py.sum v ≤ N)) ∧
    NoDup (n_vector <$> n_counter) ∧
    length k_counter = (length n_counter + length species)%nat.
Proof.
  intros HN HS. exists (central_counter N species), (raw_counter N species).
  split_and!.
  - apply generate_n_and_k_counters_eq.
  - intros v. by apply elem_of_raw_vectors.
  - apply NoDup_raw_vectors.
  - by apply length_raw_counter.
  - apply elem_of_central_vectors.
  - apply NoDup_central_vectors.
  - apply length_central_counter.
Qed.

(** C4: in both counters the moment of order zero, with symbol 1, comes
    first; in the raw counter the means follow, one per species and with
    the species as symbol; the entries after them have order at least two
    and are in ascending order, equal orders being in lexicographic
    order; the entries of the central counter after the first carry the
    same multi-indices at the same relative positions, and selecting the
    entries of order above one from either counter gives the same list of
    multi-indices. *)
Theorem generate_counters_layout (N : Z) species :
  1 ≤ N → (1 ≤ length species)%nat →
  ∃ n_counter k_counter,
    generate_n_and_k_counters N species = inr (n_counter, k_counter) ∧
    n_counter !! 0%nat
    = Some (mkMoment (replicate (length species) 0) (sp_Integer 1)) ∧
    k_counter !! 0%nat
    = Some (mkMoment (replicate (length species) 0) (sp_Integer 1)) ∧
    (∀ i s, species !! i = Some s →
       k_counter !! S i
       = Some (mkMoment (<[i := 1]> (replicate (length species) 0)) s)) ∧
    Forall (λ m, 2 ≤ order m) (drop (1 + length species) k_counter) ∧
    StronglySorted counter_lt
      (n_vector <$> drop (1 + length species) k_counter) ∧
    Forall (λ m, 2 ≤ order m) (drop 1 n_counter) ∧
    n_vector <$> drop 1 n_counter
    = n_vector <$> drop (1 + length species) k_counter ∧
    n_vector <$> filter (λ m, order m > 1) n_counter
    = n_vector <$> filter (λ m, order m > 1) k_counter.
Proof.
  intros HN HS. exists (central_counter N species), (raw_counter N species).
  split_and!.
  - apply generate_n_and_k_counters_eq.
  - done.
  - done.
  - intros i s. apply lookup_means.
  - apply order_higher_raw.
  - rewrite higher_raw_vectors. apply k_counter_descriptors_sorted.
  - apply order_higher_central.
  - by rewrite higher_raw_vectors, higher_central_vectors.
  - rewrite filter_higher_raw, filter_higher_central.
    by rewrite higher_raw_vectors, higher_central_vectors.
Qed.

(** C5, as the code has it: counter generation checks neither the
    truncation order nor the number of species.  For an order below one,
    or without species, it returns the central counter made of the moment
    of order zero alone and the raw counter made of that moment and the
    means. *)
Theorem generate_counters_unchecked (N : Z) species :
  N < 1 ∨ (length species < 1)%nat →
  generate_n_and_k_counters N species
  = inr ([mkMoment (replicate (length species) 0) (sp_Integer 1)],
         mkMoment (replicate (length species) 0) (sp_Integer 1)
         :: moments_of (descriptors (length species)) species).
Proof.
  intros Hlow. rewrite generate_n_and_k_counters_eq.
  unfold central_counter, raw_counter.
  rewrite k_counter_descriptors_nil by lia. simpl. by rewrite app_nil_r.
Qed.

End CounterTheorems.

Lemma generate_counters_enumerate_witness :
  ∃ n_counter k_counter,
    generate_n_and_k_counters 2 [TS "y_0"; TS "y_1"]
    = inr (n_counter, k_counter) ∧
    (∀ v, v ∈ n_vector <$> k_counter ↔
          length v = 2%nat ∧ Forall (λ x, 0 ≤ x) v ∧ Py.sum v ≤ 2) ∧
    NoDup (n_vector <$> k_counter) ∧
    length k_counter = choose 4 2 ∧
    (∀ v, v ∈ n_vector <$> n_counter ↔
          length v = 2%nat ∧ Forall (λ x, 0 ≤ x) v ∧
          (Py.sum v = 0 ∨ 2 ≤ Py.sum v ≤ 2)) ∧
    NoDup (n_vector <$> n_counter) ∧
    length k_counter = (length n_counter + 2)%nat.
Proof.
  apply (generate_counters_enumerate 2 [TS "y_0"; TS "y_1"]); simpl; lia.
Defined.

Lemma generate_counters_layout_witness :
  ∃ n_counter k_counter,
    generate_n_and_k_counters 2 [TS "y_0"; TS "y_1"]
    = inr (n_counter, k_counter) ∧
    n_counter !! 0%nat = Some (mkMoment [0; 0] (TInteger 1)) ∧
    k_counter !! 0%nat = Some (mkMoment [0; 0] (TInteger 1)) ∧
    (∀ i s, [TS "y_0"; TS "y_1"] !! i = Some s →
       k_counter !! S i = Some (mkMoment (<[i := 1]> [0; 0]) s)) ∧
    Forall (λ m, 2 ≤ order m) (drop 3 k_counter) ∧
    StronglySorted counter_lt (n_vector <$> drop 3 k_counter) ∧
    Forall (λ m, 2 ≤ order m) (drop 1 n_counter) ∧
    n_vector <$> drop 1 n_counter = n_vector <$> drop 3 k_counter ∧
    n_vector <$> filter (λ m, order m > 1) n_counter
    = n_vector <$> filter (λ m, order m > 1) k_counter.
Proof.
  exact (generate_counters_layout 2 [TS "y_0"; TS "y_1"]
           ltac:(lia) ltac:(simpl; lia)).
Defined.

Lemma generate_counters_unchecked_witness :
  generate_n_and_k_counters 0 [TS "y_0"]
  = inr ([mkMoment [0] (TInteger 1)],
         [mkMoment [0] (TInteger 1); mkMoment [1] (TS "y_0")]).
Proof.
  assert (0 < 1 ∨ (length [TS "y_0"] < 1)%nat) as Hlow by (left; lia).
  exact (generate_counters_unchecked 0 [TS "y_0"] Hlow).
Defined.

(** C5 as stated fails: with truncation order 0 and one species the call
    does not raise. *)
Lemma generate_counters_order_0_not_rejected :
  ¬ Py.raises (generate_n_and_k_counters 0 [TS "y_0"]).
Proof. intros [e He]. vm_compute in He. discriminate. Qed.

Example counters_2_2 :
  generate_n_and_k_counters 2 [TS "y_0"; TS "y_1"] =
  inr ([mkMoment [0; 0] (TInteger 1); mkMoment [0; 2] (TS "yx2");
        mkMoment [1; 1] (TS "yx3"); mkMoment [2; 0] (TS "yx4")],
       [mkMoment [0; 0] (TInteger 1); mkMoment [1; 0] (TS "y_0");
        mkMoment [0; 1] (TS "y_1"); mkMoment [0; 2] (TS "x_0_2");
        mkMoment [1; 1] (TS "x_1_1"); mkMoment [2; 0] (TS "x_2_0")]).
Proof. vm_compute. reflexivity. Qed.

(** ** Comprehensions that may raise *)

Section Traverse.

Lemma traverse_ok {A B} (f : A → Py.result B) (g : A → B) (l : list A) :
  (∀ x, x ∈ l → f x = inr (g x)) → Py.traverse f l = inr (g <$> l).
Proof.
  induction l as [|x l IH]; intros Hf; [done|]. simpl.
  rewrite Hf by left. simpl. rewrite IH; [done|].
  intros y Hy. apply Hf. by right.
Qed.

Lemma traverse_fmap {A B C} (f : A → Py.result B) (h : C → A) (l : list C) :
  Py.traverse f (h <$> l) = Py.traverse (f ∘ h) l.
Proof. induction l as [|x l IH]; [done|]. csimpl. by rewrite IH. Qed.

Lemma traverse_enumerate_ok {A B} (f : nat * A → Py.result B) (g : nat → A → B)
    (l : list A) :
  (∀ i x, l !! i = Some x → f (i, x) = inr (g i x)) →
  Py.traverse f (Py.enumerate l) = inr (imap g l).
Proof.
  unfold Py.enumerate. revert f g.
  induction l as [|x l IH]; intros f g Hf; [done|].
  rewrite !imap_cons. cbn [Py.traverse]. rewrite (Hf 0%nat x) by done. simpl.
  assert (imap (pair ∘ S) l = prod_map S id <$> imap pair l) as ->
    by (rewrite fmap_imap; by apply imap_ext).
  rewrite traverse_fmap, (IH _ (g ∘ S)); [done|].
  intros i y Hy. by apply (Hf (S i)).
Qed.

Lemma traverse_range_len_ok {A B} (f : nat → Py.result B) (g : A → B) (l : list A) :
  (∀ i x, l !! i = Some x → f i = inr (g x)) →
  Py.traverse f (Py.range_len (length l)) = inr (g <$> l).
Proof.
  intros Hf. unfold Py.range_len.
  assert (seq 0 (length l) = fst <$> imap pair l) as ->.
  { rewrite fmap_imap, <-(list_fmap_id (seq 0 _)), <-(imap_seq_0 l id).
    by apply imap_ext. }
  rewrite traverse_fmap, <-imap_const.
  by apply (traverse_enumerate_ok (f ∘ fst) (const g)).
Qed.

End Traverse.

Section ReduceFacts.
Context {E : Type} `{Sympy E}.

Lemma reduce_mul_ok (l : list E) :
  l ≠ [] → Py.reduce sp_mul l = inr (big_mul l).
Proof. by destruct l. Qed.

Lemma reduce_add_ok (l : list E) :
  l ≠ [] → Py.reduce sp_add l = inr (big_add l).
Proof. by destruct l. Qed.

End ReduceFacts.

(** ** The factors of a mixed moment *)

Section Factors.
Context {E : Type} `{Sympy E}.
Implicit Types (variables amat ymat : list E) (S : Matrix E).
Implicit Types (k_vec e_vec : list Z) (counter : list (Moment E)).

Lemma getitem_ok {A} (l : list A) (i : nat) (x : A) :
  l !! i = Some x → Py.getitem l i = inr x.
Proof. unfold Py.getitem. by intros ->. Qed.

Lemma nonempty_length {A} (l : list A) : l ≠ [] ↔ (0 < length l)%nat.
Proof. destruct l; simpl; split; (done || lia). Qed.

Lemma make_f_of_x_ok variables k_vec e_vec (reaction : E) :
  variables ≠ [] →
  (length variables ≤ length k_vec)%nat →
  (length variables ≤ length e_vec)%nat →
  make_f_of_x variables k_vec e_vec reaction
  = inr (shifted_propensity variables k_vec e_vec reaction).
Proof.
  intros Hne Hk He. unfold make_f_of_x, shifted_propensity.
  rewrite (traverse_enumerate_ok _
    (λ i var, sp_pow var (sp_Integer (default 0 (k_vec !! i)
                                      - default 0 (e_vec !! i))))).
  - simpl. rewrite reduce_mul_ok.
    + simpl. do 3 f_equal. apply list_eq. intros i.
      rewrite list_lookup_imap, lookup_zip_with.
      unfold Py.zip. rewrite lookup_zip_with.
      destruct (variables !! i) as [x|] eqn:Hx; [|done]. simpl.
      apply lookup_lt_Some in Hx.
      destruct (lookup_lt_is_Some_2 k_vec i) as [k ->]; [lia|].
      destruct (lookup_lt_is_Some_2 e_vec i) as [e ->]; [lia|]. done.
    + apply nonempty_length. rewrite length_imap.
      by apply nonempty_length.
  - intros i x Hx. apply lookup_lt_Some in Hx.
    destruct (lookup_lt_is_Some_2 k_vec i) as [k Hki]; [lia|].
    destruct (lookup_lt_is_Some_2 e_vec i) as [e Hei]; [lia|].
    rewrite (getitem_ok _ _ _ Hki). simpl.
    rewrite (getitem_ok _ _ _ Hei). simpl. by rewrite Hki, Hei.
Qed.

Lemma make_k_chose_e_ok e_vec k_vec :
  e_vec ≠ [] → k_vec ≠ [] →
  make_k_chose_e e_vec k_vec = inr (binomial_term k_vec e_vec).
Proof.
  intros He Hk. unfold make_k_chose_e, binomial_term.
  assert (∀ (g : Z → Z → E),
            (λ '(e, k), g k e) <$> Py.zip e_vec k_vec
            = zip_with g k_vec e_vec) as ->.
  { intros g. unfold Py.zip. clear He Hk. revert k_vec.
    induction e_vec as [|e es IH]; intros [|k ks]; try done.
    csimpl. f_equal. apply IH. }
  apply reduce_mul_ok. destruct e_vec, k_vec; done.
Qed.

Lemma omap_total {A B} (f : A → option B) (g : A → B) (l : list A) :
  (∀ x, x ∈ l → f x = Some (g x)) → omap f l = g <$> l.
Proof.
  induction l as [|x l IH]; intros Hf; [done|]. csimpl.
  rewrite Hf by left. rewrite IH; [done|]. intros y Hy. apply Hf. by right.
Qed.

Lemma omap_fmap {A B C} (f : B → option C) (g : A → B) (l : list A) :
  omap f (g <$> l) = omap (f ∘ g) l.
Proof. induction l as [|x l IH]; [done|]. csimpl. by rewrite IH. Qed.

Lemma Matrix_col_lookup S (i j : nat) :
  wf_Matrix S → (i < rows S)%nat → (j < cols S)%nat →
  Matrix_col S j !! i = mat S !! (i * cols S + j)%nat ∧
  is_Some (mat S !! (i * cols S + j)%nat).
Proof.
  intros Hwf Hi Hj.
  assert (∀ i', (i' < rows S)%nat →
            is_Some (mat S !! (i' * cols S + j)%nat)) as Hsome.
  { intros i' Hi'. apply lookup_lt_is_Some_2. rewrite Hwf. nia. }
  split; [|by apply Hsome]. unfold Matrix_col.
  rewrite (omap_total _
    (λ i', default (sp_Integer 0) (mat S !! (i' * cols S + j)%nat))).
  - rewrite list_lookup_fmap, lookup_seq_lt by done. simpl.
    by destruct (Hsome i Hi) as [x ->].
  - intros i' Hi'%elem_of_seq. destruct (Hsome i') as [x ->]; [lia|done].
Qed.

Lemma length_Matrix_col S (j : nat) :
  wf_Matrix S → (j < cols S)%nat → length (Matrix_col S j) = rows S.
Proof.
  intros Hwf Hj. unfold Matrix_col.
  rewrite (omap_total _
    (λ i', default (sp_Integer 0) (mat S !! (i' * cols S + j)%nat))).
  - by rewrite length_fmap, length_seq.
  - intros i' Hi'%elem_of_seq.
    destruct (lookup_lt_is_Some_2 (mat S) (i' * cols S + j)%nat) as [x ->];
      [rewrite Hwf; nia|done].
Qed.

Lemma make_s_pow_e_ok S (reac_idx : nat) e_vec :
  wf_Matrix S → (reac_idx < cols S)%nat →
  e_vec ≠ [] → (length e_vec ≤ rows S)%nat →
  make_s_pow_e S reac_idx e_vec = inr (stoichiometry_power S reac_idx e_vec).
Proof.
  intros Hwf Hr Hne Hlen. unfold make_s_pow_e, stoichiometry_power.
  rewrite (traverse_enumerate_ok _
    (λ i e, sp_pow (default (sp_Integer 0) (Matrix_col S reac_idx !! i))
              (sp_Integer e))).
  - simpl. rewrite reduce_mul_ok.
    + do 2 f_equal. apply list_eq. intros i.
      rewrite list_lookup_imap, lookup_zip_with.
      destruct (e_vec !! i) as [e|] eqn:He; simpl.
      * apply lookup_lt_Some in He.
        destruct (lookup_lt_is_Some_2 (Matrix_col S reac_idx) i) as [s ->];
          [rewrite length_Matrix_col by done; lia|done].
      * by destruct (Matrix_col S reac_idx !! i).
    + apply nonempty_length. rewrite length_imap. by apply nonempty_length.
  - intros i e He. apply lookup_lt_Some in He.
    destruct (Matrix_col_lookup S i reac_idx) as [Hcol [s Hs]];
      [done|lia|done|].
    unfold Matrix_get. rewrite decide_True by lia.
    rewrite Hcol, Hs. done.
Qed.

Lemma make_f_expectation_ok variables (expr : E) counter :
  make_f_expectation variables expr counter
  = inr (mkMatrix (length counter) 1 (taylor_term variables expr <$> counter)).
Proof.
  unfold make_f_expectation, Matrix_new, Py.zip.
  rewrite zip_with_fmap_l, zip_with_fmap_r, zip_with_diag.
  rewrite <-list_fmap_compose, decide_True
    by (rewrite length_fmap; lia).
  done.
Qed.

(** C2, as the code has it: for a non-empty species vector, k- and
    e-vectors with one entry per species and a stoichiometry matrix with
    one row per species, [make_f_of_x] returns the product of the
    [x_i^(k_i - e_i)] times the propensity, [make_s_pow_e] the product of
    the [S[i, r]^(e_i)], [make_k_chose_e] the product of the
    [k_i! / (e_i! (k_i - e_i)!)], and [make_f_expectation] the column
    vector that has, for each counter entry, the mixed partial derivative
    according to the entry times its Taylor coefficient. *)
Theorem mixed_moment_factors variables k_vec e_vec (reaction expr : E)
    S (reac_idx : nat) counter :
  variables ≠ [] →
  length k_vec = length variables →
  length e_vec = length variables →
  wf_Matrix S → rows S = length variables → (reac_idx < cols S)%nat →
  make_f_of_x variables k_vec e_vec reaction
  = inr (shifted_propensity variables k_vec e_vec reaction) ∧
  make_s_pow_e S reac_idx e_vec
  = inr (stoichiometry_power S reac_idx e_vec) ∧
  make_k_chose_e e_vec k_vec = inr (binomial_term k_vec e_vec) ∧
  make_f_expectation variables expr counter
  = inr (mkMatrix (length counter) 1 (taylor_term variables expr <$> counter)).
Proof.
  intros Hne Hk He Hwf Hrows Hr.
  apply nonempty_length in Hne.
  split_and!.
  - apply make_f_of_x_ok; [by apply nonempty_length|lia..].
  - apply make_s_pow_e_ok; [done..| |lia].
    apply nonempty_length. lia.
  - apply make_k_chose_e_ok; apply nonempty_length; lia.
  - apply make_f_expectation_ok.
Qed.

End Factors.

(** ** The mixed-moment vector *)

Section PairFacts.
Context {R : Type}.
Implicit Types (ra : list (nat * R)) (ek : list (list Z)).

Lemma elem_of_reaction_e_pairs ra ek (t : nat * R * list Z) :
  t ∈ reaction_e_pairs ra ek ↔ t.1 ∈ ra ∧ t.2 ∈ ek.
Proof.
  unfold reaction_e_pairs. rewrite list_elem_of_bind. split.
  - intros (a & (e & -> & He)%list_elem_of_fmap & Ha). done.
  - intros [Ha He]. exists t.1. split; [|done].
    apply list_elem_of_fmap. exists t.2. by destruct t.
Qed.

Lemma product_fst ra ek :
  Py.product (fst <$> ra) ek
  = (λ t, (t.1.1, t.2)) <$> reaction_e_pairs ra ek.
Proof.
  unfold Py.product, reaction_e_pairs.
  induction ra as [|a ra IH]; [done|].
  rewrite fmap_cons, !bind_cons, fmap_app, IH, <-list_fmap_compose. done.
Qed.

Lemma product_snd ra ek :
  Py.product (snd <$> ra) ek
  = (λ t, (t.1.2, t.2)) <$> reaction_e_pairs ra ek.
Proof.
  unfold Py.product, reaction_e_pairs.
  induction ra as [|a ra IH]; [done|].
  rewrite fmap_cons, !bind_cons, fmap_app, IH, <-list_fmap_compose. done.
Qed.

Lemma repeat_list_pairs {X} (g : list Z → X) ra ek :
  Py.repeat_list (g <$> ek) (length ra)
  = (λ t, g t.2) <$> reaction_e_pairs ra ek.
Proof.
  unfold Py.repeat_list, reaction_e_pairs.
  induction ra as [|a ra IH]; [done|].
  rewrite bind_cons, fmap_app, <-IH, <-list_fmap_compose. done.
Qed.

Lemma length_reaction_e_pairs ra ek :
  length (reaction_e_pairs ra ek) = (length ra * length ek)%nat.
Proof.
  unfold reaction_e_pairs. induction ra as [|a ra IH]; [done|].
  rewrite bind_cons, length_app, length_fmap, IH. simpl. lia.
Qed.

End PairFacts.

Section StackFacts.
Context {E : Type} `{Sympy E}.

Lemma remove_dups_const {A} `{EqDecision A} (c : A) (l : list A) :
  l ≠ [] → Forall (λ x, x = c) l → remove_dups l = [c].
Proof.
  intros Hne Hall. induction Hall as [|x l -> Hall IH]; [done|]. simpl.
  destruct l as [|y l]; [done|].
  destruct (decide_rel _ _ _) as [Hin|Hnin]; [by apply IH|].
  destruct Hnin. apply Forall_cons in Hall as [-> _]. left.
Qed.

Lemma Matrix_stack_columns (ms : list (Matrix E)) :
  ms ≠ [] → Forall (λ m, cols m = 1%nat) ms →
  Matrix_stack ms
  = inr (mkMatrix (sum_list (rows <$> ms)) 1 (concat (mat <$> ms))).
Proof.
  intros Hne Hall. unfold Matrix_stack.
  rewrite filter_Forall_id
    by (eapply Forall_impl; [done|]; simpl; intros m ->; left; lia).
  rewrite (remove_dups_const 1%nat); [done|by destruct ms|].
  by apply Forall_fmap.
Qed.

Lemma lookup_concat_uniform {A} (Ls : list (list A)) (C k i : nat) :
  Forall (λ L, length L = C) Ls → (i < C)%nat →
  concat Ls !! (k * C + i)%nat = Ls !! k ≫= (.!! i).
Proof.
  intros Hall Hi. revert k.
  induction Hall as [|L Ls HL Hall IH]; intros k; [done|]. simpl.
  destruct k as [|k]; simpl.
  - rewrite lookup_app_l by lia. done.
  - rewrite lookup_app_r by lia. rewrite <-IH. f_equal. lia.
Qed.

Lemma length_concat_uniform {A} (Ls : list (list A)) (C : nat) :
  Forall (λ L, length L = C) Ls → length (concat Ls) = (length Ls * C)%nat.
Proof.
  induction 1 as [|L Ls HL _ IH]; [done|]. simpl.
  rewrite length_app, IH. lia.
Qed.

Lemma omap_seq_lookup {A B} (f : A → option B) (l : list A) (j : nat) :
  omap (λ k, l !! (k - j)%nat ≫= f) (seq j (length l)) = omap f l.
Proof.
  revert j. induction l as [|x l IH]; intros j; [done|]. csimpl.
  replace (j - j)%nat with 0%nat by lia. simpl. rewrite <-(IH (S j)).
  assert (omap (λ k, (x :: l) !! (k - j)%nat ≫= f) (seq (S j) (length l))
          = omap (λ k, l !! (k - S j)%nat ≫= f) (seq (S j) (length l))) as ->;
    [|done].
  apply list_omap_ext. apply Forall2_same_length_lookup_2; [done|].
  intros i a b Ha Hb. assert (a = b) as -> by congruence.
  apply lookup_seq in Ha as [-> _].
  replace (S j + i - j)%nat with (S (S j + i - S j)) by lia. done.
Qed.

(** Column [i] of a stack of [P] rows of width [C]. *)
Lemma Matrix_col_concat (Ls : list (list E)) (C i : nat) :
  Forall (λ L, length L = C) Ls → (i < C)%nat →
  Matrix_col (mkMatrix (length Ls) C (concat Ls)) i = omap (.!! i) Ls.
Proof.
  intros Hall Hi. unfold Matrix_col. simpl.
  rewrite <-(omap_seq_lookup _ Ls 0).
  apply list_omap_ext. apply Forall2_same_length_lookup_2; [done|].
  intros k a b Ha Hb. assert (a = b) as -> by congruence.
  rewrite lookup_concat_uniform by done. by rewrite Nat.sub_0_r.
Qed.

End StackFacts.

Section MixedMomentVector.
Context {E : Type} `{Sympy E}.
Implicit Types (amat ymat : list E) (S : Matrix E) (kvec : list Z).
Implicit Types (ekcounter : list (list Z)) (counter : list (Moment E)).

Lemma fst_enumerate {A} (l : list A) :
  fst <$> Py.enumerate l = Py.range_len (length l).
Proof.
  unfold Py.enumerate, Py.range_len.
  rewrite fmap_imap, <-(list_fmap_id (seq 0 _)), <-(imap_seq_0 l id).
  by apply imap_ext.
Qed.

Lemma snd_enumerate {A} (l : list A) : snd <$> Py.enumerate l = l.
Proof.
  unfold Py.enumerate. rewrite fmap_imap.
  transitivity (id <$> l); [|apply list_fmap_id].
  rewrite <-imap_const. by apply imap_ext.
Qed.

Lemma elem_of_enumerate {A} (l : list A) (p : nat * A) :
  p ∈ Py.enumerate l → (p.1 < length l)%nat.
Proof.
  unfold Py.enumerate. intros (i & Hi)%list_elem_of_lookup_1.
  rewrite list_lookup_imap in Hi.
  destruct (l !! i) as [x|] eqn:Hx; [|done].
  simpl in Hi. injection Hi as <-. simpl. by eapply lookup_lt_Some.
Qed.

(** The matrix that [eq_mixedmoments] builds for one pair of a reaction
    and an e-vector. *)
Lemma scaled_expectation counter (f s ke : E) ymat :
  Matrix_scale
    (Matrix_scale
       (mkMatrix (length counter) 1 (taylor_term ymat f <$> counter)) s) ke
  = mkMatrix (length counter) 1
      ((λ c, sp_mul (sp_mul (taylor_term ymat f c) s) ke) <$> counter).
Proof.
  unfold Matrix_scale. simpl. by rewrite <-!list_fmap_compose.
Qed.

Lemma zip3_fmap {A X Y Z W} (F : A → X) (G : A → Y) (K : A → Z)
    (h : X * Y * Z → W) (l : list A) :
  h <$> Py.zip (Py.zip (F <$> l) (G <$> l)) (K <$> l)
  = (λ t, h (F t, G t, K t)) <$> l.
Proof. induction l as [|x l IH]; [done|]. csimpl. by rewrite <-IH. Qed.

(** The tail of [eq_mixedmoments]: stacking the matrices of the pairs,
    reshaping, and summing the columns. *)
Lemma sum_columns_ok {A} (B : list A) counter (term : Moment E → A → E) :
  B ≠ [] →
  let product :=
    (λ t, mkMatrix (length counter) 1 ((λ c, term c t) <$> counter)) <$> B in
  (to_sum ←
     (stacked ← Matrix_stack product;
      first ← Py.getitem product 0;
      reshape stacked (length product) (rows first * cols first));
   summed ← Py.traverse
     (λ i, Py.reduce sp_add (Matrix_col to_sum i))
     (Py.range_len (cols to_sum));
   Matrix_new 1 (length summed) summed)
  = inr (mkMatrix 1 (length counter)
           ((λ c, big_add (term c <$> B)) <$> counter)).
Proof.
  intros HB product.
  assert (Forall (λ L, length L = length counter) (mat <$> product)) as Hlen.
  { apply Forall_fmap, Forall_fmap, Forall_forall. intros t _. simpl.
    by rewrite length_fmap. }
  rewrite Matrix_stack_columns.
  2:{ subst product. by destruct B. }
  2:{ apply Forall_fmap, Forall_forall. by intros t _. }
  assert (∃ b0, Py.getitem product 0
          = inr (mkMatrix (length counter) 1
                   ((λ c, term c b0) <$> counter))) as [b0 Hfirst]
    by (subst product; destruct B as [|b0 B']; [done|by exists b0]).
  cbn [mbind Py.result_bind Py.bind]. rewrite Hfirst.
  cbn [mbind Py.result_bind Py.bind]. unfold reshape. cbn [mat rows cols].
  rewrite decide_True
    by (rewrite (length_concat_uniform _ _ Hlen), length_fmap; lia).
  cbn [mbind Py.result_bind Py.bind mret Py.result_ret Py.ret cols].
  rewrite Nat.mul_1_r.
  rewrite (traverse_range_len_ok _ (λ c, big_add (term c <$> B))).
  - simpl. unfold Matrix_new.
    rewrite decide_True by (rewrite length_fmap; lia).
    by rewrite length_fmap.
  - intros i c Hc. rewrite <-(length_fmap mat product).
    rewrite Matrix_col_concat; [|done|by eapply lookup_lt_Some].
    subst product. rewrite <-list_fmap_compose.
    rewrite omap_fmap.
    rewrite (omap_total _ (term c)).
    + apply reduce_add_ok. by destruct B.
    + intros t _. simpl. by rewrite list_lookup_fmap, Hc.
Qed.

(** C1, as the code has it: for a non-empty propensity vector, a
    non-empty enumeration of e-vectors, a non-empty species vector, and a
    k-vector, e-vectors and a stoichiometry matrix that fit the species
    and the reactions, [eq_mixedmoments] returns a row vector with one
    entry per counter entry; the entry for [c] is the sum over all pairs
    of a reaction and an e-vector of the product of the Taylor term of
    the shifted propensity for [c], the stoichiometry power and the
    binomial term. *)
Theorem eq_mixedmoments_ok amat counter S ymat kvec ekcounter :
  amat ≠ [] → ekcounter ≠ [] → ymat ≠ [] →
  length kvec = length ymat →
  Forall (λ e, length e = length ymat) ekcounter →
  wf_Matrix S → rows S = length ymat → cols S = length amat →
  eq_mixedmoments amat counter S ymat kvec ekcounter
  = inr (mkMatrix 1 (length counter)
           (mixed_moment_entry amat S ymat kvec ekcounter <$> counter)).
Proof.
  intros Ha Hek Hy Hk Hes Hwf Hrows Hcols.
  pose proof (proj1 (nonempty_length _) Hy) as Hy'.
  set (B := reaction_e_pairs (Py.enumerate amat) ekcounter).
  assert (B ≠ []) as HB.
  { apply nonempty_length. unfold B.
    rewrite length_reaction_e_pairs. unfold Py.enumerate.
    rewrite length_imap. apply nonempty_length in Ha, Hek. nia. }
  assert (∀ t, t ∈ B → length t.2 = length ymat ∧ (t.1.1 < cols S)%nat)
    as HBin.
  { intros t [Ht1 Ht2]%elem_of_reaction_e_pairs. split.
    - rewrite Forall_forall in Hes. by apply Hes.
    - rewrite Hcols. by apply elem_of_enumerate. }
  unfold eq_mixedmoments.
  rewrite <-(snd_enumerate amat) at 1. rewrite product_snd. fold B.
  rewrite traverse_fmap.
  rewrite (traverse_ok _ (λ t, shifted_propensity ymat kvec t.2 t.1.2)).
  2:{ intros [[r reac] e] [He _]%HBin. simpl in *.
      apply make_f_of_x_ok; [done|lia..]. }
  cbn [mbind Py.result_bind Py.bind]. rewrite traverse_fmap.
  rewrite (traverse_ok _
    (λ t, mkMatrix (length counter) 1
            (taylor_term ymat (shifted_propensity ymat kvec t.2 t.1.2)
             <$> counter))).
  2:{ intros t _. apply make_f_expectation_ok. }
  cbn [mbind Py.result_bind Py.bind].
  rewrite <-fst_enumerate, product_fst. fold B.
  rewrite traverse_fmap.
  rewrite (traverse_ok _ (λ t, stoichiometry_power S t.1.1 t.2)).
  2:{ intros [[r reac] e] [He Hr]%HBin. simpl in *.
      apply make_s_pow_e_ok; [done..| |lia].
      apply nonempty_length. lia. }
  cbn [mbind Py.result_bind Py.bind].
  rewrite (traverse_ok _ (binomial_term kvec)).
  2:{ intros e He. rewrite Forall_forall in Hes. specialize (Hes e He).
      apply make_k_chose_e_ok; apply nonempty_length; lia. }
  cbn [mbind Py.result_bind Py.bind mret Py.result_ret Py.ret].
  rewrite <-(length_imap pair amat).
  change (imap pair amat) with (Py.enumerate amat).
  rewrite repeat_list_pairs. fold B.
  cbv zeta. rewrite zip3_fmap.
  erewrite list_fmap_ext; [|intros i t _; apply scaled_expectation].
  apply (sum_columns_ok B counter (mixed_moment_term S ymat kvec) HB).
Qed.

End MixedMomentVector.

(** ** ODE problems *)

Section ODEProblemFacts.
Context {E : Type}.
Implicit Types (lhs rhs cs : Matrix E) (moments : list (list Z)).

Lemma length_remove_dups_le {A} `{EqDecision A} (l : list A) :
  (length (remove_dups l) ≤ length l)%nat.
Proof.
  induction l as [|x l IH]; simpl; [done|].
  destruct (decide_rel _ _ _); simpl; lia.
Qed.

Lemma length_remove_dups_NoDup {A} `{EqDecision A} (l : list A) :
  length (remove_dups l) = length l ↔ NoDup l.
Proof.
  induction l as [|x l IH]; simpl.
  - split; [constructor|done].
  - rewrite NoDup_cons. pose proof (length_remove_dups_le l).
    destruct (decide_rel _ _ _) as [Hin|Hnin]; simpl.
    + split; [lia|]. by intros [? _].
    + rewrite <-IH. split; [|lia]. intros Hl. split; [done|lia].
Qed.

Lemma dom_foldl_insert (l : list (nat * list Z)) (acc : gmap (list Z) nat) :
  dom (foldl (λ dic_out '(i, m), <[m := i]> dic_out) acc l)
  = dom acc ∪ list_to_set (snd <$> l).
Proof.
  revert acc. induction l as [|[i m] l IH]; intros acc; simpl.
  - set_solver.
  - rewrite IH, dom_insert_L. set_solver.
Qed.

Lemma lookup_foldl_insert (l : list (nat * list Z)) (acc : gmap (list Z) nat)
    (m : list Z) (i : nat) :
  NoDup (snd <$> l) →
  foldl (λ dic_out '(i, m), <[m := i]> dic_out) acc l !! m = Some i ↔
  (i, m) ∈ l ∨ (¬ m ∈ l.*2) ∧ acc !! m = Some i.
Proof.
  revert acc. induction l as [|[i0 m0] l IH]; intros acc Hnd; simpl.
  - rewrite elem_of_nil. set_solver.
  - rewrite fmap_cons in Hnd. apply NoDup_cons in Hnd as [Hm0 Hnd].
    rewrite IH by done. rewrite elem_of_cons. simpl.
    destruct (decide (m = m0)) as [->|Hne].
    + rewrite lookup_insert_eq, elem_of_cons. split.
      * intros [Hin|[_ [= ->]]]; [|by left; left].
        destruct Hm0. apply list_elem_of_fmap. by exists (i, m0).
      * intros [[[= ->]|Hin]|[Hn _]]; [by right| |by destruct Hn; left].
        destruct Hm0. apply list_elem_of_fmap. by exists (i, m0).
    + rewrite lookup_insert_ne, elem_of_cons by done. split.
      * intros [?|[? ?]]; [by left; right|right]. split; [|done].
        by intros [?|?].
      * intros [[[= _ ?]|?]|[Hn ?]]; [done|by left|right].
        split; [|done]. intros ?. apply Hn. by right.
Qed.

(** The moment mapping has one entry per distinct tuple. *)
Lemma size_make_moment_dic moments :
  size (make_moment_dic moments) = length (remove_dups moments).
Proof.
  rewrite <-(size_dom (D:=gset (list Z))). unfold make_moment_dic.
  rewrite dom_foldl_insert, dom_empty_L, (left_id_L ∅ (∪)).
  unfold Py.enumerate.
  assert (snd <$> imap pair moments = moments) as ->.
  { rewrite fmap_imap. transitivity (id <$> moments); [|apply list_fmap_id].
    rewrite <-imap_const. by apply imap_ext. }
  rewrite <-(size_list_to_set (C:=gset (list Z)) (remove_dups moments))
    by apply NoDup_remove_dups.
  f_equal. apply set_eq. intros x.
  by rewrite !elem_of_list_to_set, elem_of_remove_dups.
Qed.

(** For pairwise distinct tuples the mapping sends the [i]-th moment to
    [i]. *)
Lemma lookup_make_moment_dic moments (m : list Z) (i : nat) :
  NoDup moments →
  make_moment_dic moments !! m = Some i ↔ moments !! i = Some m.
Proof.
  intros Hnd. unfold make_moment_dic, Py.enumerate.
  assert (snd <$> imap pair moments = moments) as Hsnd.
  { rewrite fmap_imap. transitivity (id <$> moments); [|apply list_fmap_id].
    rewrite <-imap_const. by apply imap_ext. }
  rewrite lookup_foldl_insert by (by rewrite Hsnd).
  rewrite lookup_empty, list_elem_of_lookup. split.
  - intros [[j Hj]|[_ ?]]; [|done]. rewrite list_lookup_imap in Hj.
    destruct (moments !! j) eqn:Hmj; simplify_eq/=. done.
  - intros Hi. left. exists i. by rewrite list_lookup_imap, Hi.
Qed.

Lemma format_rows (a b : Z) :
  Py.format
    "There is i% left hand side equations and %i right hand side ones. The same number is expected."
    [a; b]
  = inr [Py.Text "There is i"; Py.Conv "e" true a;
         Py.Text "ft hand side equations and "; Py.Conv "i" false b;
         Py.Text " right hand side ones. The same number is expected."].
Proof. reflexivity. Qed.

Lemma format_moments (a b : Z) :
  Py.format
    "There is i% equations and %i hand side and %i moments. The same number is expected."
    [a; b]
  = inl (Py.TypeError [Py.Text "not enough arguments for format string"]).
Proof. reflexivity. Qed.

Lemma ODEProblem_init_rows lhs rhs cs moments :
  rows lhs ≠ rows rhs →
  ODEProblem_init lhs rhs cs moments
  = inl (Py.ValueError
      [Py.Text "There is i"; Py.Conv "e" true (Z.of_nat (rows lhs));
       Py.Text "ft hand side equations and ";
       Py.Conv "i" false (Z.of_nat (rows rhs));
       Py.Text " right hand side ones. The same number is expected."]).
Proof.
  intros Hne. unfold ODEProblem_init, validate. cbn [left_hand_side
    right_hand_side]. rewrite decide_True by done.
  by rewrite format_rows.
Qed.

Lemma ODEProblem_init_moments lhs rhs cs moments :
  rows lhs = rows rhs →
  rows lhs ≠ length (remove_dups moments) →
  ODEProblem_init lhs rhs cs moments
  = inl (Py.TypeError [Py.Text "not enough arguments for format string"]).
Proof.
  intros Heq Hne. unfold ODEProblem_init, validate. cbn [left_hand_side
    right_hand_side moment_dic]. rewrite decide_False by (by intros ?).
  rewrite decide_True by (by rewrite size_make_moment_dic).
  by rewrite format_moments.
Qed.

Lemma ODEProblem_init_ok lhs rhs cs moments :
  rows lhs = rows rhs →
  rows lhs = length (remove_dups moments) →
  ODEProblem_init lhs rhs cs moments
  = inr (mkODEProblem lhs rhs (mat cs) (make_moment_dic moments)).
Proof.
  intros Heq Hm. unfold ODEProblem_init, validate. cbn [left_hand_side
    right_hand_side moment_dic]. rewrite decide_False by (by intros ?).
  rewrite decide_False; [done|]. rewrite size_make_moment_dic. by intros ?.
Qed.

(** C8, as the code has it: construction raises a [ValueError] whose
    message is formatted from the two row counts when the left-hand side
    and the right-hand side differ in their number of rows; it returns a
    problem exactly when the rows of the left-hand side, the rows of the
    right-hand side and the number of distinct moment tuples agree, and
    the problem then holds the two sides as given, the entries of the
    constants and the moment mapping; equal lengths with pairwise
    distinct moments are such a case. *)
Theorem ODEProblem_init_checks lhs rhs cs moments :
  (rows lhs ≠ rows rhs →
   ∃ msg, ODEProblem_init lhs rhs cs moments = inl (Py.ValueError msg) ∧
          Py.Conv "e" true (Z.of_nat (rows lhs)) ∈ msg ∧
          Py.Conv "i" false (Z.of_nat (rows rhs)) ∈ msg) ∧
  (Py.returns (ODEProblem_init lhs rhs cs moments) ↔
   rows lhs = rows rhs ∧ rows lhs = length (remove_dups moments)) ∧
  (∀ p, ODEProblem_init lhs rhs cs moments = inr p →
        p = mkODEProblem lhs rhs (mat cs) (make_moment_dic moments)) ∧
  (rows lhs = rows rhs → rows lhs = length moments → NoDup moments →
   ODEProblem_init lhs rhs cs moments
   = inr (mkODEProblem lhs rhs (mat cs) (make_moment_dic moments))).
Proof.
  split_and!.
  - intros Hne. eexists. split; [by apply ODEProblem_init_rows|].
    split; set_solver.
  - split.
    + intros [p Hp].
      destruct (decide (rows lhs = rows rhs)) as [Heq|Hne];
        [|by rewrite ODEProblem_init_rows in Hp].
      split; [done|].
      destruct (decide (rows lhs = length (remove_dups moments)));
        [done|by rewrite ODEProblem_init_moments in Hp].
    + intros [Heq Hm]. eexists. by apply ODEProblem_init_ok.
  - intros p Hp.
    destruct (decide (rows lhs = rows rhs)) as [Heq|Hne];
      [|by rewrite ODEProblem_init_rows in Hp].
    destruct (decide (rows lhs = length (remove_dups moments))) as [Hm|Hm];
      [|by rewrite ODEProblem_init_moments in Hp].
    rewrite ODEProblem_init_ok in Hp by done. congruence.
  - intros Heq Hm Hnd. apply ODEProblem_init_ok; [done|].
    apply length_remove_dups_NoDup in Hnd. lia.
Qed.

(** A tuple given twice, with as many rows on both sides as there are
    tuples, always ends in the [TypeError] of the message that cannot be
    formatted. *)
Lemma ODEProblem_init_duplicates lhs rhs cs moments :
  rows lhs = rows rhs → rows lhs = length moments → ¬ NoDup moments →
  ODEProblem_init lhs rhs cs moments
  = inl (Py.TypeError [Py.Text "not enough arguments for format string"]).
Proof.
  intros Heq Hlen Hdup. apply ODEProblem_init_moments; [done|].
  intros Hm. apply Hdup, length_remove_dups_NoDup. lia.
Qed.

End ODEProblemFacts.

Lemma ODEProblem_init_checks_witness :
  (∃ msg,
     ODEProblem_init (mkMatrix 2 1 [TS "y_0"; TS "yx2"])
       (mkMatrix 1 1 [TS "c_0"]) (mkMatrix 1 1 [TS "c_0"]) [[1]; [2]]
     = inl (Py.ValueError msg) ∧
     Py.Conv "e" true 2 ∈ msg ∧ Py.Conv "i" false 1 ∈ msg) ∧
  ODEProblem_init (mkMatrix 2 1 [TS "y_0"; TS "yx2"])
    (mkMatrix 2 1 [TS "c_0*y_0"; TS "c_0*yx2"]) (mkMatrix 1 1 [TS "c_0"])
    [[1]; [2]]
  = inr (mkODEProblem (mkMatrix 2 1 [TS "y_0"; TS "yx2"])
           (mkMatrix 2 1 [TS "c_0*y_0"; TS "c_0*yx2"]) [TS "c_0"]
           (make_moment_dic [[1]; [2]])).
Proof.
  split.
  - apply (ODEProblem_init_checks (mkMatrix 2 1 [TS "y_0"; TS "yx2"])
             (mkMatrix 1 1 [TS "c_0"]) (mkMatrix 1 1 [TS "c_0"]) [[1]; [2]]).
    simpl. lia.
  - apply (ODEProblem_init_checks (mkMatrix 2 1 [TS "y_0"; TS "yx2"])
             (mkMatrix 2 1 [TS "c_0*y_0"; TS "c_0*yx2"])
             (mkMatrix 1 1 [TS "c_0"]) [[1]; [2]]); [done|done|].
    repeat constructor; set_solver.
Defined.

(** C8 as stated fails: two rows on each side and two moments, which are
    equal, are not accepted. *)
Lemma ODEProblem_init_equal_lengths_rejected :
  ¬ Py.returns
      (ODEProblem_init
         (mkMatrix 2 1 [TS "y_0"; TS "y_1"]) (mkMatrix 2 1 [TS "c_0"; TS "c_1"])
         (mkMatrix 1 1 [TS "c_0"]) [[1; 0]; [1; 0]]).
Proof. intros [p Hp]. vm_compute in Hp. discriminate. Qed.

(** C10: with two rows on each side and the same tuple given twice, the
    mapping has one entry, the second check of [validate] fires, and its
    message cannot be formatted: a [TypeError] is raised where a
    [ValueError] was meant. *)
Theorem ODEProblem_init_duplicate_moments :
  ODEProblem_init
    (mkMatrix 2 1 [TS "y_0"; TS "y_1"]) (mkMatrix 2 1 [TS "c_0"; TS "c_1"])
    (mkMatrix 1 1 [TS "c_0"]) [[1; 0]; [1; 0]]
  = inl (Py.TypeError [Py.Text "not enough arguments for format string"]).
Proof. vm_compute. reflexivity. Qed.

(** ** Construction of the approximation *)

Section ConstructionFacts.
Context {Model CloserArgs Closer : Type}.
Context (new_closer : CloserClass → Z → CloserArgs → Py.result Closer).
Context (repr_supported_closers : string).

Abbreviation init := (MomentExpansionApproximation_init new_closer
                        repr_supported_closers).

Lemma supported_closers_lookup (closer : string) :
  supported_closers !! closer
  = if decide (closer = "log-normal") then Some LogNormalCloser
    else if decide (closer = "zero") then Some ZeroCloser
    else if decide (closer = "normal") then Some NormalCloser
    else None.
Proof.
  unfold supported_closers.
  repeat (case_decide; [subst; by simplify_map_eq|]).
  by simplify_map_eq.
Qed.

(** C7: a closure name other than zero, normal and log-normal makes the
    constructor raise a [KeyError], so that nothing that runs on the
    constructed object is ever started; each of the three names selects
    its closer class, and the constructor returns the object built with
    what that class constructs. *)
Theorem closer_selection (model : Model) (n_moments : Z) (closer : string)
    (closer_args : CloserArgs) :
  (closer ∉ ["zero"; "normal"; "log-normal"] →
   ∃ msg,
     init model n_moments closer closer_args = inl (Py.KeyError msg) ∧
     ∀ (Problem : Type)
       (run : MomentExpansionApproximation (Model:=Model) (Closer:=Closer)
              → Py.result Problem),
       approximate new_closer repr_supported_closers run model n_moments
         closer closer_args
       = inl (Py.KeyError msg)) ∧
  (closer ∈ ["zero"; "normal"; "log-normal"] →
   ∃ cls,
     supported_closers !! closer = Some cls ∧
     init model n_moments closer closer_args
     = (c ← new_closer cls n_moments closer_args;
        mret (mkMEA model n_moments c)) ∧
     ∀ c, new_closer cls n_moments closer_args = inr c →
          init model n_moments closer closer_args
          = inr (mkMEA model n_moments c)) ∧
  supported_closers !! "zero" = Some ZeroCloser ∧
  supported_closers !! "normal" = Some NormalCloser ∧
  supported_closers !! "log-normal" = Some LogNormalCloser.
Proof.
  split_and!; [| |done..].
  - intros Hnot. eexists. unfold approximate, MomentExpansionApproximation_init.
    rewrite supported_closers_lookup.
    repeat (case_decide;
      [subst; destruct Hnot; rewrite !elem_of_cons; auto|]).
    split; [reflexivity|]. by intros Problem run.
  - intros Hin. unfold MomentExpansionApproximation_init.
    rewrite supported_closers_lookup.
    repeat (case_decide;
      [eexists; split_and!; [reflexivity|reflexivity|by intros c ->]|]).
    rewrite !elem_of_cons, elem_of_nil in Hin. naive_solver.
Qed.

End ConstructionFacts.

Lemma closer_selection_witness :
  (∃ msg,
     MomentExpansionApproximation_init (Model:=unit)
       (λ cls _ (_ : unit), inr cls) "{...}" tt 2 "gamma" tt
     = inl (Py.KeyError msg)) ∧
  (∃ cls,
     supported_closers !! "normal" = Some cls ∧
     MomentExpansionApproximation_init (Model:=unit)
       (λ cls _ (_ : unit), inr cls) "{...}" tt 2 "normal" tt
     = inr (mkMEA tt 2 cls)).
Proof.
  split.
  - destruct (proj1 (closer_selection (Model:=unit)
                       (λ cls _ (_ : unit), inr cls) "{...}" tt 2 "gamma" tt))
      as (msg & Hmsg & _);
      [rewrite !elem_of_cons, elem_of_nil; by intros [?|[?|[?|?]]]|].
    by exists msg.
  - destruct (proj1 (proj2 (closer_selection (Model:=unit)
                       (λ cls _ (_ : unit), inr cls) "{...}" tt 2 "normal" tt)))
      as (cls & Hcls & _ & Hinit); [rewrite !elem_of_cons; auto|].
    exists cls. split; [done|]. by apply Hinit.
Defined.

(** ** Reading a problem back *)

Section ParseFacts.
Context {E : Type} `{Sympy E}.
Context (eval_tuple : string → Py.result (list Z)).

(** A line without a colon that is empty once stripped leaves the state of
    the loop as it is: blank lines are skipped wherever they stand. *)
Lemma parse_step_blank (st : gmap string (list string) * option string)
    (line : string) :
  Py.contains ":" line = false → Py.rstrip line = EmptyString →
  parse_step st line = st.
Proof.
  intros Hc Hr. destruct st as [all_fields [f|]]; simpl; rewrite Hc; [|done].
  case_decide; [|done]. rewrite Hr. by rewrite decide_False by (by intros ?).
Qed.

Lemma parse_fields_blank (before after : list string) (line : string) :
  Py.contains ":" line = false → Py.rstrip line = EmptyString →
  parse_fields (before ++ line :: after) = parse_fields (before ++ after).
Proof.
  intros Hc Hr. unfold parse_fields.
  rewrite !foldl_app. simpl. by rewrite parse_step_blank.
Qed.

Lemma parse_lines_no_rhs (input_filename : string) (lines : list string) :
  parse_fields lines !! STRING_RIGHT_HAND = None →
  parse_lines eval_tuple input_filename lines
  = ([missing_field STRING_RIGHT_HAND input_filename],
     inl (Py.KeyError [Py.Text STRING_RIGHT_HAND])).
Proof. intros Hr. unfold parse_lines. by rewrite Hr. Qed.

Lemma parse_lines_no_lhs (input_filename : string) (lines rhs_lines : list string)
    (rhs : list E) :
  parse_fields lines !! STRING_RIGHT_HAND = Some rhs_lines →
  Py.traverse (λ l, e ← sympify l; mret (sp_simplify e)) rhs_lines = inr rhs →
  parse_fields lines !! STRING_LEFT_HAND = None →
  parse_lines eval_tuple input_filename lines
  = ([missing_field STRING_LEFT_HAND input_filename],
     inl (Py.KeyError [Py.Text STRING_LEFT_HAND])).
Proof. intros Hr Hrp Hl. unfold parse_lines. by rewrite Hr, Hrp, Hl. Qed.

Lemma parse_lines_no_constants (input_filename : string)
    (lines rhs_lines lhs_lines : list string) (rhs lhs : list E) :
  parse_fields lines !! STRING_RIGHT_HAND = Some rhs_lines →
  Py.traverse (λ l, e ← sympify l; mret (sp_simplify e)) rhs_lines = inr rhs →
  parse_fields lines !! STRING_LEFT_HAND = Some lhs_lines →
  Py.traverse sympify lhs_lines = inr lhs →
  parse_fields lines !! STRING_CONSTANT = None →
  parse_lines eval_tuple input_filename lines
  = ([missing_field STRING_CONSTANT input_filename],
     inl (Py.KeyError [Py.Text STRING_CONSTANT])).
Proof.
  intros Hr Hrp Hl Hlp Hc. unfold parse_lines.
  by rewrite Hr, Hrp, Hl, Hlp, Hc.
Qed.

(** Without the list of moments the lookup fails on its own key, but the
    message that is printed names the constants. *)
Lemma parse_lines_no_moments (input_filename : string)
    (lines rhs_lines lhs_lines constant_lines : list string)
    (rhs lhs cs : list E) :
  parse_fields lines !! STRING_RIGHT_HAND = Some rhs_lines →
  Py.traverse (λ l, e ← sympify l; mret (sp_simplify e)) rhs_lines = inr rhs →
  parse_fields lines !! STRING_LEFT_HAND = Some lhs_lines →
  Py.traverse sympify lhs_lines = inr lhs →
  parse_fields lines !! STRING_CONSTANT = Some constant_lines →
  Py.traverse sympify constant_lines = inr cs →
  parse_fields lines !! STRING_MOM = None →
  parse_lines eval_tuple input_filename lines
  = ([missing_field STRING_CONSTANT input_filename],
     inl (Py.KeyError [Py.Text STRING_MOM])).
Proof.
  intros Hr Hrp Hl Hlp Hc Hcp Hm. unfold parse_lines.
  by rewrite Hr, Hrp, Hl, Hlp, Hc, Hcp, Hm.
Qed.

End ParseFacts.


(** C9: on a file that has every section but the list of moments,
    [parse_model] prints that the field [Constants:] is not in the input
    file, although the file has that section, and then fails with the
    [KeyError] of the key [List of moments:]. *)
Theorem parse_model_names_wrong_section
    (eval_tuple : string → Py.result (list Z)) :
  parse_fields lines_without_moments !! "Constants:" = Some ["c_0"] ∧
  parse_fields lines_without_moments !! "List of moments:" = None ∧
  parse_model (E:=term) eval_tuple (λ _, lines_without_moments)
    "model.txt" false
  = ([missing_field "Constants:" "model.txt"],
     inl (Py.KeyError [Py.Text "List of moments:"])).
Proof. split_and!; vm_compute; reflexivity. Qed.

Example parse_model_complete :
  parse_model (E:=term) (λ _, inr [1])
    (λ _, lines_without_moments ++ ["List of moments:"; EmptyString; "[1]"; EmptyString])
    "model.txt" false
  = ([], inr (mkODEProblem (mkMatrix 1 1 [TS "y_0"])
                (mkMatrix 1 1 [TSimplify (TS "-c_0*y_0")]) [TS "c_0"]
                {[ [1] := 0%nat ]})).
Proof. vm_compute. reflexivity. Qed.

(** ** Raw elimination *)

Section SubstitutionFacts.
Context {E : Type} `{Sympy E}.
Implicit Types (exprs : Matrix E) (cfr : list E).
Implicit Types (n_counter k_counter R C : list (Moment E)).

Lemma zip_with_nil_r {A B X} (f : A → B → X) (l : list A) :
  zip_with f l [] = [].
Proof. by destruct l. Qed.

(** The pairs the loop runs over, read off the elimination steps. *)
Lemma solved_steps R C cfr :
  Py.zip (symbol <$> R)
    ((λ '(rhs, rlhs), sp_solve rhs rlhs)
     <$> Py.zip
           ((λ '(cs, cfr), sp_sub cfr cs) <$> Py.zip (symbol <$> C) cfr)
           (symbol <$> R))
  = (λ '(raw, central, e),
       (symbol raw, sp_solve (sp_sub e (symbol central)) (symbol raw)))
    <$> Py.zip (Py.zip R C) cfr.
Proof.
  unfold Py.zip. revert C cfr.
  induction R as [|r R IH]; intros [|c C] [|e cfr]; csimpl;
    rewrite ?zip_with_nil_r; try done.
  by rewrite IH.
Qed.

Lemma substitute_raw_with_central_eq exprs cfr n_counter k_counter :
  substitute_raw_with_central exprs cfr n_counter k_counter
  = eliminate_then_simplify exprs (elimination_steps cfr n_counter k_counter).
Proof.
  unfold substitute_raw_with_central, eliminate_then_simplify,
    elimination_steps.
  rewrite solved_steps, <-fmap_reverse, foldl_fmap. f_equal.
  generalize (reverse (Py.zip
    (Py.zip (filter (λ raw, order raw > 1) k_counter)
       (filter (λ central, order central > 1) n_counter)) cfr)).
  intros l. revert exprs. induction l as [|[[raw central] e] l IH];
    intros exprs; simpl; [done|]. by rewrite IH.
Qed.

Lemma StronglySorted_reverse {A} (R : relation A) (l : list A) :
  StronglySorted R l → StronglySorted (flip R) (reverse l).
Proof.
  induction 1 as [|x l Hl IH Hx]; [constructor|].
  rewrite reverse_cons. apply StronglySorted_app_2.
  - intros y z Hy ->%list_elem_of_singleton. rewrite elem_of_reverse in Hy.
    rewrite Forall_forall in Hx. by apply Hx.
  - exact IH.
  - repeat constructor.
Qed.

Lemma StronglySorted_zip_fst {A B} (R : relation A) (l : list A)
    (k : list B) :
  StronglySorted R l → StronglySorted (λ p q, R p.1 q.1) (zip l k).
Proof.
  intros Hl. revert k. induction Hl as [|x l Hl IH Hx]; intros k.
  { constructor. }
  destruct k as [|y k]; simpl; constructor; [apply IH|].
  apply Forall_forall. intros [a b] Hab. simpl.
  eapply (proj1 (Forall_forall _ _) Hx), elem_of_zip_l, Hab.
Qed.

Lemma counter_lt_order (x y : list Z) : counter_lt x y → Py.sum x ≤ Py.sum y.
Proof. intros [?|[? _]]; lia. Qed.

End SubstitutionFacts.

Section SubstitutionTheorem.
Context {E : Type} `{Sympy E}.
Implicit Types (exprs : Matrix E) (cfr : list E) (species : list E).

Lemma StronglySorted_fmap_inv {A B} (f : A → B) (R1 : relation A)
    (R2 : relation B) (l : list A) :
  (∀ x y, R2 (f x) (f y) → R1 x y) →
  StronglySorted R2 (f <$> l) → StronglySorted R1 l.
Proof.
  intros HR. induction l as [|x l IH]; [constructor|].
  rewrite fmap_cons. intros [Hx Hl]%StronglySorted_cons.
  constructor; [by apply IH|].
  rewrite Forall_fmap in Hx. eapply Forall_impl; [done|]. simpl. auto.
Qed.

Lemma zip_same_vectors (R C : list (Moment E)) :
  n_vector <$> R = n_vector <$> C →
  Forall (λ p, n_vector p.1 = n_vector p.2) (zip R C).
Proof.
  revert C. induction R as [|r R IH]; intros [|c C] Heq; simplify_eq/=;
    constructor; [done|by apply IH].
Qed.

(** C6, as the code has it: on the counters that counter generation
    returns, every elimination step solves [central symbol -
    central-from-raw expression = 0] (up to the sign of the left-hand
    side) for the raw symbol whose multi-index is that of the central
    symbol and substitutes the solution; the steps run over the raw
    moments of order above one from the last to the first, that is in
    descending order; the expressions are simplified once, after the
    last substitution. *)
Theorem raw_elimination (N : Z) species exprs cfr
    (n_counter k_counter : list (Moment E)) :
  generate_n_and_k_counters N species = inr (n_counter, k_counter) →
  substitute_raw_with_central exprs cfr n_counter k_counter
  = eliminate_then_simplify exprs (elimination_steps cfr n_counter k_counter) ∧
  Forall (λ step, order step.1.1 > 1 ∧
                  n_vector step.1.1 = n_vector step.1.2)
    (elimination_steps cfr n_counter k_counter) ∧
  StronglySorted (λ s1 s2, order s2.1.1 ≤ order s1.1.1)
    (reverse (elimination_steps cfr n_counter k_counter)) ∧
  (length cfr = length (filter (λ raw, order raw > 1) k_counter) →
   (λ step, step.1.1) <$> elimination_steps cfr n_counter k_counter
   = filter (λ raw, order raw > 1) k_counter).
Proof.
  rewrite generate_n_and_k_counters_eq. intros [= <- <-].
  pose proof (higher_raw_vectors N species) as HR.
  pose proof (higher_central_vectors N species) as HC.
  rewrite <-filter_higher_raw in HR. rewrite <-filter_higher_central in HC.
  set (R := filter (λ raw, order raw > 1) (raw_counter N species)) in *.
  set (C := filter (λ central, order central > 1)
              (central_counter N species)) in *.
  assert (length C = length R) as HCR
    by (by rewrite <-(length_fmap n_vector C), HC, <-HR, length_fmap).
  split_and!.
  - apply substitute_raw_with_central_eq.
  - unfold elimination_steps, Py.zip. fold R C.
    apply Forall_forall. intros [[raw central] e] Hin. simpl.
    apply elem_of_zip_l in Hin. split.
    + apply elem_of_zip_l in Hin. unfold R in Hin.
      by apply list_elem_of_filter in Hin as [? _].
    + pose proof (zip_same_vectors R C) as Hv.
      rewrite Forall_forall in Hv. apply (Hv ltac:(congruence) _ Hin).
  - apply (StronglySorted_reverse (λ s1 s2, order s1.1.1 ≤ order s2.1.1)).
    unfold elimination_steps, Py.zip. fold R C.
    apply (StronglySorted_zip_fst (λ p q, order p.1 ≤ order q.1)).
    apply (StronglySorted_zip_fst (λ a b, order a ≤ order b)).
    apply (StronglySorted_fmap_inv n_vector _ counter_lt).
    + intros x y. apply counter_lt_order.
    + rewrite HR. apply k_counter_descriptors_sorted.
  - intros Hlen. unfold elimination_steps, Py.zip. fold R C.
    change (λ step : Moment E * Moment E * E, step.1.1) with
      (fst ∘ fst : Moment E * Moment E * E → Moment E).
    rewrite (list_fmap_compose fst fst), !fst_zip; [done|lia|].
    rewrite length_zip_with. fold R in Hlen. lia.
Qed.

End SubstitutionTheorem.


Lemma raw_elimination_witness :
  substitute_raw_with_central central_moments_1_3 central_from_raw_1_3
    central_counter_1_3 raw_counter_1_3
  = eliminate_then_simplify central_moments_1_3
      (elimination_steps central_from_raw_1_3 central_counter_1_3
         raw_counter_1_3) ∧
  Forall (λ step, order step.1.1 > 1 ∧
                  n_vector step.1.1 = n_vector step.1.2)
    (elimination_steps central_from_raw_1_3 central_counter_1_3
       raw_counter_1_3) ∧
  StronglySorted (λ s1 s2, order s2.1.1 ≤ order s1.1.1)
    (reverse (elimination_steps central_from_raw_1_3 central_counter_1_3
                raw_counter_1_3)) ∧
  (length central_from_raw_1_3
   = length (filter (λ raw, order raw > 1) raw_counter_1_3) →
   (λ step, step.1.1)
   <$> elimination_steps central_from_raw_1_3 central_counter_1_3
         raw_counter_1_3
   = filter (λ raw, order raw > 1) raw_counter_1_3).
Proof.
  apply (raw_elimination 3 [TS "y_0"]). vm_compute. reflexivity.
Defined.

(** C6 as stated fails: with two raw moments to eliminate, the result is
    not the one of simplifying after each substitution. *)
Lemma substitution_simplifies_once :
  substitute_raw_with_central central_moments_1_3 central_from_raw_1_3
    central_counter_1_3 raw_counter_1_3
  ≠ eliminate_simplifying_each central_moments_1_3
      (elimination_steps central_from_raw_1_3 central_counter_1_3
         raw_counter_1_3).
Proof. vm_compute. discriminate. Qed.

(** ** The statements at sample inputs *)

Lemma mixed_moment_factors_witness :
  make_f_of_x dimerisation_species [2] [1] (TS "c_0*y_0*(y_0-1)")
  = inr (shifted_propensity dimerisation_species [2] [1]
           (TS "c_0*y_0*(y_0-1)")) ∧
  make_s_pow_e dimerisation_stoichiometry 1 [1]
  = inr (stoichiometry_power dimerisation_stoichiometry 1 [1]) ∧
  make_k_chose_e [1] [2] = inr (binomial_term [2] [1]) ∧
  make_f_expectation dimerisation_species (TS "f") dimerisation_counter
  = inr (mkMatrix 2 1
           (taylor_term dimerisation_species (TS "f")
            <$> dimerisation_counter)).
Proof.
  apply (mixed_moment_factors dimerisation_species [2] [1]
           (TS "c_0*y_0*(y_0-1)") (TS "f") dimerisation_stoichiometry 1
           dimerisation_counter); (done || reflexivity || (simpl; lia)).
Defined.

(** C2 as stated fails: without species, [make_f_of_x] raises instead of
    returning the propensity times an empty product; with a k-vector
    shorter than the species vector it raises as well. *)
Lemma make_f_of_x_degenerate :
  make_f_of_x [] [] [] (TS "c_0")
  = inl (Py.TypeError
           [Py.Text "reduce() of empty sequence with no initial value"]) ∧
  make_f_of_x [] [] [] (TS "c_0")
  ≠ inr (shifted_propensity [] [] [] (TS "c_0")) ∧
  make_f_of_x [TS "y_0"; TS "y_1"] [1] [0; 0] (TS "c_0")
  = inl (Py.IndexError [Py.Text "list index out of range"]).
Proof. split_and!; [reflexivity|discriminate|reflexivity]. Qed.

Lemma eq_mixedmoments_ok_witness :
  eq_mixedmoments dimerisation_propensities dimerisation_counter
    dimerisation_stoichiometry dimerisation_species [2] [[1]; [2]]
  = inr (mkMatrix 1 2
           (mixed_moment_entry dimerisation_propensities
              dimerisation_stoichiometry dimerisation_species [2] [[1]; [2]]
            <$> dimerisation_counter)).
Proof.
  apply (eq_mixedmoments_ok dimerisation_propensities dimerisation_counter
           dimerisation_stoichiometry dimerisation_species [2] [[1]; [2]]);
    (done || reflexivity || (repeat constructor)).
Defined.

(** C1 as stated fails: without reactions there is no first matrix to
    take the width from, and [eq_mixedmoments] raises although the
    enumeration of e-vectors is not empty; without species the product of
    the powers of the species cannot be formed. *)
Lemma eq_mixedmoments_degenerate :
  eq_mixedmoments [] dimerisation_counter (mkMatrix 1 0 [])
    dimerisation_species [2] [[1]; [2]]
  = inl (Py.IndexError [Py.Text "list index out of range"]) ∧
  eq_mixedmoments dimerisation_propensities [mkMoment [] (TInteger 1)]
    (mkMatrix 0 2 []) [] [] [[]]
  = inl (Py.TypeError
           [Py.Text "reduce() of empty sequence with no initial value"]).
Proof. split; vm_compute; reflexivity. Qed.

Example eq_mixedmoments_dimerisation_first_entry :
  ∃ row, eq_mixedmoments dimerisation_propensities [mkMoment [0] (TInteger 1)]
           dimerisation_stoichiometry dimerisation_species [1] [[1]]
         = inr (mkMatrix 1 1 [row]) ∧
  row = TAdd
    (TMul (TMul (TMul (TMul (TPow (TS "y_0") (TInteger 0))
                         (TS "c_0*y_0*(y_0-1)"))
                   (TDiv (TInteger 1)
                      (TMul (TInteger 1) (TFactorial (TInteger 0)))))
             (TPow (TInteger (-2)) (TInteger 1)))
       (TDiv (TFactorial (TInteger 1))
          (TMul (TFactorial (TInteger 1)) (TFactorial (TInteger 0)))))
    (TMul (TMul (TMul (TMul (TPow (TS "y_0") (TInteger 0))
                         (TS "c_1*((1.0/2)*(c_2-y_0))"))
                   (TDiv (TInteger 1)
                      (TMul (TInteger 1) (TFactorial (TInteger 0)))))
             (TPow (TInteger 2) (TInteger 1)))
       (TDiv (TFactorial (TInteger 1))
          (TMul (TFactorial (TInteger 1)) (TFactorial (TInteger 0))))).
Proof. eexists. split; vm_compute; reflexivity. Qed.

(** * Further properties of the code *)

(** ** Counters for growing truncation orders *)

Section CounterGrowth.
Context {E : Type} `{Sympy E}.
Implicit Types (v : list Z) (species : list E).

Lemma lex_lt_asym (x y : list Z) : lex_lt x y → lex_lt y x → False.
Proof.
  revert y. induction x as [|a x IH]; intros [|b y]; simpl; try done.
  intros [?|[-> ?]] [?|[? ?]]; try lia. by eapply IH.
Qed.

Lemma counter_lt_asym (x y : list Z) : counter_lt x y → counter_lt y x → False.
Proof.
  intros [?|[? ?]] [?|[? ?]]; try lia. by eapply lex_lt_asym.
Qed.

(** A list sorted by a key splits into the entries with a key up to a
    bound, followed by the others. *)
Lemma sorted_split_at_key (R : relation (list Z)) (bound : Z) (l : list (list Z)) :
  (∀ x y, R x y → Py.sum x ≤ Py.sum y) →
  StronglySorted R l →
  l = filter (λ v, Py.sum v ≤ bound) l ++ filter (λ v, ¬ Py.sum v ≤ bound) l.
Proof.
  intros HR. induction 1 as [|x l Hl IH Hx]; [done|].
  rewrite !filter_cons. destruct (decide (Py.sum x ≤ bound)) as [Hle|Hgt].
  - rewrite decide_False by tauto. simpl. by rewrite <-IH.
  - rewrite decide_True by done.
    assert (Forall (λ v, ¬ Py.sum v ≤ bound) l) as Hall.
    { eapply Forall_impl; [done|]. simpl. intros y Hy%HR. lia. }
    rewrite (filter_Forall_id (λ v, ¬ Py.sum v ≤ bound)) by done.
    rewrite filter_Forall_not; [done|].
    eapply Forall_impl; [done|]. simpl. tauto.
Qed.

Lemma k_counter_descriptors_succ (N : Z) (n : nat) :
  ∃ new, k_counter_descriptors (N + 1) n = k_counter_descriptors N n ++ new ∧
         Forall (λ v, Py.sum v = N + 1) new.
Proof.
  exists (filter (λ v, ¬ Py.sum v ≤ N) (k_counter_descriptors (N + 1) n)).
  split.
  - rewrite (sorted_split_at_key counter_lt N (k_counter_descriptors (N + 1) n))
      at 1; [|apply counter_lt_order|apply k_counter_descriptors_sorted].
    f_equal. apply (StronglySorted_unique_strong counter_lt).
    + intros x y _ _ Hxy Hyx. destruct (counter_lt_asym x y Hxy Hyx).
    + apply StronglySorted_filter, k_counter_descriptors_sorted.
    + apply k_counter_descriptors_sorted.
    + apply NoDup_Permutation.
      * apply NoDup_filter, NoDup_k_counter_descriptors.
      * apply NoDup_k_counter_descriptors.
      * intros v. rewrite list_elem_of_filter, !elem_of_k_counter_descriptors.
        intuition lia.
  - apply Forall_forall. intros v.
    rewrite list_elem_of_filter, elem_of_k_counter_descriptors. lia.
Qed.

Lemma moments_of_app (ds ds' : list (list Z)) (ss ss' : list E) :
  length ds = length ss →
  moments_of (ds ++ ds') (ss ++ ss') = moments_of ds ss ++ moments_of ds' ss'.
Proof.
  intros Hl. unfold moments_of, Py.zip.
  by rewrite zip_with_app, fmap_app.
Qed.

Lemma k_counter_symbols_app (ds ds' : list (list Z)) :
  k_counter_symbols (E:=E) (ds ++ ds')
  = k_counter_symbols ds ++ k_counter_symbols ds'.
Proof. unfold k_counter_symbols. by rewrite fmap_app. Qed.

Lemma n_counter_symbols_app (ds ds' : list (list Z)) :
  ∃ ss', length ss' = length ds' ∧
         n_counter_symbols (E:=E) (ds ++ ds') = n_counter_symbols ds ++ ss'.
Proof.
  unfold n_counter_symbols, Py.range.
  rewrite length_app, Nat2Z.id, Nat2Z.id, seq_app, !fmap_app.
  eexists. split; [|done]. by rewrite !length_fmap, length_seq.
Qed.

Lemma counters_succ (N : Z) species :
  central_counter N species `prefix_of` central_counter (N + 1) species ∧
  raw_counter N species `prefix_of` raw_counter (N + 1) species.
Proof.
  destruct (k_counter_descriptors_succ N (length species)) as (new & Hnew & _).
  unfold central_counter, raw_counter. rewrite Hnew. split.
  - destruct (n_counter_symbols_app (k_counter_descriptors N (length species))
                new) as (ss' & Hlen & ->).
    rewrite moments_of_app by (by rewrite length_n_counter_symbols).
    eexists. by rewrite <-app_comm_cons.
  - rewrite k_counter_symbols_app.
    rewrite moments_of_app by (by rewrite length_k_counter_symbols).
    eexists. by rewrite <-app_comm_cons, <-app_assoc.
Qed.

(** X1: raising the truncation order only appends moments.  The counters
    for an order are prefixes of the counters for any higher order, so
    that the moments already there keep their position and their
    symbol. *)
Theorem generate_counters_prefix (N M : Z) species :
  N ≤ M →
  ∃ n_counter k_counter n_counter' k_counter',
    generate_n_and_k_counters N species = inr (n_counter, k_counter) ∧
    generate_n_and_k_counters M species = inr (n_counter', k_counter') ∧
    n_counter `prefix_of` n_counter' ∧ k_counter `prefix_of` k_counter'.
Proof.
  intros HNM. rewrite !generate_n_and_k_counters_eq.
  do 4 eexists. split_and!; [done..| |].
  - replace M with (N + Z.of_nat (Z.to_nat (M - N))) by lia.
    induction (Z.to_nat (M - N)) as [|d IH].
    + by rewrite Z.add_0_r.
    + etrans; [apply IH|].
      replace (N + Z.of_nat (S d)) with (N + Z.of_nat d + 1) by lia.
      apply counters_succ.
  - replace M with (N + Z.of_nat (Z.to_nat (M - N))) by lia.
    induction (Z.to_nat (M - N)) as [|d IH].
    + by rewrite Z.add_0_r.
    + etrans; [apply IH|].
      replace (N + Z.of_nat (S d)) with (N + Z.of_nat d + 1) by lia.
      apply counters_succ.
Qed.

End CounterGrowth.

Lemma generate_counters_prefix_witness :
  ∃ n_counter k_counter n_counter' k_counter',
    generate_n_and_k_counters 2 [TS "y_0"; TS "y_1"]
    = inr (n_counter, k_counter) ∧
    generate_n_and_k_counters 3 [TS "y_0"; TS "y_1"]
    = inr (n_counter', k_counter') ∧
    n_counter `prefix_of` n_counter' ∧ k_counter `prefix_of` k_counter'.
Proof.
  apply (generate_counters_prefix 2 3 [TS "y_0"; TS "y_1"]). lia.
Defined.

(** ** The symbols of the generated moments *)

Section CounterSymbols.
Context {E : Type} `{Sympy E}.
Implicit Types (v : list Z) (species : list E).

Lemma lookup_moments_of (ds : list (list Z)) (ss : list E) (i : nat)
    (m : Moment E) :
  moments_of ds ss !! i = Some m →
  ds !! i = Some (n_vector m) ∧ ss !! i = Some (symbol m).
Proof.
  unfold moments_of, Py.zip. rewrite list_lookup_fmap, lookup_zip_with.
  destruct (ds !! i), (ss !! i); simpl; intros; simplify_eq. done.
Qed.

(** X2: the names of the generated symbols.  After the leading constant
    moment the central moment at position [i + 1] has the symbol [yx]
    followed by [i + 2]; after the constant moment and the means a raw
    moment has the symbol [x_] followed by the entries of its vector joined
    by underscores. *)
Theorem generated_symbol_names (N : Z) species
    (n_counter k_counter : list (Moment E)) :
  generate_n_and_k_counters N species = inr (n_counter, k_counter) →
  (∀ i m, n_counter !! S i = Some m →
          symbol m = sp_S ("yx" +:+ Py.str (Z.of_nat i + 2))) ∧
  (∀ i m, k_counter !! (1 + length species + i)%nat = Some m →
          symbol m = sp_S ("x_" +:+ Py.join "_" (Py.str <$> n_vector m))).
Proof.
  rewrite generate_n_and_k_counters_eq. intros [= <- <-]. split.
  - intros i m. unfold central_counter. simpl.
    intros [_ Hs]%lookup_moments_of. unfold n_counter_symbols in Hs.
    rewrite list_lookup_fmap in Hs.
    destruct (Py.range _ !! i) as [z|] eqn:Hz; [|done].
    assert (z = Z.of_nat i) as ->.
    { unfold Py.range in Hz. rewrite list_lookup_fmap in Hz.
      destruct (seq _ _ !! i) as [j|] eqn:Hj; [|done].
      apply lookup_seq in Hj as [-> _]. by simplify_eq/=. }
    by simplify_eq/=.
  - intros i m. rewrite <-lookup_drop, drop_means.
    intros [Hd Hs]%lookup_moments_of. unfold k_counter_symbols in Hs.
    rewrite list_lookup_fmap, Hd in Hs. by simplify_eq/=.
Qed.

End CounterSymbols.

(** ** Distinct moments have distinct symbols *)

Section SymbolNames.

Lemma contains_app (c : ascii) (s1 s2 : string) :
  Py.contains c (s1 +:+ s2) = Py.contains c s1 || Py.contains c s2.
Proof.
  induction s1 as [|a s1 IH]; simpl; [done|]. by destruct (decide (c = a)).
Qed.

Lemma pretty_N_go_no_underscore (x : N) (s : string) :
  Py.contains "_" s = false → Py.contains "_" (pretty_N_go x s) = false.
Proof.
  revert s. induction (N.lt_wf_0 x) as [x _ IH]; intros s Hs.
  assert (x = 0 ∨ 0 < x)%N as [->|?] by lia.
  - by rewrite pretty_N_go_0.
  - rewrite pretty_N_go_step by done. apply IH.
    { by apply N.div_lt. }
    simpl. rewrite Hs. unfold pretty_N_char. by repeat case_match.
Qed.

Lemma str_no_underscore (z : Z) : Py.contains "_" (Py.str z) = false.
Proof.
  unfold Py.str, pretty, pretty_Z. destruct z as [|p|p]; [done|..].
  - unfold pretty, pretty_positive, pretty, pretty_N.
    case_decide; [done|]. by apply pretty_N_go_no_underscore.
  - rewrite contains_app. simpl.
    unfold pretty, pretty_positive, pretty, pretty_N.
    case_decide; [done|]. by apply pretty_N_go_no_underscore.
Qed.

(** A string cut at its first occurrence of a character can be cut there
    in one way only. *)
Lemma cut_unique (c : ascii) (s1 s2 r1 r2 : string) :
  Py.contains c s1 = false → Py.contains c s2 = false →
  s1 +:+ String c r1 = s2 +:+ String c r2 → s1 = s2 ∧ r1 = r2.
Proof.
  revert s2. induction s1 as [|a s1 IH]; intros [|b s2]; simpl.
  - by intros _ _ [= ->].
  - destruct (decide (c = b)); [done|]. intros _ _ [= ? _]. congruence.
  - destruct (decide (c = a)); [done|]. intros _ _ [= ? _]. congruence.
  - destruct (decide (c = a)), (decide (c = b)); try done.
    intros H1 H2 [= -> Heq]. by destruct (IH _ H1 H2 Heq) as [-> ->].
Qed.

Lemma join_inj (u v : list string) :
  length u = length v →
  Forall (λ s, Py.contains "_" s = false) u →
  Forall (λ s, Py.contains "_" s = false) v →
  Py.join "_" u = Py.join "_" v → u = v.
Proof.
  unfold Py.join. revert v.
  induction u as [|a u IH]; intros [|b v] Hlen Hu Hv; try done.
  apply Forall_cons in Hu as [Ha Hu]. apply Forall_cons in Hv as [Hb Hv].
  destruct u as [|a' u], v as [|b' v]; try done.
  - simpl. by intros ->.
  - change (a +:+ String "_" (String.concat "_" (a' :: u))
            = b +:+ String "_" (String.concat "_" (b' :: v)) →
            a :: a' :: u = b :: b' :: v).
    intros [-> Hrest]%cut_unique; [|done..]. f_equal.
    apply IH; [simpl in Hlen |- *; lia|done..].
Qed.

End SymbolNames.

Section DistinctSymbols.
Context {E : Type} `{Sympy E}.
Implicit Types (species : list E).

Lemma symbol_moments_of (ds : list (list Z)) (ss : list E) :
  length ds = length ss → symbol <$> moments_of ds ss = ss.
Proof.
  intros Hl. unfold moments_of, Py.zip. rewrite <-list_fmap_compose.
  rewrite <-(snd_zip ds ss) at 2 by lia. done.
Qed.

(** X3: distinct moments have distinct symbols.  With a symbol
    constructor that tells names apart, no symbol occurs twice among the
    central moments after the constant one, nor among the raw moments
    after the constant one and the means. *)
Theorem generated_symbols_distinct (N : Z) species
    (n_counter k_counter : list (Moment E)) :
  Inj (=) (=) (sp_S (E:=E)) →
  generate_n_and_k_counters N species = inr (n_counter, k_counter) →
  NoDup (symbol <$> drop 1 n_counter) ∧
  NoDup (symbol <$> drop (1 + length species) k_counter).
Proof.
  intros Hinj. rewrite generate_n_and_k_counters_eq. intros [= <- <-]. split.
  - change (drop 1 (central_counter N species)) with
      (moments_of (k_counter_descriptors N (length species))
         (n_counter_symbols (E:=E) (k_counter_descriptors N (length species)))).
    rewrite symbol_moments_of by (by rewrite length_n_counter_symbols).
    unfold n_counter_symbols. apply NoDup_fmap_2; [|apply NoDup_range].
    intros i j Hij. apply Hinj in Hij. simplify_eq/=. lia.
  - rewrite drop_means.
    rewrite symbol_moments_of by (by rewrite length_k_counter_symbols).
    unfold k_counter_symbols.
    apply NoDup_fmap_2_strong; [|apply NoDup_k_counter_descriptors].
    intros u v [Hu _]%elem_of_k_counter_descriptors
      [Hv _]%elem_of_k_counter_descriptors Huv.
    apply Hinj in Huv. simplify_eq/=.
    assert (Py.str <$> u = Py.str <$> v) as Heq.
    { apply join_inj; [by rewrite !length_fmap, Hu, Hv|..|done];
        apply Forall_fmap, Forall_forall; intros z _; apply str_no_underscore. }
    revert Heq. apply (inj (fmap Py.str)).
Qed.

End DistinctSymbols.

Lemma generated_symbols_distinct_witness :
  NoDup (symbol <$> drop 1 central_counter_1_3) ∧
  NoDup (symbol <$> drop (1 + length [TS "y_0"]) raw_counter_1_3).
Proof.
  apply (generated_symbols_distinct 3 [TS "y_0"]).
  - intros x y Hxy. by injection Hxy.
  - vm_compute. reflexivity.
Defined.

(** ** When the factors of a mixed moment can be computed *)

Section TraverseErrors.

Lemma traverse_inr_Forall {A B} (f : A → Py.result B) (l : list A)
    (ys : list B) :
  Py.traverse f l = inr ys → Forall (λ x, Py.returns (f x)) l.
Proof.
  revert ys. induction l as [|x l IH]; intros ys; [constructor|]. simpl.
  destruct (f x) as [e|y] eqn:Hx; [done|]. simpl.
  destruct (Py.traverse f l) as [e|ys'] eqn:Hl; [done|]. intros _.
  constructor; [by exists y|by eapply IH].
Qed.

Lemma traverse_raise {A B} (f : A → Py.result B) (l : list A) (err : Py.exn) :
  Forall (λ x, f x = inl err ∨ Py.returns (f x)) l →
  Exists (λ x, f x = inl err) l →
  Py.traverse f l = inl err.
Proof.
  induction 1 as [|x l Hx Hl IH]; intros Hex; [by inv Hex|]. simpl.
  destruct Hx as [Hx|[y Hx]]; rewrite Hx; [done|]. simpl.
  inv Hex; [congruence|]. by rewrite IH.
Qed.

Lemma traverse_ext_in {A B} (f g : A → Py.result B) (l : list A) :
  Forall (λ x, f x = g x) l → Py.traverse f l = Py.traverse g l.
Proof.
  induction 1 as [|x l Hx Hl IH]; [done|]. simpl. by rewrite Hx, IH.
Qed.

Lemma elem_of_enumerate_lookup {A} (l : list A) (i : nat) (x : A) :
  (i, x) ∈ Py.enumerate l ↔ l !! i = Some x.
Proof.
  unfold Py.enumerate. rewrite list_elem_of_lookup. split.
  - intros [j Hj]. rewrite list_lookup_imap in Hj.
    destruct (l !! j) eqn:Hlj; by simplify_eq/=.
  - intros Hi. exists i. by rewrite list_lookup_imap, Hi.
Qed.

End TraverseErrors.

Section FactorErrors.
Context {E : Type} `{Sympy E}.
Implicit Types (variables : list E) (S : Matrix E) (k_vec e_vec : list Z).

(** X4: when [make_f_of_x] can be computed.  Without variables it fails
    with the [TypeError] of [reduce] on an empty sequence; with variables
    and a [k_vec] or [e_vec] shorter than them it fails with an
    [IndexError]; it returns exactly when there is a variable and both
    vectors are at least as long as the variables, and then only their
    first entries, one per variable, are read. *)
Theorem make_f_of_x_errors variables k_vec e_vec (reaction : E) :
  (variables = [] →
   make_f_of_x variables k_vec e_vec reaction = inl reduce_error) ∧
  (variables ≠ [] →
   (length k_vec < length variables ∨ length e_vec < length variables)%nat →
   make_f_of_x variables k_vec e_vec reaction = inl index_error) ∧
  (Py.returns (make_f_of_x variables k_vec e_vec reaction) ↔
   variables ≠ [] ∧ (length variables ≤ length k_vec)%nat ∧
   (length variables ≤ length e_vec)%nat) ∧
  make_f_of_x variables k_vec e_vec reaction
  = make_f_of_x variables (take (length variables) k_vec)
      (take (length variables) e_vec) reaction.
Proof.
  assert (variables ≠ [] →
    (length k_vec < length variables ∨ length e_vec < length variables)%nat →
    make_f_of_x variables k_vec e_vec reaction = inl index_error) as Hshort.
  { intros Hne Hlen. unfold make_f_of_x. rewrite (traverse_raise _ _ index_error).
    - done.
    - apply Forall_forall. intros [i x] _. unfold Py.getitem.
      destruct (k_vec !! i); [|by left]. simpl.
      destruct (e_vec !! i); [|by left]. right. by eexists.
    - apply Exists_exists.
      set (i := (length k_vec `min` length e_vec)%nat).
      destruct (lookup_lt_is_Some_2 variables i) as [x Hx]; [lia|].
      exists (i, x). split; [by apply elem_of_enumerate_lookup|].
      unfold Py.getitem.
      destruct (k_vec !! i) eqn:Hk; [|done]. simpl.
      destruct (e_vec !! i) eqn:He; [|done].
      apply lookup_lt_Some in Hk, He. lia. }
  split_and!.
  - by intros ->.
  - done.
  - split.
    + intros [y Hy]. destruct variables as [|x variables]; [done|].
      split; [done|].
      destruct (decide (length (x :: variables) ≤ length k_vec
                        ∧ length (x :: variables) ≤ length e_vec)%nat)
        as [|Hn]; [done|].
      rewrite Hshort in Hy by (done || lia). done.
    + intros (? & ? & ?). eexists. by apply make_f_of_x_ok.
  - unfold make_f_of_x. f_equal. apply traverse_ext_in, Forall_forall.
    intros [i x] Hi%elem_of_enumerate_lookup%lookup_lt_Some.
    unfold Py.getitem. by rewrite !lookup_take_lt by done.
Qed.

Lemma zip_with_take_min {A B C} (f : A → B → C) (l : list A) (k : list B) :
  zip_with f (take (length l `min` length k) l)
    (take (length l `min` length k) k) = zip_with f l k.
Proof.
  revert k. induction l as [|x l IH]; intros [|y k]; simpl; try done.
  by rewrite IH.
Qed.

(** X5: [make_k_chose_e] pairs the two vectors with [zip].  An empty
    vector on either side gives the [TypeError] of [reduce]; otherwise the
    result is the product of the binomial terms of the two vectors cut to
    the length of the shorter one, and no length mismatch is reported. *)
Theorem make_k_chose_e_lengths e_vec k_vec :
  (e_vec = [] ∨ k_vec = [] →
   make_k_chose_e (E:=E) e_vec k_vec = inl reduce_error) ∧
  (e_vec ≠ [] → k_vec ≠ [] →
   make_k_chose_e (E:=E) e_vec k_vec
   = inr (binomial_term (take (length k_vec `min` length e_vec) k_vec)
            (take (length k_vec `min` length e_vec) e_vec))).
Proof.
  split.
  - unfold make_k_chose_e, Py.zip. intros [->| ->]; [done|].
    by rewrite zip_with_nil_r.
  - intros He Hk. rewrite make_k_chose_e_ok by done.
    unfold binomial_term. by rewrite zip_with_take_min.
Qed.

(** X6: when [make_s_pow_e] can be computed.  An empty [e_vec] gives the
    [TypeError] of [reduce]; an [e_vec] with more entries than the
    stoichiometry matrix has rows, or a reaction index that is not a
    column, gives an [IndexError]; on a well-formed matrix the call returns
    exactly when [e_vec] is not empty, is no longer than the rows and the
    reaction is a column. *)
Theorem make_s_pow_e_errors S (reac_idx : nat) e_vec :
  (e_vec = [] → make_s_pow_e S reac_idx e_vec = inl reduce_error) ∧
  (e_vec ≠ [] → (rows S < length e_vec ∨ cols S ≤ reac_idx)%nat →
   make_s_pow_e S reac_idx e_vec
   = inl (Py.IndexError [Py.Text "Index out of range"])) ∧
  (wf_Matrix S →
   (Py.returns (make_s_pow_e S reac_idx e_vec) ↔
    e_vec ≠ [] ∧ (length e_vec ≤ rows S)%nat ∧ (reac_idx < cols S)%nat)).
Proof.
  assert (e_vec ≠ [] → (rows S < length e_vec ∨ cols S ≤ reac_idx)%nat →
    make_s_pow_e S reac_idx e_vec
    = inl (Py.IndexError [Py.Text "Index out of range"])) as Hout.
  { intros Hne Hlen. unfold make_s_pow_e.
    rewrite (traverse_raise _ _ (Py.IndexError [Py.Text "Index out of range"])).
    - done.
    - apply Forall_forall. intros [i e] _. unfold Matrix_get.
      case_decide; [|by left]. destruct (mat S !! _); [|by left].
      right. by eexists.
    - apply Exists_exists. apply nonempty_length in Hne.
      set (i := if decide (cols S ≤ reac_idx)%nat then 0%nat else rows S).
      destruct (lookup_lt_is_Some_2 e_vec i) as [e He].
      { unfold i. case_decide; lia. }
      exists (i, e). split; [by apply elem_of_enumerate_lookup|].
      unfold Matrix_get. rewrite decide_False; [done|].
      unfold i. case_decide; lia. }
  split_and!.
  - by intros ->.
  - done.
  - intros Hwf. split.
    + intros [y Hy]. destruct e_vec as [|e e_vec]; [done|]. split; [done|].
      destruct (decide (length (e :: e_vec) ≤ rows S ∧ reac_idx < cols S)%nat)
        as [|Hn]; [done|].
      rewrite Hout in Hy by (done || lia). done.
    + intros (? & ? & ?). eexists. by apply make_s_pow_e_ok.
Qed.

End FactorErrors.

Lemma make_f_of_x_errors_witness :
  make_f_of_x [] [1] [0] (TS "c_0") = inl reduce_error ∧
  make_f_of_x [TS "y_0"; TS "y_1"] [1] [0; 0] (TS "c_0") = inl index_error.
Proof.
  split.
  - destruct (make_f_of_x_errors [] [1] [0] (TS "c_0")) as (Hempty & _).
    by apply Hempty.
  - destruct (make_f_of_x_errors [TS "y_0"; TS "y_1"] [1] [0; 0] (TS "c_0"))
      as (_ & Hshort & _).
    apply Hshort; [done|]. left. simpl. lia.
Defined.

Lemma make_k_chose_e_lengths_witness :
  make_k_chose_e (E:=term) [] [2] = inl reduce_error ∧
  make_k_chose_e (E:=term) [1] [2; 3] = inr (binomial_term [2] [1]).
Proof.
  split.
  - destruct (make_k_chose_e_lengths (E:=term) [] [2]) as (Hempty & _).
    apply Hempty. by left.
  - destruct (make_k_chose_e_lengths (E:=term) [1] [2; 3]) as (_ & Hval).
    by apply Hval.
Defined.

Lemma make_s_pow_e_errors_witness :
  make_s_pow_e dimerisation_stoichiometry 0 [] = inl reduce_error ∧
  make_s_pow_e dimerisation_stoichiometry 2 [1]
  = inl (Py.IndexError [Py.Text "Index out of range"]) ∧
  (Py.returns (make_s_pow_e dimerisation_stoichiometry 1 [1]) ↔
   [1] ≠ [] ∧ (length [1] ≤ 1)%nat ∧ (1 < 2)%nat).
Proof.
  split_and!.
  - destruct (make_s_pow_e_errors dimerisation_stoichiometry 0 [])
      as (Hempty & _). by apply Hempty.
  - destruct (make_s_pow_e_errors dimerisation_stoichiometry 2 [1])
      as (_ & Hout & _). apply Hout; [done|]. right. simpl. lia.
  - destruct (make_s_pow_e_errors dimerisation_stoichiometry 1 [1])
      as (_ & _ & Hret). by apply Hret.
Defined.

(** ** When the mixed-moment vector can be computed *)

Section MixedMomentErrors.
Context {E : Type} `{Sympy E}.
Implicit Types (amat ymat : list E) (S : Matrix E) (kvec : list Z).
Implicit Types (ekcounter : list (list Z)) (counter : list (Moment E)).

Lemma eq_mixedmoments_fit amat counter S ymat kvec ekcounter :
  wf_Matrix S → mixed_moment_inputs_fit amat S ymat kvec ekcounter →
  eq_mixedmoments amat counter S ymat kvec ekcounter
  = inr (mkMatrix 1 (length counter)
           (mixed_moment_entry amat S ymat kvec ekcounter <$> counter)).
Proof.
  intros Hwf (Ha & Hek & Hy & Hk & Hes & Hcols).
  pose proof (proj1 (nonempty_length _) Hy) as Hy'.
  set (B := reaction_e_pairs (Py.enumerate amat) ekcounter).
  assert (B ≠ []) as HB.
  { apply nonempty_length. unfold B.
    rewrite length_reaction_e_pairs. unfold Py.enumerate.
    rewrite length_imap. apply nonempty_length in Ha, Hek. nia. }
  assert (∀ t, t ∈ B →
            (length ymat ≤ length t.2 ∧ length t.2 ≤ rows S)%nat
            ∧ (t.1.1 < cols S)%nat) as HBin.
  { intros t [Ht1 Ht2]%elem_of_reaction_e_pairs. split.
    - rewrite Forall_forall in Hes. by apply Hes.
    - apply elem_of_enumerate in Ht1. lia. }
  unfold eq_mixedmoments.
  rewrite <-(snd_enumerate amat) at 1. rewrite product_snd. fold B.
  rewrite traverse_fmap.
  rewrite (traverse_ok _ (λ t, shifted_propensity ymat kvec t.2 t.1.2)).
  2:{ intros [[r reac] e] [[He _] _]%HBin. simpl in *.
      by apply make_f_of_x_ok. }
  cbn [mbind Py.result_bind Py.bind]. rewrite traverse_fmap.
  rewrite (traverse_ok _
    (λ t, mkMatrix (length counter) 1
            (taylor_term ymat (shifted_propensity ymat kvec t.2 t.1.2)
             <$> counter))).
  2:{ intros t _. apply make_f_expectation_ok. }
  cbn [mbind Py.result_bind Py.bind].
  rewrite <-fst_enumerate, product_fst. fold B.
  rewrite traverse_fmap.
  rewrite (traverse_ok _ (λ t, stoichiometry_power S t.1.1 t.2)).
  2:{ intros [[r reac] e] [[He1 He2] Hr]%HBin. simpl in *.
      apply make_s_pow_e_ok; [done..| |lia].
      apply nonempty_length. lia. }
  cbn [mbind Py.result_bind Py.bind].
  rewrite (traverse_ok _ (binomial_term kvec)).
  2:{ intros e He. rewrite Forall_forall in Hes. specialize (Hes e He).
      apply make_k_chose_e_ok; apply nonempty_length; lia. }
  cbn [mbind Py.result_bind Py.bind mret Py.result_ret Py.ret].
  rewrite <-(length_imap pair amat).
  change (imap pair amat) with (Py.enumerate amat).
  rewrite repeat_list_pairs. fold B.
  cbv zeta. rewrite zip3_fmap.
  erewrite list_fmap_ext; [|intros i t _; apply scaled_expectation].
  apply (sum_columns_ok B counter (mixed_moment_term S ymat kvec) HB).
Qed.

Lemma product_nil_r {A B} (xs : list A) : Py.product xs (@nil B) = [].
Proof. unfold Py.product. induction xs as [|x xs IH]; [done|]. by csimpl. Qed.

Lemma repeat_list_nil {A} (n : nat) : Py.repeat_list (@nil A) n = [].
Proof. unfold Py.repeat_list. induction n as [|n IH]; [done|]. by simpl. Qed.

(** X7: without any [e] vector [eq_mixedmoments] fails.  The list of
    products is then empty, and taking its first element for the number
    of columns raises an [IndexError], whatever the other arguments
    are. *)
Theorem eq_mixedmoments_no_e_vectors amat counter S ymat kvec :
  eq_mixedmoments amat counter S ymat kvec [] = inl index_error.
Proof.
  unfold eq_mixedmoments. rewrite !product_nil_r. simpl.
  by rewrite ?repeat_list_nil.
Qed.

Lemma elem_of_product {A B} (xs : list A) (ys : list B) (x : A) (y : B) :
  x ∈ xs → y ∈ ys → (x, y) ∈ Py.product xs ys.
Proof.
  intros Hx Hy. unfold Py.product. apply list_elem_of_bind.
  exists x. split; [|done]. apply list_elem_of_fmap. by exists y.
Qed.

(** X8: when [eq_mixedmoments] returns.  On a well-formed stoichiometry
    matrix the call returns exactly when there is a propensity, an [e]
    vector and a species, [kvec] and every [e] vector are at least as long
    as the species, no [e] vector is longer than the rows of the matrix,
    and every reaction is a column of it. *)
Theorem eq_mixedmoments_returns amat counter S ymat kvec ekcounter :
  wf_Matrix S →
  (Py.returns (eq_mixedmoments amat counter S ymat kvec ekcounter) ↔
   mixed_moment_inputs_fit amat S ymat kvec ekcounter).
Proof.
  intros Hwf. split; [|intros Hfit; eexists; by apply eq_mixedmoments_fit].
  intros [M HM]. unfold eq_mixedmoments in HM.
  destruct (Py.traverse _ (Py.product amat ekcounter)) as [?|v1] eqn:H1;
    [done|].
  cbn [mbind Py.result_bind Py.bind] in HM.
  destruct (Py.traverse _ v1) as [?|v2] eqn:H2; [done|].
  cbn [mbind Py.result_bind Py.bind] in HM.
  destruct (Py.traverse _ (Py.product (Py.range_len _) ekcounter))
    as [?|v3] eqn:H3; [done|].
  cbn [mbind Py.result_bind Py.bind] in HM.
  destruct (Py.traverse (λ e, make_k_chose_e e kvec) ekcounter)
    as [?|v4] eqn:H4; [done|].
  cbn [mbind Py.result_bind Py.bind mret Py.result_ret Py.ret] in HM.
  assert (amat ≠ [] ∧ ekcounter ≠ []) as [Ha Hek].
  { split; intros ->.
    - simpl in H1. injection H1 as <-. simpl in H2. injection H2 as <-.
      by destruct (Matrix_stack _) in HM.
    - rewrite product_nil_r in H1. simpl in H1. injection H1 as <-.
      simpl in H2. injection H2 as <-.
      by destruct (Matrix_stack _) in HM. }
  clear HM H2 H4.
  apply traverse_inr_Forall in H1. apply traverse_inr_Forall in H3.
  rewrite Forall_forall in H1. rewrite Forall_forall in H3.
  destruct amat as [|a0 amat'] eqn:Hamat; [done|]. rewrite <-Hamat in *.
  destruct ekcounter as [|e0 ekcounter'] eqn:Hekc; [done|].
  rewrite <-Hekc in *.
  assert (∀ e, e ∈ ekcounter →
            ymat ≠ [] ∧ (length ymat ≤ length kvec)%nat
            ∧ (length ymat ≤ length e)%nat) as Hf.
  { intros e He. apply (make_f_of_x_errors ymat kvec e a0).
    apply (H1 (a0, e)), elem_of_product; [|done]. rewrite Hamat. left. }
  assert (∀ r e, (r < length amat)%nat → e ∈ ekcounter →
            (length e ≤ rows S ∧ r < cols S)%nat) as Hs.
  { intros r e Hr He.
    apply (make_s_pow_e_errors S r e); [done|].
    apply (H3 (r, e)), elem_of_product; [|done].
    unfold Py.range_len. apply elem_of_seq. lia. }
  destruct (Hf e0) as (Hy & Hk & _); [rewrite Hekc; left|].
  split_and!; try done.
  - apply Forall_forall. intros e He. split; [by apply Hf|].
    apply (Hs 0%nat); [|done]. rewrite Hamat. simpl. lia.
  - destruct (Hs (length amat - 1)%nat e0) as [_ ?]; [| |lia].
    + rewrite Hamat. simpl. lia.
    + rewrite Hekc. left.
Qed.

End MixedMomentErrors.

Lemma eq_mixedmoments_returns_witness :
  Py.returns
    (eq_mixedmoments dimerisation_propensities dimerisation_counter
       dimerisation_stoichiometry dimerisation_species [2] [[1]; [2]]) ↔
  mixed_moment_inputs_fit dimerisation_propensities
    dimerisation_stoichiometry dimerisation_species [2] [[1]; [2]].
Proof.
  apply (eq_mixedmoments_returns dimerisation_propensities
           dimerisation_counter dimerisation_stoichiometry
           dimerisation_species [2] [[1]; [2]]).
  reflexivity.
Defined.

(** ** One more reaction *)

Section MixedMomentReactions.
Context {E : Type} `{Sympy E}.
Implicit Types (amat ymat : list E) (S : Matrix E) (kvec : list Z).
Implicit Types (ekcounter : list (list Z)) (counter : list (Moment E)).

Lemma enumerate_snoc {A} (l : list A) (x : A) :
  Py.enumerate (l ++ [x]) = Py.enumerate l ++ [(length l, x)].
Proof.
  unfold Py.enumerate. rewrite imap_app. simpl. by rewrite Nat.add_0_r.
Qed.

Lemma big_add_app (l1 l2 : list E) :
  l1 ≠ [] → big_add (l1 ++ l2) = foldl sp_add (big_add l1) l2.
Proof. destruct l1 as [|x l1]; [done|]. intros _. simpl. apply foldl_app. Qed.

(** X9: the result is a sum over the reactions.  Adding one reaction to a
    model that has one already adds, to every entry of the vector of mixed
    moments, the terms of the new reaction for each [e] vector and leaves
    the terms of the other reactions as they were. *)
Theorem eq_mixedmoments_one_more_reaction amat (a : E) counter S ymat kvec
    ekcounter :
  wf_Matrix S →
  mixed_moment_inputs_fit (amat ++ [a]) S ymat kvec ekcounter →
  amat ≠ [] →
  ∃ old new,
    eq_mixedmoments amat counter S ymat kvec ekcounter
    = inr (mkMatrix 1 (length counter) old) ∧
    eq_mixedmoments (amat ++ [a]) counter S ymat kvec ekcounter
    = inr (mkMatrix 1 (length counter) new) ∧
    new = zip_with
            (λ c entry,
               foldl sp_add entry
                 ((λ e, mixed_moment_term S ymat kvec c (length amat, a, e))
                  <$> ekcounter))
            counter old.
Proof.
  intros Hwf Hfit Ha.
  assert (mixed_moment_inputs_fit amat S ymat kvec ekcounter) as Hfit'.
  { destruct Hfit as (_ & ? & ? & ? & ? & Hcols).
    rewrite length_app in Hcols. simpl in Hcols.
    split_and!; try done. lia. }
  do 2 eexists. split_and!; [by apply eq_mixedmoments_fit..|].
  rewrite zip_with_fmap_r, zip_with_diag.
  apply list_fmap_ext. intros _ c _.
  unfold mixed_moment_entry. rewrite enumerate_snoc.
  unfold reaction_e_pairs. rewrite bind_app, fmap_app, big_add_app.
  - f_equal. rewrite bind_singleton. by rewrite <-list_fmap_compose.
  - destruct Hfit' as (_ & Hek & _).
    destruct amat as [|a0 amat]; [done|]. destruct ekcounter; [done|].
    done.
Qed.

End MixedMomentReactions.

Lemma eq_mixedmoments_one_more_reaction_witness :
  ∃ old new,
    eq_mixedmoments [TS "c_0*y_0*(y_0-1)"] dimerisation_counter
      dimerisation_stoichiometry dimerisation_species [2] [[1]; [2]]
    = inr (mkMatrix 1 2 old) ∧
    eq_mixedmoments ([TS "c_0*y_0*(y_0-1)"] ++ [TS "c_1*((1.0/2)*(c_2-y_0))"])
      dimerisation_counter dimerisation_stoichiometry dimerisation_species
      [2] [[1]; [2]]
    = inr (mkMatrix 1 2 new) ∧
    new = zip_with
            (λ c entry,
               foldl sp_add entry
                 ((λ e, mixed_moment_term dimerisation_stoichiometry
                          dimerisation_species [2] c
                          (1%nat, TS "c_1*((1.0/2)*(c_2-y_0))", e))
                  <$> [[1]; [2]]))
            dimerisation_counter old.
Proof.
  apply (eq_mixedmoments_one_more_reaction [TS "c_0*y_0*(y_0-1)"]
           (TS "c_1*((1.0/2)*(c_2-y_0))") dimerisation_counter
           dimerisation_stoichiometry dimerisation_species [2] [[1]; [2]]).
  - reflexivity.
  - unfold mixed_moment_inputs_fit. simpl. split_and!; try done; try lia.
    repeat constructor; simpl; lia.
  - done.
Defined.

(** ** Raw elimination, entry by entry *)

Section SubstitutionShape.
Context {E : Type} `{Sympy E}.
Implicit Types (exprs : Matrix E) (cfr : list E).
Implicit Types (n_counter k_counter : list (Moment E)).

Lemma applyfunc_compose (f g : E → E) exprs :
  applyfunc f (applyfunc g exprs) = applyfunc (f ∘ g) exprs.
Proof. unfold applyfunc. simpl. by rewrite <-list_fmap_compose. Qed.

Lemma foldl_eliminate_raw (l : list (Moment E * Moment E * E)) exprs :
  foldl eliminate_raw exprs l
  = applyfunc
      (λ x, foldl (λ y step,
                     sp_Subs_doit y (symbol step.1.1)
                       (sp_solve (sp_sub step.2 (symbol step.1.2))
                          (symbol step.1.1))) x l) exprs.
Proof.
  revert exprs. induction l as [|[[raw central] e] l IH]; intros exprs; simpl.
  - unfold applyfunc. rewrite list_fmap_id. by destruct exprs.
  - by rewrite IH, applyfunc_compose.
Qed.

(** X10: [substitute_raw_with_central] works entry by entry.  For given
    counters and right-hand sides there is one function on expressions
    such that the result has the shape of the argument and holds the image
    of each of its entries: no entry depends on another one. *)
Theorem substitute_raw_with_central_entrywise cfr n_counter k_counter :
  ∃ f : E → E, ∀ exprs,
    substitute_raw_with_central exprs cfr n_counter k_counter
    = mkMatrix (rows exprs) (cols exprs) (f <$> mat exprs).
Proof.
  eexists. intros exprs. rewrite substitute_raw_with_central_eq.
  unfold eliminate_then_simplify.
  rewrite foldl_eliminate_raw, applyfunc_compose. reflexivity.
Qed.

(** X11: when there is no raw moment to eliminate.  Without right-hand
    sides to solve, and for the counters of a truncation order below two,
    [substitute_raw_with_central] only simplifies each entry. *)
Theorem substitute_raw_with_central_nothing_to_do exprs cfr :
  (∀ n_counter k_counter,
     substitute_raw_with_central exprs [] n_counter k_counter
     = applyfunc sp_simplify exprs) ∧
  (∀ (N : Z) (species : list E) n_counter k_counter,
     generate_n_and_k_counters N species = inr (n_counter, k_counter) →
     N < 2 →
     substitute_raw_with_central exprs cfr n_counter k_counter
     = applyfunc sp_simplify exprs).
Proof.
  split.
  - intros n_counter k_counter. rewrite substitute_raw_with_central_eq.
    unfold eliminate_then_simplify, elimination_steps, Py.zip.
    by rewrite zip_with_nil_r.
  - intros N species n_counter k_counter.
    rewrite generate_n_and_k_counters_eq. intros [= <- <-] HN.
    rewrite substitute_raw_with_central_eq.
    unfold eliminate_then_simplify, elimination_steps.
    rewrite filter_higher_raw, drop_means.
    rewrite k_counter_descriptors_nil by (by left). done.
Qed.

End SubstitutionShape.

Lemma substitute_raw_with_central_nothing_to_do_witness :
  substitute_raw_with_central central_moments_1_3 central_from_raw_1_3
    [mkMoment [0] (TInteger 1)]
    [mkMoment [0] (TInteger 1); mkMoment [1] (TS "y_0")]
  = applyfunc sp_simplify central_moments_1_3.
Proof.
  destruct (substitute_raw_with_central_nothing_to_do central_moments_1_3
              central_from_raw_1_3) as [_ Hlow].
  apply (Hlow 1 [TS "y_0"]); [vm_compute; reflexivity|lia].
Defined.

(** ** The moment mapping of an ODE problem *)

Section MomentMapping.
Context {E : Type}.
Implicit Types (lhs rhs cs : Matrix E) (moments : list (list Z)).

Lemma make_moment_dic_snoc moments (m : list Z) :
  make_moment_dic (moments ++ [m])
  = <[m := length moments]> (make_moment_dic moments).
Proof.
  unfold make_moment_dic, Py.enumerate.
  rewrite imap_app, foldl_app. simpl. by rewrite Nat.add_0_r.
Qed.

(** X12: in [make_moment_dic] the last occurrence wins.  A moment is
    mapped to an index exactly when it stands at that index in the list
    and at no later one. *)
Theorem make_moment_dic_last_wins moments (m : list Z) (i : nat) :
  make_moment_dic moments !! m = Some i ↔
  moments !! i = Some m ∧ ∀ j, (i < j)%nat → moments !! j ≠ Some m.
Proof.
  revert i. induction moments as [|m' moments IH] using rev_ind; intros i.
  - unfold make_moment_dic. simpl. rewrite lookup_empty. naive_solver.
  - rewrite make_moment_dic_snoc. destruct (decide (m = m')) as [->|Hne].
    + rewrite lookup_insert_eq. split.
      * intros [= <-]. split.
        -- by rewrite lookup_app_r, Nat.sub_diag by lia.
        -- intros j Hj Hjm. apply lookup_lt_Some in Hjm.
           rewrite length_app in Hjm. simpl in Hjm. lia.
      * intros [Hi Hlast]. f_equal.
        destruct (decide (i = length moments)) as [|Hne]; [done|].
        destruct (Hlast (length moments)).
        -- apply lookup_lt_Some in Hi. rewrite length_app in Hi.
           simpl in Hi. lia.
        -- by rewrite lookup_app_r, Nat.sub_diag by lia.
    + rewrite lookup_insert_ne, IH by done. split.
      * intros [Hi Hlast]. split; [by apply lookup_app_l_Some|].
        intros j Hj Hjm. apply lookup_app_Some in Hjm as [Hjm|[_ Hjm]].
        -- by apply (Hlast j).
        -- apply list_lookup_singleton_Some in Hjm as [_ ?]. done.
      * intros [Hi Hlast]. apply lookup_app_Some in Hi as [Hi|[_ Hi]].
        -- split; [done|]. intros j Hj Hjm. apply (Hlast j Hj).
           by apply lookup_app_l_Some.
        -- apply list_lookup_singleton_Some in Hi as [_ ?]. done.
Qed.

(** X13: an accepted problem with as many moments as equations.  The
    moments are then pairwise distinct, the mapping sends each moment to
    its position in the list, every row index is the image of a moment
    and no moment is sent past the last row. *)
Theorem ODEProblem_init_bijection lhs rhs cs moments (p : ODEProblem E) :
  ODEProblem_init lhs rhs cs moments = inr p →
  rows lhs = length moments →
  NoDup moments ∧
  (∀ m i, moment_dic p !! m = Some i ↔ moments !! i = Some m) ∧
  (∀ i, (i < rows (left_hand_side p))%nat →
        ∃ m, moment_dic p !! m = Some i) ∧
  (∀ m i, moment_dic p !! m = Some i → (i < rows (left_hand_side p))%nat).
Proof.
  intros Hp Hlen.
  destruct (decide (rows lhs = rows rhs)) as [Heq|Hne];
    [|by rewrite ODEProblem_init_rows in Hp].
  destruct (decide (rows lhs = length (remove_dups moments))) as [Hm|Hm];
    [|by rewrite ODEProblem_init_moments in Hp].
  rewrite ODEProblem_init_ok in Hp by done. injection Hp as <-. simpl.
  assert (NoDup moments) as Hnd
    by (apply length_remove_dups_NoDup; lia).
  assert (∀ m i, make_moment_dic moments !! m = Some i ↔
                 moments !! i = Some m) as Hlook.
  { intros m i. rewrite make_moment_dic_last_wins. split; [by intros [? _]|].
    intros Hi. split; [done|]. intros j Hj Hjm.
    pose proof (NoDup_lookup _ _ _ _ Hnd Hi Hjm). lia. }
  split_and!; [done|done|..].
  - intros i Hi. destruct (lookup_lt_is_Some_2 moments i) as [m Hm']; [lia|].
    exists m. by apply Hlook.
  - intros m i Hi%Hlook%lookup_lt_Some. lia.
Qed.

(** X14: what construction guarantees.  An [ODEProblem] that has been
    constructed passes [validate] again, has no more equations than
    moments were given, maps exactly the given moments, and maps them to
    positions of the list of moments. *)
Theorem ODEProblem_init_accepted lhs rhs cs moments (p : ODEProblem E) :
  ODEProblem_init lhs rhs cs moments = inr p →
  validate p = inr () ∧
  (rows (left_hand_side p) ≤ length moments)%nat ∧
  (∀ m, m ∈ moments ↔ is_Some (moment_dic p !! m)) ∧
  (∀ m i, moment_dic p !! m = Some i → (i < length moments)%nat).
Proof.
  intros Hp.
  destruct (decide (rows lhs = rows rhs)) as [Heq|Hne];
    [|by rewrite ODEProblem_init_rows in Hp].
  destruct (decide (rows lhs = length (remove_dups moments))) as [Hm|Hm];
    [|by rewrite ODEProblem_init_moments in Hp].
  rewrite ODEProblem_init_ok in Hp by done. injection Hp as <-. simpl.
  split_and!.
  - unfold validate. simpl. rewrite decide_False by (by intros ?).
    rewrite decide_False; [done|]. rewrite size_make_moment_dic. by intros ?.
  - rewrite Hm. apply length_remove_dups_le.
  - intros m. split.
    + intros [i Hi]%list_elem_of_lookup_1.
      assert (∃ j, moments !! j = Some m ∧
                   ∀ j', (j < j')%nat → moments !! j' ≠ Some m) as (j & ? & ?).
      { clear Hm. induction moments as [|m' moments IH] using rev_ind;
          [done|].
        destruct (decide (m = m')) as [->|Hne].
        - exists (length moments). split.
          + by rewrite lookup_app_r, Nat.sub_diag by lia.
          + intros j' Hj' Hjm%lookup_lt_Some. rewrite length_app in Hjm.
            simpl in Hjm. lia.
        - apply lookup_app_Some in Hi as [Hi|[_ Hi]];
            [|by apply list_lookup_singleton_Some in Hi as [_ ?]].
          destruct (IH Hi) as (j & Hj & Hlast). exists j. split.
          + by apply lookup_app_l_Some.
          + intros j' Hj' [Hjm|[_ Hjm]]%lookup_app_Some.
            * by apply (Hlast j').
            * by apply list_lookup_singleton_Some in Hjm as [_ ?]. }
      exists j. by apply make_moment_dic_last_wins.
    + intros [i [Hi _]%make_moment_dic_last_wins].
      by eapply list_elem_of_lookup_2.
  - intros m i [Hi%lookup_lt_Some _]%make_moment_dic_last_wins. done.
Qed.

End MomentMapping.

Lemma ODEProblem_init_bijection_witness :
  NoDup [[1]; [2]] ∧
  (∀ m i, make_moment_dic [[1]; [2]] !! m = Some i ↔
          [[1]; [2]] !! i = Some m) ∧
  (∀ i, (i < 2)%nat → ∃ m, make_moment_dic [[1]; [2]] !! m = Some i) ∧
  (∀ m i, make_moment_dic [[1]; [2]] !! m = Some i → (i < 2)%nat).
Proof.
  apply (ODEProblem_init_bijection (mkMatrix 2 1 [TS "y_0"; TS "yx2"])
           (mkMatrix 2 1 [TS "c_0*y_0"; TS "c_0*yx2"])
           (mkMatrix 1 1 [TS "c_0"]) [[1]; [2]]
           (mkODEProblem (mkMatrix 2 1 [TS "y_0"; TS "yx2"])
              (mkMatrix 2 1 [TS "c_0*y_0"; TS "c_0*yx2"]) [TS "c_0"]
              (make_moment_dic [[1]; [2]]))); [|done].
  vm_compute. reflexivity.
Defined.

Lemma ODEProblem_init_accepted_witness :
  validate (mkODEProblem (mkMatrix 1 1 [TS "y_0"])
              (mkMatrix 1 1 [TS "c_0*y_0"]) [TS "c_0"]
              (make_moment_dic [[1]; [1]])) = inr () ∧
  (1 ≤ 2)%nat ∧
  (∀ m, m ∈ [[1]; [1]] ↔ is_Some (make_moment_dic [[1]; [1]] !! m)) ∧
  (∀ m i, make_moment_dic [[1]; [1]] !! m = Some i → (i < 2)%nat).
Proof.
  apply (ODEProblem_init_accepted (mkMatrix 1 1 [TS "y_0"])
           (mkMatrix 1 1 [TS "c_0*y_0"]) (mkMatrix 1 1 [TS "c_0"])
           [[1]; [1]]).
  vm_compute. reflexivity.
Defined.

(** ** The sections of a model file *)

Section ParseSections.
Implicit Types (st : gmap string (list string) * option string).
Implicit Types (line header k : string) (lines body rest : list string).

Lemma contains_rstrip (c : ascii) (s : string) :
  Py.is_whitespace c = false →
  Py.contains c (Py.rstrip s) = Py.contains c s.
Proof.
  intros Hc. induction s as [|c' s IH]; [done|]. simpl.
  destruct (Py.rstrip s) as [|a r] eqn:Hr.
  - simpl in IH. rewrite <-IH.
    destruct (Py.is_whitespace c') eqn:Hc'; simpl.
    + rewrite decide_False; [done|]. intros ->. congruence.
    + done.
  - simpl. simpl in IH. by rewrite IH.
Qed.

Lemma rstrip_idemp (s : string) : Py.rstrip (Py.rstrip s) = Py.rstrip s.
Proof.
  induction s as [|c s IH]; [done|]. simpl.
  destruct (Py.rstrip s) as [|a r] eqn:Hr.
  - destruct (Py.is_whitespace c) eqn:Hc; simpl; [done|]. by rewrite Hc.
  - change (Py.rstrip (String c (String a r)))
      with (match Py.rstrip (String a r) with
            | EmptyString => if Py.is_whitespace c then EmptyString
                             else String c EmptyString
            | r' => String c r'
            end).
    by rewrite IH.
Qed.

Lemma colon_rstrip line :
  Py.contains ":" (Py.rstrip line) = Py.contains ":" line.
Proof. by apply contains_rstrip. Qed.

Lemma header_nonempty line :
  Py.contains ":" line = true → Py.rstrip line ≠ EmptyString.
Proof. intros Hc Hr. by rewrite <-colon_rstrip, Hr in Hc. Qed.

Lemma parse_step_rstrip st line :
  parse_step st (Py.rstrip line) = parse_step st line.
Proof.
  destruct st as [all_fields field]. unfold parse_step.
  by rewrite colon_rstrip, rstrip_idemp.
Qed.

Lemma foldl_parse_step_rstrip st lines :
  foldl parse_step st lines
  = foldl parse_step st
      (filter (λ l, l ≠ EmptyString) (Py.rstrip <$> lines)).
Proof.
  revert st. induction lines as [|line lines IH]; intros st; [done|].
  csimpl. destruct (decide (Py.rstrip line = EmptyString)) as [Hr|Hr].
  - rewrite filter_cons_False by (by intros ?).
    rewrite parse_step_blank; [done| |done].
    by rewrite <-colon_rstrip, Hr.
  - rewrite filter_cons_True by done. simpl.
    by rewrite parse_step_rstrip.
Qed.

(** X15: trailing blanks and blank lines do not matter.  The fields read
    from a list of lines are those read from the lines stripped on the
    right, with the lines that are then empty left out. *)
Theorem parse_fields_rstrip lines :
  parse_fields lines
  = parse_fields (filter (λ l, l ≠ EmptyString) (Py.rstrip <$> lines)).
Proof. unfold parse_fields. by rewrite <-foldl_parse_step_rstrip. Qed.

Lemma parse_step_keys st line k :
  is_Some ((parse_step st line).1 !! k) ↔
  is_Some (st.1 !! k) ∨ (Py.contains ":" line = true ∧ Py.rstrip line = k).
Proof.
  destruct st as [all_fields field]. unfold parse_step.
  destruct (Py.contains ":" line) eqn:Hc; simpl.
  - destruct (decide (Py.rstrip line = k)) as [->|Hne].
    + rewrite lookup_insert_eq. naive_solver.
    + rewrite lookup_insert_ne by done. naive_solver.
  - assert (is_Some (all_fields !! k) ↔
            is_Some (all_fields !! k) ∨ false = true ∧ Py.rstrip line = k)
      as Hsame by naive_solver.
    destruct field as [f|]; [|done].
    case_decide; [|done]. case_decide; [|done]. simpl.
    rewrite <-Hsame. destruct (decide (f = k)) as [->|Hne].
    + rewrite lookup_alter_eq. by rewrite fmap_is_Some.
    + by rewrite lookup_alter_ne.
Qed.

Lemma foldl_parse_step_keys st lines k :
  is_Some ((foldl parse_step st lines).1 !! k) ↔
  is_Some (st.1 !! k) ∨
  ∃ line, line ∈ lines ∧ Py.contains ":" line = true ∧ Py.rstrip line = k.
Proof.
  revert st. induction lines as [|line lines IH]; intros st; simpl.
  - split; [by left|]. intros [?|(line & Hin & _)]; [done|]. by inv Hin.
  - rewrite IH, parse_step_keys. split.
    + intros [[?|?]|(l & ? & ?)]; [by left|right..].
      * exists line. split; [left|done].
      * exists l. split; [by right|done].
    + intros [?|(l & Hin & ?)]; [by left; left|].
      apply elem_of_cons in Hin as [->|Hin]; [by left; right|].
      right. by exists l.
Qed.

(** X16: the fields of a file.  A name is a field exactly when some line
    that contains a colon is that name once stripped on the right. *)
Theorem parse_fields_headers lines k :
  is_Some (parse_fields lines !! k) ↔
  ∃ line, line ∈ lines ∧ Py.contains ":" line = true ∧ Py.rstrip line = k.
Proof.
  unfold parse_fields. rewrite foldl_parse_step_keys. simpl.
  rewrite lookup_empty. split; [|by right].
  intros [[? ?]|?]; done.
Qed.

Lemma parse_step_elsewhere st line k :
  st.2 ≠ Some k →
  ¬ (Py.contains ":" line = true ∧ Py.rstrip line = k) →
  (parse_step st line).1 !! k = st.1 !! k ∧ (parse_step st line).2 ≠ Some k.
Proof.
  destruct st as [all_fields field]. simpl. intros Hf Hline.
  unfold parse_step. destruct (Py.contains ":" line) eqn:Hc; simpl.
  - split; [|naive_solver]. rewrite lookup_insert_ne; naive_solver.
  - destruct field as [f|]; [|done].
    case_decide; [|done]. case_decide; [|done]. simpl.
    split; [|done]. rewrite lookup_alter_ne; naive_solver.
Qed.

Lemma foldl_parse_step_elsewhere st lines k :
  st.2 ≠ Some k →
  Forall (λ l, Py.contains ":" l = true → Py.rstrip l ≠ k) lines →
  (foldl parse_step st lines).1 !! k = st.1 !! k.
Proof.
  intros Hf Hlines. revert st Hf.
  induction Hlines as [|line lines Hline Hlines IH]; intros st Hf; [done|].
  simpl. destruct (parse_step_elsewhere st line k) as [Hk Hf'];
    [done|naive_solver|].
  by rewrite IH, Hk.
Qed.

Lemma foldl_parse_step_body (all_fields : gmap string (list string)) k
    (content : list string) body :
  k ≠ EmptyString →
  all_fields !! k = Some content →
  Forall (λ l, Py.contains ":" l = false) body →
  ∃ all_fields',
    foldl parse_step (all_fields, Some k) body = (all_fields', Some k) ∧
    all_fields' !! k
    = Some (content ++ filter (λ l, l ≠ EmptyString) (Py.rstrip <$> body)).
Proof.
  intros Hk Hcontent Hbody. revert all_fields content Hcontent.
  induction Hbody as [|line body Hline Hbody IH];
    intros all_fields content Hcontent.
  - exists all_fields. by rewrite app_nil_r.
  - simpl. rewrite Hline. rewrite decide_True by done. csimpl.
    destruct (decide (Py.rstrip line = EmptyString)) as [Hr|Hr].
    + rewrite decide_False by (by intros ?).
      rewrite filter_cons_False by (by intros ?). by apply IH.
    + rewrite decide_True by done. rewrite filter_cons_True by done.
      destruct (IH (alter (λ l, l ++ [Py.rstrip line]) k all_fields)
                  (content ++ [Py.rstrip line])) as (m & Hm & Hlook).
      { by rewrite lookup_alter_eq, Hcontent. }
      exists m. split; [done|]. by rewrite Hlook, <-app_assoc.
Qed.

Lemma parse_fields_between (before : list string) header body rest k :
  Py.contains ":" header = true →
  Py.rstrip header = k →
  Forall (λ l, Py.contains ":" l = false) body →
  (∀ h, head rest = Some h → Py.contains ":" h = true) →
  Forall (λ l, Py.contains ":" l = true → Py.rstrip l ≠ k) rest →
  parse_fields (before ++ header :: body ++ rest) !! k
  = Some (filter (λ l, l ≠ EmptyString) (Py.rstrip <$> body)).
Proof.
  intros Hc Hk Hbody Hnext Hrest. unfold parse_fields.
  rewrite foldl_app. simpl. rewrite foldl_app.
  destruct (foldl parse_step (∅, None) before) as [all_fields field].
  unfold parse_step at 3. rewrite Hc, Hk.
  destruct (foldl_parse_step_body (<[k:=[]]> all_fields) k [] body)
    as (m & -> & Hm); [|by rewrite lookup_insert_eq|done|].
  { rewrite <-Hk. by apply header_nonempty. }
  destruct rest as [|h rest]; [done|]. simpl.
  apply Forall_cons in Hrest as [Hh Hrest].
  pose proof (Hnext h eq_refl) as Hhc.
  rewrite foldl_parse_step_elsewhere; [| |done].
  - unfold parse_step. rewrite Hhc. simpl.
    rewrite lookup_insert_ne by (by apply Hh). done.
  - unfold parse_step. rewrite Hhc. simpl. intros [= ?]. by apply Hh.
Qed.

(** X17: the content of a field.  After the last header of a field, the
    lines up to the next line with a colon, or to the end of the file, are
    its content: stripped on the right, in order, without the empty ones.
    What stood under an earlier header of the same name is dropped. *)
Theorem parse_fields_section (before : list string) header body rest k :
  Py.contains ":" header = true →
  Py.rstrip header = k →
  Forall (λ l, Py.contains ":" l = false) body →
  (∀ h, head rest = Some h → Py.contains ":" h = true) →
  Forall (λ l, Py.contains ":" l = true → Py.rstrip l ≠ k) rest →
  parse_fields (before ++ header :: body ++ rest) !! k
  = Some (filter (λ l, l ≠ EmptyString) (Py.rstrip <$> body)).
Proof. apply parse_fields_between. Qed.

End ParseSections.

Lemma parse_fields_section_witness :
  parse_fields
    (["MEA"; "LHS:"] ++ "LHS:  " :: ["y_0 "; "   "; "yx2"]
       ++ ["Constants:"; "c_0"]) !! "LHS:"
  = Some ["y_0"; "yx2"].
Proof.
  apply (parse_fields_section ["MEA"; "LHS:"] "LHS:  "
           ["y_0 "; "   "; "yx2"] ["Constants:"; "c_0"] "LHS:").
  - reflexivity.
  - reflexivity.
  - repeat constructor.
  - intros h [= <-]. reflexivity.
  - repeat constructor; intros Hc; try discriminate Hc; vm_compute;
      intros Heq; discriminate Heq.
Defined.

(** ** A model read from a file and from a string *)

Section ParseSources.
Context {E : Type} `{Sympy E}.
Context (eval_tuple : string → Py.result (list Z)).

Lemma rstrip_app_newline (s : string) :
  Py.rstrip (s +:+ Py.newline) = Py.rstrip s.
Proof.
  induction s as [|c s IH]; [done|].
  change (String c s +:+ Py.newline) with (String c (s +:+ Py.newline)).
  simpl. by rewrite IH.
Qed.

Lemma string_app_assoc (s1 s2 s3 : string) :
  (s1 +:+ s2) +:+ s3 = s1 +:+ (s2 +:+ s3).
Proof.
  induction s1 as [|c s1 IH]; [done|].
  change (String c ((s1 +:+ s2) +:+ s3) = String c (s1 +:+ (s2 +:+ s3))).
  by f_equal.
Qed.

Lemma rev_app_app (s1 s2 : string) :
  String.rev_app s1 s2 = String.rev s1 +:+ s2.
Proof.
  unfold String.rev. revert s2. induction s1 as [|c s1 IH]; intros s2; [done|].
  simpl. rewrite IH, (IH (String c EmptyString)).
  by rewrite string_app_assoc.
Qed.

Lemma rstrip_rev_newline (cur : string) :
  Py.rstrip (String.rev (String "010" cur)) = Py.rstrip (String.rev cur).
Proof.
  unfold String.rev at 1. simpl. rewrite rev_app_app.
  apply rstrip_app_newline.
Qed.

Lemma readlines_go_split (cur s : string) :
  filter (λ l, l ≠ EmptyString) (Py.rstrip <$> Py.readlines_go cur s)
  = filter (λ l, l ≠ EmptyString) (Py.rstrip <$> Py.split_newline_go cur s).
Proof.
  revert cur. induction s as [|c s IH]; intros cur.
  - simpl. destruct cur as [|a cur]; [|done]. done.
  - simpl. case_decide as Hc.
    + subst c. rewrite !fmap_cons, rstrip_rev_newline.
      rewrite !filter_cons, IH. done.
    + apply IH.
Qed.

Lemma parse_lines_fields (name name' : string) (lines lines' : list string) :
  parse_fields lines = parse_fields lines' →
  (parse_lines eval_tuple name lines).2
  = (parse_lines eval_tuple name' lines').2.
Proof.
  intros Hf. unfold parse_lines. rewrite Hf.
  repeat (match goal with
          | |- context [match ?x with _ => _ end] => destruct x
          end; try done).
Qed.

(** X18: a model read from a file and from a string.  Reading a file and
    reading its content passed as a string give the same problem or the
    same exception; only the printed message, which names the input,
    can differ. *)
Theorem parse_model_file_or_string (content : string → string)
    (readlines : string → list string) (input_filename : string) :
  (parse_model eval_tuple (λ name, Py.readlines (content name))
     input_filename false).2
  = (parse_model eval_tuple readlines (content input_filename) true).2.
Proof.
  unfold parse_model. apply parse_lines_fields.
  rewrite (parse_fields_rstrip (Py.readlines _)).
  rewrite (parse_fields_rstrip (Py.split_newline _)).
  unfold Py.readlines, Py.split_newline. by rewrite readlines_go_split.
Qed.

Lemma length_traverse {A B} (f : A → Py.result B) (l : list A) (ys : list B) :
  Py.traverse f l = inr ys → length ys = length l.
Proof.
  revert ys. induction l as [|x l IH]; intros ys; simpl.
  - by intros [= <-].
  - destruct (f x) as [e|y]; [done|]. simpl.
    destruct (Py.traverse f l) as [e|ys']; [done|]. simpl.
    intros [= <-]. simpl. by rewrite (IH ys').
Qed.

Lemma rows_Matrix_of_list (l : list E) : rows (Matrix_of_list l) = length l.
Proof. by destruct l. Qed.

(** X19: the counts of a parsed file.  When the four fields are there and
    their lines can be read, nothing is printed; the problem is returned
    exactly when there are as many left-hand sides as right-hand sides and
    as distinct moments, and a [ValueError] is raised when the two sides
    differ in number. *)
Theorem parse_lines_counts (input_filename : string)
    (lines rhs_lines lhs_lines constant_lines moment_lines : list string)
    (moments : list (list Z)) :
  parse_fields lines !! STRING_RIGHT_HAND = Some rhs_lines →
  Forall (λ l, is_Some (sp_sympify l)) rhs_lines →
  parse_fields lines !! STRING_LEFT_HAND = Some lhs_lines →
  Forall (λ l, is_Some (sp_sympify l)) lhs_lines →
  parse_fields lines !! STRING_CONSTANT = Some constant_lines →
  Forall (λ l, is_Some (sp_sympify l)) constant_lines →
  parse_fields lines !! STRING_MOM = Some moment_lines →
  Py.traverse eval_tuple moment_lines = inr moments →
  (parse_lines eval_tuple input_filename lines).1 = [] ∧
  (Py.returns (parse_lines eval_tuple input_filename lines).2 ↔
   length lhs_lines = length rhs_lines ∧
   length lhs_lines = length (remove_dups moments)) ∧
  (length lhs_lines ≠ length rhs_lines →
   ∃ msg, (parse_lines eval_tuple input_filename lines).2
          = inl (Py.ValueError msg)).
Proof.
  intros Hr Hrs Hl Hls Hc Hcs Hm Hms.
  assert (∀ (g : E → E) ls, Forall (λ l, is_Some (sp_sympify l)) ls →
            ∃ es, Py.traverse (λ l, e ← sympify l; mret (g e)) ls = inr es ∧
                  length es = length ls) as Hparse.
  { intros g ls Hall. induction Hall as [|l ls [e He] Hall (es & IH & Hlen)].
    - by exists [].
    - exists (g e :: es). cbn [Py.traverse].
      assert (sympify l = inr e) as -> by (unfold sympify; by rewrite He).
      simpl. rewrite IH. simpl. by rewrite Hlen. }
  assert (∀ ls, Forall (λ l, is_Some (sp_sympify l)) ls →
            ∃ es, Py.traverse sympify ls = inr es ∧ length es = length ls)
    as Hparse'.
  { intros ls Hall. induction Hall as [|l ls [e He] Hall (es & IH & Hlen)].
    - by exists [].
    - exists (e :: es). cbn [Py.traverse].
      assert (sympify l = inr e) as -> by (unfold sympify; by rewrite He).
      simpl. rewrite IH. simpl. by rewrite Hlen. }
  destruct (Hparse sp_simplify rhs_lines Hrs) as (rhs & Hrhs & Hrlen).
  destruct (Hparse' lhs_lines Hls) as (lhs & Hlhs & Hllen).
  destruct (Hparse' constant_lines Hcs) as (cs & Hcs' & _).
  unfold parse_lines. rewrite Hr, Hrhs, Hl, Hlhs, Hc, Hcs', Hm, Hms.
  cbn [fst snd]. rewrite <-Hllen, <-Hrlen.
  rewrite <-(rows_Matrix_of_list lhs), <-(rows_Matrix_of_list rhs).
  split_and!; [done| |].
  - split.
    + intros [p Hp].
      destruct (decide (rows (Matrix_of_list lhs) = rows (Matrix_of_list rhs)))
        as [Heq|Hne]; [|by rewrite ODEProblem_init_rows in Hp].
      destruct (decide (rows (Matrix_of_list lhs)
                        = length (remove_dups moments))) as [Heq'|Hne];
        [done|by rewrite ODEProblem_init_moments in Hp].
    + intros [Heq Heq']. eexists. by apply ODEProblem_init_ok.
  - intros Hne. eexists. by apply ODEProblem_init_rows.
Qed.

End ParseSources.

Lemma parse_lines_counts_witness :
  (parse_lines (E:=term) (λ _, inr [1]) "model.txt"
     (lines_without_moments ++ ["List of moments:"; "[1]"])).1 = [] ∧
  (Py.returns
     (parse_lines (E:=term) (λ _, inr [1]) "model.txt"
        (lines_without_moments ++ ["List of moments:"; "[1]"])).2 ↔
   length ["y_0"] = length ["-c_0*y_0"] ∧
   length ["y_0"] = length (remove_dups [[1]])) ∧
  (length ["y_0"] ≠ length ["-c_0*y_0"] →
   ∃ msg,
     (parse_lines (E:=term) (λ _, inr [1]) "model.txt"
        (lines_without_moments ++ ["List of moments:"; "[1]"])).2
     = inl (Py.ValueError msg)).
Proof.
  apply (parse_lines_counts (E:=term) (λ _, inr [1]) "model.txt"
           (lines_without_moments ++ ["List of moments:"; "[1]"])
           ["-c_0*y_0"] ["y_0"] ["c_0"] ["[1]"] [[1]]).
  - vm_compute. reflexivity.
  - repeat constructor; vm_compute; eauto.
  - vm_compute. reflexivity.
  - repeat constructor; vm_compute; eauto.
  - vm_compute. reflexivity.
  - repeat constructor; vm_compute; eauto.
  - vm_compute. reflexivity.
  - vm_compute. reflexivity.
Defined.

(** ** Reading the output of the expansion *)

Section ExpansionOutput.
Context (repr : string → string).
Implicit Types (lines pre body mid tail : list string) (line sep : string).

Lemma range_from_nil (a b : Z) : b ≤ a → Py.range_from a b = [].
Proof.
  intros Hle. unfold Py.range_from.
  by replace (Z.to_nat (b - a)) with 0%nat by lia.
Qed.

Lemma range_from_cons (a b : Z) :
  a < b → Py.range_from a b = a :: Py.range_from (a + 1) b.
Proof.
  intros Hlt. unfold Py.range_from.
  replace (Z.to_nat (b - a)) with (S (Z.to_nat (b - (a + 1)))) by lia.
  cbn [seq]. rewrite fmap_cons. f_equal; [lia|].
  rewrite <-fmap_S_seq, <-list_fmap_compose.
  apply list_fmap_ext. intros _ k _. simpl. lia.
Qed.

Lemma getitem_int_nat {A} (l : list A) (i : nat) :
  Py.getitem_int l (Z.of_nat i) = Py.getitem l i.
Proof.
  unfold Py.getitem_int. cbv zeta.
  destruct (decide (Z.of_nat i < 0)) as [?|_]; [lia|].
  destruct (decide (Z.of_nat i < 0)) as [?|_]; [lia|].
  by rewrite Nat2Z.id.
Qed.

Lemma collect_lhs_step lines (a : nat) line (lhs : list string)
    (number_of_species : Z) :
  lines !! a = Some line →
  collect_lhs lines (lhs, number_of_species) (Z.of_nat a)
  = inr (lhs ++ [Py.strip line],
         if Py.startswith line "y_" then number_of_species + 1
         else number_of_species).
Proof.
  intros Hline. unfold collect_lhs. rewrite getitem_int_nat.
  unfold Py.getitem. rewrite Hline. simpl.
  by destruct (Py.startswith line "y_").
Qed.

Lemma collect_moments_step lines (a : nat) line (moment_list : list string) :
  lines !! a = Some line →
  collect_moments lines moment_list (Z.of_nat a)
  = inr (if Py.startswith line "[" then
           moment_list ++ [Py.strip_chars ["010"; "["; "]"]%char line]
         else moment_list).
Proof.
  intros Hline. unfold collect_moments. rewrite getitem_int_nat.
  unfold Py.getitem. rewrite Hline. simpl.
  by destruct (Py.startswith line "[").
Qed.

Lemma for_each_collect_lhs lines (a : nat) (b : Z) (lhs : list string)
    (number_of_species : Z) :
  b ≤ Z.of_nat (length lines) →
  Py.for_each (collect_lhs lines) (lhs, number_of_species)
    (Py.range_from (Z.of_nat a) b)
  = inr (lhs ++ (Py.strip <$> take (Z.to_nat (b - Z.of_nat a)) (drop a lines)),
         number_of_species
         + Z.of_nat (length (filter (λ l, Py.startswith l "y_" = true)
                               (take (Z.to_nat (b - Z.of_nat a))
                                  (drop a lines))))).
Proof.
  intros Hb. remember (Z.to_nat (b - Z.of_nat a)) as n eqn:Hn.
  revert a lhs number_of_species Hn.
  induction n as [|n IH]; intros a lhs number_of_species Hn.
  - rewrite range_from_nil by lia. simpl.
    by rewrite app_nil_r, Z.add_0_r.
  - rewrite range_from_cons by lia. cbn [Py.for_each].
    destruct (lookup_lt_is_Some_2 lines a) as [line Hline]; [lia|].
    rewrite (collect_lhs_step _ _ line) by done. simpl.
    rewrite (drop_S _ _ _ Hline). cbn [take]. rewrite fmap_cons.
    replace (Z.of_nat a + 1) with (Z.of_nat (S a)) by lia.
    rewrite IH by lia. rewrite <-app_assoc. simpl.
    destruct (Py.startswith line "y_") eqn:Hs.
    + rewrite filter_cons_True by done. simpl. do 2 f_equal. lia.
    + by rewrite filter_cons_False by (by rewrite Hs).
Qed.

Lemma for_each_collect_moments lines (a : nat) (moment_list : list string) :
  (a ≤ length lines)%nat →
  Py.for_each (collect_moments lines) moment_list
    (Py.range_from (Z.of_nat a) (Z.of_nat (length lines)))
  = inr (moment_list
         ++ (Py.strip_chars ["010"; "["; "]"]%char
             <$> filter (λ l, Py.startswith l "[" = true) (drop a lines))).
Proof.
  intros Ha. remember (length lines - a)%nat as n eqn:Hn.
  revert a moment_list Ha Hn.
  induction n as [|n IH]; intros a moment_list Ha Hn.
  - rewrite range_from_nil by lia. rewrite drop_ge by lia. simpl.
    by rewrite app_nil_r.
  - rewrite range_from_cons by lia. cbn [Py.for_each].
    destruct (lookup_lt_is_Some_2 lines a) as [line Hline]; [lia|].
    rewrite (collect_moments_step _ _ line) by done. simpl.
    rewrite (drop_S _ _ _ Hline).
    replace (Z.of_nat a + 1) with (Z.of_nat (S a)) by lia.
    rewrite IH by lia.
    destruct (Py.startswith line "[") eqn:Hs.
    + rewrite filter_cons_True by done. by rewrite <-app_assoc.
    + by rewrite filter_cons_False by (by rewrite Hs).
Qed.

Lemma index_first lines (x : string) (i : nat) :
  lines !! i = Some x → (∀ j, (j < i)%nat → lines !! j ≠ Some x) →
  Py.index repr lines x = inr i.
Proof.
  intros Hi Hfirst. unfold Py.index.
  assert (list_find (λ y, y = x) lines = Some (i, x)) as ->; [|done].
  apply list_find_Some. split_and!; [done..|].
  intros j y Hj Hlt ->. by apply (Hfirst j).
Qed.

Lemma index_missing lines (x : string) :
  x ∉ lines →
  Py.index repr lines x
  = inl (Py.ValueError [Py.Text (repr x); Py.Text " is not in list"]).
Proof.
  intros Hx. unfold Py.index.
  assert (list_find (λ y, y = x) lines = None) as ->; [|done].
  apply list_find_None, Forall_forall. by intros y Hy ->.
Qed.

Lemma index_present lines (x : string) :
  x ∈ lines →
  ∃ i, Py.index repr lines x = inr i ∧ lines !! i = Some x ∧
       ∀ j, (j < i)%nat → lines !! j ≠ Some x.
Proof.
  intros Hx. unfold Py.index.
  destruct (list_find_elem_of (λ y, y = x) lines x) as [[i y] Hfind];
    [done..|].
  rewrite Hfind. apply list_find_Some in Hfind as (Hi & -> & Hfirst).
  exists i. split_and!; [done..|]. intros j Hj Hjx. by apply (Hfirst j x).
Qed.

(** The value of a call on a file in which the three marker lines are
    first found at the positions [i], [j] and [k]. *)
Lemma parse_expansion_output_value (readlines : string → list string)
    (name line0 : string) (i j k : nat) :
  readlines name !! 0%nat = Some line0 →
  Py.index repr (readlines name) LHS_LINE = inr i →
  Py.index repr (readlines name) CONSTANTS_LINE = inr j →
  Py.index repr (readlines name) MOMENTS_LINE = inr k →
  (j < length (readlines name))%nat → (k < length (readlines name))%nat →
  parse_expansion_output repr readlines name
  = inr (Py.rstrip line0,
         Z.of_nat (length (filter (λ l, Py.startswith l "y_" = true)
                             (take (j - i - 2) (drop (S i) (readlines name))))),
         Py.strip <$> take (j - i - 2) (drop (S i) (readlines name)),
         Py.strip_chars ["010"; "["; "]"]%char
         <$> filter (λ l, Py.startswith l "[" = true)
               (drop (S k) (readlines name))).
Proof.
  intros H0 Hi Hj Hk Hjlen Hklen. unfold parse_expansion_output.
  rewrite (getitem_int_nat _ 0). unfold Py.getitem. rewrite H0. simpl.
  rewrite Hi. simpl. rewrite Hj. simpl.
  replace (Z.of_nat i + 1) with (Z.of_nat (S i)) by lia.
  rewrite for_each_collect_lhs by lia. simpl. rewrite Hk. simpl.
  replace (Z.of_nat k + 1) with (Z.of_nat (S k)) by lia.
  rewrite for_each_collect_moments by lia. simpl.
  by replace (Z.to_nat (Z.of_nat j - 1 - Z.of_nat (S i)))
    with (j - i - 2)%nat by lia.
Qed.

(** The ways a call can go, in the order of the checks. *)
Lemma parse_expansion_output_cases (readlines : string → list string)
    (name : string) :
  (readlines name = [] ∧
   parse_expansion_output repr readlines name = inl index_error) ∨
  (readlines name ≠ [] ∧ (LHS_LINE ∉ readlines name) ∧
   parse_expansion_output repr readlines name
   = inl (Py.ValueError
            [Py.Text (repr LHS_LINE); Py.Text " is not in list"])) ∨
  (readlines name ≠ [] ∧ LHS_LINE ∈ readlines name ∧
   (CONSTANTS_LINE ∉ readlines name) ∧
   parse_expansion_output repr readlines name
   = inl (Py.ValueError
            [Py.Text (repr CONSTANTS_LINE); Py.Text " is not in list"])) ∨
  (readlines name ≠ [] ∧ LHS_LINE ∈ readlines name ∧
   CONSTANTS_LINE ∈ readlines name ∧ (MOMENTS_LINE ∉ readlines name) ∧
   parse_expansion_output repr readlines name
   = inl (Py.ValueError
            [Py.Text (repr MOMENTS_LINE); Py.Text " is not in list"])) ∨
  (LHS_LINE ∈ readlines name ∧ CONSTANTS_LINE ∈ readlines name ∧
   MOMENTS_LINE ∈ readlines name ∧
   ∃ line0 i j k,
     readlines name !! 0%nat = Some line0 ∧
     Py.index repr (readlines name) LHS_LINE = inr i ∧
     Py.index repr (readlines name) CONSTANTS_LINE = inr j ∧
     Py.index repr (readlines name) MOMENTS_LINE = inr k ∧
     (j < length (readlines name))%nat ∧ (k < length (readlines name))%nat).
Proof.
  destruct (readlines name !! 0%nat) as [line0|] eqn:H0.
  2:{ left. apply lookup_ge_None in H0.
      assert (readlines name = []) as Hl
        by (destruct (readlines name); [done|simpl in H0; lia]).
      split; [done|]. unfold parse_expansion_output. by rewrite Hl. }
  assert (readlines name ≠ []) as Hne by (by intros Hl; rewrite Hl in H0).
  assert (∀ k : string → Py.result (string * Z * list string * list string),
            (line ← Py.getitem_int (readlines name) 0; k line) = k line0)
    as Hfirst.
  { intros k. rewrite (getitem_int_nat _ 0). unfold Py.getitem.
    by rewrite H0. }
  right. unfold parse_expansion_output. rewrite Hfirst.
  destruct (decide (LHS_LINE ∈ readlines name)) as [H1|H1].
  2:{ left. split_and!; [done..|].
      by rewrite (index_missing _ LHS_LINE H1). }
  right. pose proof (index_present _ _ H1) as (i & Hi & _).
  rewrite Hi. simpl.
  destruct (decide (CONSTANTS_LINE ∈ readlines name)) as [H2|H2].
  2:{ left. split_and!; [done..|].
      by rewrite (index_missing _ CONSTANTS_LINE H2). }
  right.
  pose proof (index_present _ _ H2) as (j & Hj & Hjl%lookup_lt_Some & _).
  rewrite Hj. simpl.
  replace (Z.of_nat i + 1) with (Z.of_nat (S i)) by lia.
  rewrite for_each_collect_lhs by lia. simpl.
  destruct (decide (MOMENTS_LINE ∈ readlines name)) as [H3|H3].
  2:{ left. split_and!; [done..|].
      by rewrite (index_missing _ MOMENTS_LINE H3). }
  right.
  pose proof (index_present _ _ H3) as (k & Hk & Hkl%lookup_lt_Some & _).
  split_and!; [done..|]. by exists line0, i, j, k.
Qed.

(** X20: when [parse_expansion_output] fails.  An empty file gives an
    [IndexError]; otherwise the first of the lines [LHS:], [Constants:]
    and [List of moments:], each with its newline, that is missing gives a
    [ValueError]; the call returns exactly when the three lines are in the
    file. *)
Theorem parse_expansion_output_errors (readlines : string → list string)
    (name : string) :
  let lines := readlines name in
  let missing x :=
    inl (Py.ValueError [Py.Text (repr x); Py.Text " is not in list"]) in
  (lines = [] → parse_expansion_output repr readlines name = inl index_error) ∧
  (lines ≠ [] → LHS_LINE ∉ lines →
   parse_expansion_output repr readlines name = missing LHS_LINE) ∧
  (lines ≠ [] → LHS_LINE ∈ lines → CONSTANTS_LINE ∉ lines →
   parse_expansion_output repr readlines name = missing CONSTANTS_LINE) ∧
  (lines ≠ [] → LHS_LINE ∈ lines → CONSTANTS_LINE ∈ lines →
   MOMENTS_LINE ∉ lines →
   parse_expansion_output repr readlines name = missing MOMENTS_LINE) ∧
  (Py.returns (parse_expansion_output repr readlines name) ↔
   LHS_LINE ∈ lines ∧ CONSTANTS_LINE ∈ lines ∧ MOMENTS_LINE ∈ lines).
Proof.
  intros lines missing. subst lines missing. cbv beta.
  destruct (parse_expansion_output_cases readlines name)
    as [[Hl Hr]|[(Hl & H1 & Hr)|[(Hl & H1 & H2 & Hr)|[(Hl & H1 & H2 & H3 & Hr)|
        (H1 & H2 & H3 & line0 & i & j & k & H0 & Hi & Hj & Hk & Hjl & Hkl)]]]].
  - split_and!; try done.
    split; [by intros [r Hret]; rewrite Hr in Hret|].
    intros [Hin _]. rewrite Hl in Hin. by apply elem_of_nil in Hin.
  - split_and!; try done.
    split; [by intros [r Hret]; rewrite Hr in Hret|]. by intros [? _].
  - split_and!; try done.
    split; [by intros [r Hret]; rewrite Hr in Hret|]. by intros (_ & ? & _).
  - split_and!; try done.
    split; [by intros [r Hret]; rewrite Hr in Hret|]. by intros (_ & _ & ?).
  - assert (readlines name ≠ []) as Hne
      by (by intros Hl; rewrite Hl in H0).
    split_and!; try done.
    split; [done|]. intros _. eexists.
    by eapply parse_expansion_output_value.
Qed.

(** X21: bounds on what [parse_expansion_output] returns.  The number of
    species is between zero and the number of left-hand sides; the
    left-hand sides, when there are any, leave out at least three lines of
    the file, and there are fewer moments than lines. *)
Theorem parse_expansion_output_species_bound
    (readlines : string → list string) (name simulation_type : string)
    (number_of_species : Z) (lhs moment_list : list string) :
  parse_expansion_output repr readlines name
  = inr (simulation_type, number_of_species, lhs, moment_list) →
  0 ≤ number_of_species ≤ Z.of_nat (length lhs) ∧
  ((length lhs + 3 ≤ length (readlines name))%nat ∨ lhs = []) ∧
  (length moment_list < length (readlines name))%nat.
Proof.
  intros Hret.
  destruct (parse_expansion_output_cases readlines name)
    as [[Hl Hr]|[(Hl & H1 & Hr)|[(Hl & H1 & H2 & Hr)|[(Hl & H1 & H2 & H3 & Hr)|
        (H1 & H2 & H3 & line0 & i & j & k & H0 & Hi & Hj & Hk & Hjl & Hkl)]]]];
    try (by rewrite Hr in Hret).
  rewrite (parse_expansion_output_value _ _ line0 i j k) in Hret by done.
  injection Hret as _ <- <- <-.
  rewrite !length_fmap, length_take, length_drop.
  split; [|split].
  - split; [lia|]. apply inj_le.
    etrans; [apply length_filter|]. by rewrite length_take, length_drop.
  - destruct (decide (j - i - 2 = 0)%nat) as [Hz|Hz].
    + right. by rewrite Hz.
    + left. lia.
  - eapply Nat.le_lt_trans; [apply length_filter|].
    rewrite length_drop. lia.
Qed.

Lemma parse_expansion_output_laid_out (readlines : string → list string)
    (name : string) pre body sep mid tail :
  readlines name
  = pre ++ LHS_LINE :: body ++ sep :: CONSTANTS_LINE :: mid
      ++ MOMENTS_LINE :: tail →
  LHS_LINE ∉ pre →
  CONSTANTS_LINE ∉ pre ++ body ++ [sep] →
  MOMENTS_LINE ∉ pre ++ body ++ [sep] ++ mid →
  parse_expansion_output repr readlines name
  = inr (Py.rstrip (default LHS_LINE (head pre)),
         Z.of_nat (length (filter (λ l, Py.startswith l "y_" = true) body)),
         Py.strip <$> body,
         Py.strip_chars ["010"; "["; "]"]%char
         <$> filter (λ l, Py.startswith l "[" = true) tail).
Proof.
  intros Hlines Hlhs Hconstants Hmoments.
  assert (∀ (l1 l2 : list string) x, x ∉ l1 →
            Py.index repr (l1 ++ x :: l2) x = inr (length l1)) as Hindex.
  { intros l1 l2 x Hx. apply index_first.
    - by rewrite lookup_app_r, Nat.sub_diag by lia.
    - intros j Hj Hjx. rewrite lookup_app_l in Hjx by done.
      by apply list_elem_of_lookup_2 in Hjx. }
  assert (length (readlines name)
          = (length pre + length body + length mid + length tail + 4)%nat)
    as Hlen.
  { rewrite Hlines. rewrite !length_app. simpl. rewrite !length_app. simpl.
    rewrite !length_app. simpl. lia. }
  rewrite (parse_expansion_output_value readlines name
             (default LHS_LINE (head pre)) (length pre)
             (length pre + length body + 2)
             (length pre + length body + length mid + 3)).
  - replace (length pre + length body + 2 - length pre - 2)%nat
      with (length body) by lia.
    assert (∀ (l k : list string) x n, n = S (length l) →
              drop n (l ++ x :: k) = k) as Hdrop.
    { intros l k x n ->. rewrite cons_middle, app_assoc.
      apply drop_app_length'. rewrite length_app. simpl. lia. }
    assert (drop (S (length pre)) (readlines name)
            = body ++ sep :: CONSTANTS_LINE :: mid ++ MOMENTS_LINE :: tail)
      as -> by (rewrite Hlines; by apply Hdrop).
    assert (drop (S (length pre + length body + length mid + 3))
              (readlines name) = tail) as ->.
    { rewrite Hlines.
      replace (pre ++ LHS_LINE :: body ++ sep :: CONSTANTS_LINE :: mid
                 ++ MOMENTS_LINE :: tail)
        with ((pre ++ LHS_LINE :: body ++ sep :: CONSTANTS_LINE :: mid)
                ++ MOMENTS_LINE :: tail)
        by (rewrite <-!app_assoc; simpl; rewrite <-!app_assoc; done).
      apply Hdrop. rewrite !length_app. simpl. rewrite !length_app. simpl.
      lia. }
    by rewrite take_app_length.
  - rewrite Hlines. by destruct pre.
  - rewrite Hlines. by apply Hindex.
  - rewrite Hlines.
    replace (pre ++ LHS_LINE :: body ++ sep :: CONSTANTS_LINE :: mid
               ++ MOMENTS_LINE :: tail)
      with ((pre ++ LHS_LINE :: body ++ [sep])
              ++ CONSTANTS_LINE :: mid ++ MOMENTS_LINE :: tail)
      by (by rewrite <-!app_assoc; simpl; rewrite <-!app_assoc).
    rewrite Hindex.
    + f_equal. rewrite !length_app. simpl. rewrite !length_app. simpl. lia.
    + intros [Hin|Hin]%elem_of_app.
      * apply Hconstants. apply elem_of_app. by left.
      * apply elem_of_cons in Hin as [Heq|Hin]; [by vm_compute in Heq|].
        apply Hconstants. apply elem_of_app. by right.
  - rewrite Hlines.
    replace (pre ++ LHS_LINE :: body ++ sep :: CONSTANTS_LINE :: mid
               ++ MOMENTS_LINE :: tail)
      with ((pre ++ LHS_LINE :: body ++ [sep] ++ CONSTANTS_LINE :: mid)
              ++ MOMENTS_LINE :: tail)
      by (by rewrite <-!app_assoc; simpl; rewrite <-!app_assoc).
    rewrite Hindex.
    + f_equal. rewrite !length_app. simpl. rewrite !length_app. simpl. lia.
    + intros [Hin|Hin]%elem_of_app.
      * apply Hmoments. apply elem_of_app. by left.
      * apply elem_of_cons in Hin as [Heq|Hin]; [by vm_compute in Heq|].
        apply elem_of_app in Hin as [Hin|Hin].
        -- apply Hmoments. rewrite !elem_of_app. by right; left.
        -- apply elem_of_app in Hin as [Hin|Hin].
           ++ apply Hmoments. rewrite !elem_of_app. by right; right; left.
           ++ apply elem_of_cons in Hin as [Heq|Hin];
                [by vm_compute in Heq|].
              apply Hmoments. rewrite !elem_of_app. by right; right; right.
  - lia.
  - lia.
Qed.

(** X22: what [parse_expansion_output] reads.  The simulation type is the
    first line stripped on the right; the left-hand sides are the lines
    after the first [LHS:] line up to, but without, the line just before
    the first [Constants:] line, stripped on both sides and blank ones
    included; the species are those of them that start with [y_]; the
    moments are the lines after the first [List of moments:] line that
    start with a bracket, without their brackets and newline. *)
Theorem parse_expansion_output_layout (readlines : string → list string)
    (name : string) pre body sep mid tail :
  readlines name
  = pre ++ LHS_LINE :: body ++ sep :: CONSTANTS_LINE :: mid
      ++ MOMENTS_LINE :: tail →
  LHS_LINE ∉ pre →
  CONSTANTS_LINE ∉ pre ++ body ++ [sep] →
  MOMENTS_LINE ∉ pre ++ body ++ [sep] ++ mid →
  parse_expansion_output repr readlines name
  = inr (Py.rstrip (default LHS_LINE (head pre)),
         Z.of_nat (length (filter (λ l, Py.startswith l "y_" = true) body)),
         Py.strip <$> body,
         Py.strip_chars ["010"; "["; "]"]%char
         <$> filter (λ l, Py.startswith l "[" = true) tail).
Proof. apply parse_expansion_output_laid_out. Qed.

(** X23: the two readers agree on the left-hand sides.  On a file whose
    left-hand sides have no colon, are not blank and do not start with a
    blank, are followed by one blank line and then by the constants, and
    whose later lines do not open the field again, [parse_model] reads for
    the field [LHS:] the list that [parse_expansion_output] returns. *)
Theorem parse_expansion_output_agrees_with_parse_fields
    (readlines : string → list string) (name : string) pre body sep mid tail :
  readlines name
  = pre ++ LHS_LINE :: body ++ sep :: CONSTANTS_LINE :: mid
      ++ MOMENTS_LINE :: tail →
  LHS_LINE ∉ pre →
  CONSTANTS_LINE ∉ pre ++ body ++ [sep] →
  MOMENTS_LINE ∉ pre ++ body ++ [sep] ++ mid →
  Forall (λ l, Py.contains ":" l = false ∧ Py.rstrip l ≠ EmptyString ∧
               Py.strip l = Py.rstrip l) body →
  Py.contains ":" sep = false → Py.rstrip sep = EmptyString →
  Forall (λ l, Py.contains ":" l = true → Py.rstrip l ≠ STRING_LEFT_HAND)
    (mid ++ MOMENTS_LINE :: tail) →
  ∃ simulation_type number_of_species lhs moment_list,
    parse_expansion_output repr readlines name
    = inr (simulation_type, number_of_species, lhs, moment_list) ∧
    parse_fields (readlines name) !! STRING_LEFT_HAND = Some lhs.
Proof.
  intros Hlines Hlhs Hconstants Hmoments Hbody Hsepc Hsep Hrest.
  do 4 eexists. split.
  - by eapply parse_expansion_output_laid_out.
  - rewrite Hlines.
    replace (pre ++ LHS_LINE :: body ++ sep :: CONSTANTS_LINE :: mid
               ++ MOMENTS_LINE :: tail)
      with (pre ++ LHS_LINE :: (body ++ [sep])
              ++ CONSTANTS_LINE :: mid ++ MOMENTS_LINE :: tail)
      by (by rewrite <-!app_assoc).
    rewrite (parse_fields_between pre LHS_LINE (body ++ [sep])
               (CONSTANTS_LINE :: mid ++ MOMENTS_LINE :: tail)
               STRING_LEFT_HAND).
    + f_equal. rewrite fmap_app, filter_app. simpl.
      rewrite filter_cons_False by (by intros ?). rewrite filter_nil.
      rewrite app_nil_r. clear -Hbody.
      induction Hbody as [|l body (_ & Hl & Hs) Hbody IH]; [done|].
      csimpl. rewrite filter_cons_True by done. by rewrite Hs, IH.
    + reflexivity.
    + reflexivity.
    + apply Forall_app. split; [|by repeat constructor].
      eapply Forall_impl; [exact Hbody|]. by intros l (? & _).
    + by intros h [= <-].
    + constructor; [|done]. intros _. vm_compute. intros Heq.
      discriminate Heq.
Qed.

End ExpansionOutput.

Lemma parse_expansion_output_species_bound_witness :
  0 ≤ 1 ≤ Z.of_nat (length ["y_0"; "yx2"]) ∧
  ((length ["y_0"; "yx2"] + 3 ≤ length expansion_output_lines)%nat ∨
   ["y_0"; "yx2"] = []) ∧
  (length ["1"; "2"] < length expansion_output_lines)%nat.
Proof.
  apply (parse_expansion_output_species_bound id
           (λ _, expansion_output_lines) "model.out" "MEA").
  vm_compute. reflexivity.
Defined.

Lemma parse_expansion_output_layout_witness :
  parse_expansion_output id (λ _, expansion_output_lines) "model.out"
  = inr ("MEA", 1, ["y_0"; "yx2"], ["1"; "2"]).
Proof.
  apply (parse_expansion_output_layout id (λ _, expansion_output_lines)
           "model.out" (take 6 expansion_output_lines)
           (take 2 (drop 7 expansion_output_lines)) Py.newline
           (take 2 (drop 11 expansion_output_lines))
           (drop 14 expansion_output_lines)).
  - vm_compute. reflexivity.
  - apply (bool_decide_unpack _). vm_compute. exact I.
  - apply (bool_decide_unpack _). vm_compute. exact I.
  - apply (bool_decide_unpack _). vm_compute. exact I.
Defined.

Lemma parse_expansion_output_agrees_with_parse_fields_witness :
  ∃ simulation_type number_of_species lhs moment_list,
    parse_expansion_output id (λ _, expansion_output_lines) "model.out"
    = inr (simulation_type, number_of_species, lhs, moment_list) ∧
    parse_fields expansion_output_lines !! STRING_LEFT_HAND = Some lhs.
Proof.
  apply (parse_expansion_output_agrees_with_parse_fields id
           (λ _, expansion_output_lines) "model.out"
           (take 6 expansion_output_lines)
           (take 2 (drop 7 expansion_output_lines)) Py.newline
           (take 2 (drop 11 expansion_output_lines))
           (drop 14 expansion_output_lines)).
  - vm_compute. reflexivity.
  - apply (bool_decide_unpack _). vm_compute. exact I.
  - apply (bool_decide_unpack _). vm_compute. exact I.
  - apply (bool_decide_unpack _). vm_compute. exact I.
  - repeat constructor; vm_compute; intros Heq; discriminate Heq.
  - reflexivity.
  - reflexivity.
  - repeat constructor; intros Hc; try discriminate Hc; vm_compute;
      intros Heq; discriminate Heq.
Defined.

Lemma generated_symbol_names_witness :
  (∀ i m, central_counter_1_3 !! S i = Some m →
          symbol m = TS ("yx" +:+ Py.str (Z.of_nat i + 2))) ∧
  (∀ i m, raw_counter_1_3 !! (1 + length [TS "y_0"] + i)%nat = Some m →
          symbol m = TS ("x_" +:+ Py.join "_" (Py.str <$> n_vector m))).
Proof.
  exact (generated_symbol_names 3 [TS "y_0"] central_counter_1_3
           raw_counter_1_3 eq_refl).
Defined.
